(** * exif-dashboard-pro: EXIF extraction and aggregation, embedded in Rocq

    A shallow embedding of [src/exif_analyzer.py] (class [ExifAnalyzer]) and
    [src/data_processor.py] (class [DataProcessor]).

    - Python [int] is [Z]; Python [float] is IEEE-754 binary64, modelled by
      [spec_float] with precision 53 and maximal exponent 1024.
    - A Python expression that may raise evaluates to a [result]; a
      [try ... except: return None] block is the handler [except_None].
    - Dictionaries built by the code ([parsed_data], [gps_data]) are finite
      maps; the decoder's tag mapping is the sequence of its [items()]. *)

From Stdlib Require Import ZArith QArith Qabs Qpower Lqa Bool Ascii String.
From Stdlib Require Import DecimalString.
From Stdlib Require Import Floats.SpecFloat.
From Stdlib Require Import Sorting.Permutation Sorting.Sorted.
From stdpp Require Import gmap strings list fin_maps.

Local Open Scope Z_scope.
Set Warnings "-register-all".

(** ** Exceptions *)

Inductive exn :=
| ZeroDivisionError | OverflowError | TypeError | ValueError
| IndexError | KeyError | AttributeError | OSError.

Inductive result (A : Type) :=
| Ok (a : A)
| Raise (e : exn).
Arguments Ok {A} a.
Arguments Raise {A} e.

#[global] Instance result_ret : MRet result := @Ok.
#[global] Instance result_bind : MBind result := fun A B k c =>
  match c with
  | Ok a => k a
  | Raise e => Raise e
  end.

(** [try: return body  except: return None] *)
Definition except_None {A} (body : result A) : result (option A) :=
  match body with
  | Ok a => Ok (Some a)
  | Raise _ => Ok None
  end.

(** ** binary64 arithmetic as Python exposes it *)

Module F64.

Definition prec : Z := 53.
Definition emax : Z := 1024.

Definition add := SFadd prec emax.
Definition mul := SFmul prec emax.
Definition div := SFdiv prec emax.
Definition opp := SFopp.

Definition of_Z (z : Z) : spec_float := binary_normalize prec emax z 0 false.

Definition is_zero (x : spec_float) : bool :=
  match x with S754_zero _ => true | _ => false end.

Definition is_finite (x : spec_float) : bool :=
  match x with S754_zero _ | S754_finite _ _ _ => true | _ => false end.

Definition sign (x : spec_float) : bool :=
  match x with
  | S754_zero s | S754_infinity s | S754_finite s _ _ => s
  | S754_nan => false
  end.

(** The exact value of a finite float, as a fraction [num / den]. *)
Definition num_den (x : spec_float) : Z * Z :=
  match x with
  | S754_finite s m e =>
      let n := if s then Z.neg m else Z.pos m in
      if 0 <=? e then (n * 2 ^ e, 1) else (n, 2 ^ (- e))
  | _ => (0, 1)
  end.

Definition to_Q (x : spec_float) : Q :=
  let '(n, d) := num_den x in Qmake n (Z.to_pos d).

(** Correctly rounded quotient of two integers (round to nearest, ties to
    even), as [int.__truediv__] computes it.  [b] is not zero. *)
Definition div_Z (a b : Z) : spec_float :=
  let s := xorb (a <? 0) (b <? 0) in
  match a with
  | Z0 => S754_zero (b <? 0)
  | _ =>
      let '(q, e, l) := SFdiv_core_binary prec emax (Z.abs a) 0 (Z.abs b) 0 in
      binary_round_aux prec emax s q e l
  end.

(** Nearest integer to [a / b], ties to even; [0 <= a], [0 < b]. *)
Definition rne_div (a b : Z) : Z :=
  let q := a / b in
  let r := a mod b in
  match 2 * r ?= b with
  | Lt => q
  | Gt => q + 1
  | Eq => if Z.even q then q else q + 1
  end.

(** [|x| * 10] rounded to the nearest integer, ties to even: the digits
    that [format(x, '.1f')] and [round(x, 1)] keep. *)
Definition tenths (x : spec_float) : Z :=
  let '(n, d) := num_den x in rne_div (Z.abs n * 10) d.

(** Truncation toward zero of a finite float. *)
Definition trunc (x : spec_float) : Z :=
  let '(n, d) := num_den x in Z.quot n d.

(** Exact comparison of an integer with a float, as Python compares
    [int] with [float]; [None] when the float is a NaN. *)
Definition compare_Z (a : Z) (x : spec_float) : option comparison :=
  match x with
  | S754_nan => None
  | S754_infinity s => Some (if s then Gt else Lt)
  | _ => let '(n, d) := num_den x in Some (a * d ?= n)
  end.

Definition compare := SFcompare.

End F64.

Abbreviation float := spec_float.

(** ** Values handed over by the image decoder

    A tag value is an integer, a float (a rational tag behaves as the float
    of its quotient in arithmetic), a text, or a tuple of such values; the
    GPS tag holds a nested directory, a mapping from tag ids to values. *)

Inductive pyval :=
| VInt (z : Z)
| VFloat (x : float)
| VStr (s : string)
| VTuple (vs : list pyval).

Inductive tagval :=
| Plain (v : pyval)
| Ifd (d : list (Z * pyval)).

(** [datetime.datetime], to the second. *)
Record datetime := {
  dt_year : Z; dt_month : Z; dt_day : Z;
  dt_hour : Z; dt_minute : Z; dt_second : Z
}.

(** ** Numbers *)

Definition string_of_Z (z : Z) : string := NilZero.string_of_int (Z.to_int z).

(** Conversion of an [int] operand to [float]. *)
Definition float_of_int (z : Z) : result float :=
  let x := F64.of_Z z in
  if F64.is_finite x then Ok x else Raise OverflowError.

(** The float an operand stands for in mixed arithmetic. *)
Definition as_float (v : pyval) : result float :=
  match v with
  | VInt z => float_of_int z
  | VFloat x => Ok x
  | _ => Raise TypeError
  end.

Definition float_truediv (x y : float) : result float :=
  if F64.is_zero y then Raise ZeroDivisionError else Ok (F64.div x y).

Definition int_truediv (a b : Z) : result float :=
  if b =? 0 then Raise ZeroDivisionError
  else
    let x := F64.div_Z a b in
    if F64.is_finite x then Ok x else Raise OverflowError.

(** [a / b] *)
Definition py_truediv (a b : pyval) : result float :=
  match a, b with
  | VInt x, VInt y => int_truediv x y
  | VInt _, VFloat _ | VFloat _, VInt _ | VFloat _, VFloat _ =>
      x ← as_float a; y ← as_float b; float_truediv x y
  | _, _ => Raise TypeError
  end.

(** [a / y] and [a + y] with a float right operand. *)
Definition py_div_float (a : pyval) (y : float) : result float :=
  x ← as_float a; float_truediv x y.

Definition py_add_float (a : pyval) (y : float) : result float :=
  x ← as_float a; Ok (F64.add x y).

(** [int(x)] for a float. *)
Definition int_of_float (x : float) : result Z :=
  match x with
  | S754_nan => Raise ValueError
  | S754_infinity _ => Raise OverflowError
  | _ => Ok (F64.trunc x)
  end.

(** [round(x, 1)]: the float nearest to the one-decimal rendering of [x]. *)
Definition round1 (x : float) : float :=
  match x with
  | S754_finite s _ _ =>
      let n := F64.tenths x in
      if n =? 0 then S754_zero s else F64.div_Z (if s then - n else n) 10
  | _ => x
  end.

(** [numpy.rint]: the nearest whole number, ties to even, as a float. *)
Definition rint (x : float) : float :=
  match x with
  | S754_finite s _ _ =>
      let '(n, d) := F64.num_den x in
      let k := F64.rne_div (Z.abs n) d in
      if k =? 0 then S754_zero s else F64.of_Z (if s then - k else k)
  | _ => x
  end.

(** [ndarray.round(1)] on one float64 element: [rint(x * 10) / 10]. *)
Definition np_round1 (x : float) : float :=
  F64.div (rint (F64.mul x (F64.of_Z 10))) (F64.of_Z 10).

(** [(counts.values / total * 100).round(1)] on one element of the int64
    array [counts.values]: the count and the total are converted to
    float64 and every operation is a float64 operation. *)
Definition percent (count total : Z) : float :=
  np_round1 (F64.mul (F64.div (F64.of_Z count) (F64.of_Z total)) (F64.of_Z 100)).

(** [format(x, '.1f')] *)
Definition format_1f (x : float) : string :=
  match x with
  | S754_nan => "nan"
  | S754_infinity s => if s then "-inf" else "inf"
  | _ =>
      let n := F64.tenths x in
      (if F64.sign x then "-" else EmptyString)
        ++ string_of_Z (n / 10) ++ "." ++ string_of_Z (n mod 10)
  end%string.

(** [a == b]; never raises. *)
Fixpoint py_eqb (a b : pyval) : bool :=
  match a, b with
  | VInt x, VInt y => x =? y
  | VInt x, VFloat y | VFloat y, VInt x =>
      match F64.compare_Z x y with Some Eq => true | _ => false end
  | VFloat x, VFloat y => SFeqb x y
  | VStr s, VStr t => String.eqb s t
  | VTuple l, VTuple m =>
      (fix go (l m : list pyval) : bool :=
         match l, m with
         | [], [] => true
         | x :: l', y :: m' => py_eqb x y && go l' m'
         | _, _ => false
         end) l m
  | _, _ => false
  end.

Definition is_ge (c : option comparison) : bool :=
  match c with Some (Gt | Eq) => true | _ => false end.

Definition is_le (c : option comparison) : bool :=
  match c with Some (Lt | Eq) => true | _ => false end.

(** [a >= b]: numbers by value, texts and tuples lexicographically. *)
Fixpoint py_ge (a b : pyval) : result bool :=
  match a, b with
  | VInt x, VInt y => Ok (x >=? y)
  | VInt x, VFloat y => Ok (is_ge (F64.compare_Z x y))
  | VFloat x, VInt y => Ok (is_le (F64.compare_Z y x))
  | VFloat x, VFloat y => Ok (is_ge (F64.compare x y))
  | VStr s, VStr t => Ok (negb (String.ltb s t))
  | VTuple l, VTuple m =>
      (fix go (l m : list pyval) : result bool :=
         match l, m with
         | x :: l', y :: m' => if py_eqb x y then go l' m' else py_ge x y
         | _, [] => Ok true
         | [], _ :: _ => Ok false
         end) l m
  | _, _ => Raise TypeError
  end.

(** ** Library functions the code calls and whose text is not in the
    repository: the renderings of [str], the parsers behind [float(s)],
    [int(s)] and [datetime.strptime].  No property below depends on what
    they return. *)

Class Runtime := {
  float_str : float → string;                 (* str(x), x a float *)
  tuple_str : list pyval → string;            (* str(t), t a tuple *)
  ifd_str : list (Z * pyval) → string;        (* str(d), d a directory *)
  float_of_str : string → result float;       (* float(s) *)
  int_of_str : string → result Z;             (* int(s) *)
  strptime : string → result datetime         (* strptime(s, '%Y:%m:%d %H:%M:%S') *)
}.

(** ** Texts (characters are code points below 256) *)

Definition is_space (c : ascii) : bool :=
  let n := nat_of_ascii c in
  ((9 <=? n) && (n <=? 13) || (28 <=? n) && (n <=? 32)
   || (n =? 133) || (n =? 160))%nat.

Fixpoint lstrip (s : string) : string :=
  match s with
  | String c s' => if is_space c then lstrip s' else s
  | EmptyString => EmptyString
  end.

Fixpoint rstrip (s : string) : string :=
  match s with
  | EmptyString => EmptyString
  | String c s' =>
      match rstrip s' with
      | EmptyString => if is_space c then EmptyString else String c EmptyString
      | t => String c t
      end
  end.

(** [s.strip()] *)
Definition strip (s : string) : string := lstrip (rstrip s).

Definition lower_char (c : ascii) : ascii :=
  let n := nat_of_ascii c in
  if ((65 <=? n) && (n <=? 90)
      || (192 <=? n) && (n <=? 222) && negb (n =? 215))%nat
  then ascii_of_nat (n + 32) else c.

(** [s.lower()] *)
Fixpoint lower (s : string) : string :=
  match s with
  | EmptyString => EmptyString
  | String c s' => String (lower_char c) (lower s')
  end.

(** The parts of [s] before and after the last occurrence of [sep]. *)
Fixpoint rpartition (sep : ascii) (s : string) : option (string * string) :=
  match s with
  | EmptyString => None
  | String c s' =>
      match rpartition sep s' with
      | Some (a, b) => Some (String c a, b)
      | None => if Ascii.eqb c sep then Some (EmptyString, s') else None
      end
  end.

(** [Path.name] and [Path.suffix] of a POSIX path. *)
Definition path_name (p : string) : string :=
  match rpartition "/" p with
  | Some (_, n) => n
  | None => p
  end.

Definition path_suffix (p : string) : string :=
  match rpartition "." (path_name p) with
  | Some (String _ _, String c r) => String "." (String c r)
  | _ => EmptyString
  end.

(** ** Tag-name tables of the decoder

    [TAGS] lists the entries of [PIL.ExifTags.TAGS] for the eleven names
    [extract_exif] tests; every other id resolves to a name, or to the id
    itself, that matches none of its branches.  [GPSTAGS] is the decoder's
    table of GPS tag names. *)

Definition TAGS : list (Z * string) :=
  [(271, "Make"); (272, "Model"); (306, "DateTime");
   (33434, "ExposureTime"); (33437, "FNumber"); (34853, "GPSInfo");
   (34855, "ISOSpeedRatings"); (36867, "DateTimeOriginal");
   (37385, "Flash"); (37386, "FocalLength"); (42036, "LensModel")]%string.

Definition GPSTAGS : list (Z * string) :=
  [(0, "GPSVersionID"); (1, "GPSLatitudeRef"); (2, "GPSLatitude");
   (3, "GPSLongitudeRef"); (4, "GPSLongitude"); (5, "GPSAltitudeRef");
   (6, "GPSAltitude"); (7, "GPSTimeStamp"); (8, "GPSSatellites");
   (9, "GPSStatus"); (10, "GPSMeasureMode"); (11, "GPSDOP");
   (12, "GPSSpeedRef"); (13, "GPSSpeed"); (14, "GPSTrackRef");
   (15, "GPSTrack"); (16, "GPSImgDirectionRef"); (17, "GPSImgDirection");
   (18, "GPSMapDatum"); (19, "GPSDestLatitudeRef"); (20, "GPSDestLatitude");
   (21, "GPSDestLongitudeRef"); (22, "GPSDestLongitude");
   (23, "GPSDestBearingRef"); (24, "GPSDestBearing");
   (25, "GPSDestDistanceRef"); (26, "GPSDestDistance");
   (27, "GPSProcessingMethod"); (28, "GPSAreaInformation");
   (29, "GPSDateStamp"); (30, "GPSDifferential");
   (31, "GPSHPositioningError")]%string.

Fixpoint table_get (table : list (Z * string)) (tag_id : Z) : option string :=
  match table with
  | [] => None
  | (k, n) :: rest => if k =? tag_id then Some n else table_get rest tag_id
  end.

(** A key of a name-resolved mapping: [table.get(tag_id, tag_id)]. *)
Definition tag_key : Type := string + Z.

Definition get_name (table : list (Z * string)) (tag_id : Z) : tag_key :=
  match table_get table tag_id with
  | Some n => inl n
  | None => inr tag_id
  end.

Definition is_name (k : tag_key) (n : string) : bool :=
  match k with
  | inl m => String.eqb m n
  | inr _ => false
  end.

(** ** Fields of a photo record (the values of [parsed_data]) *)

Inductive fval :=
| FNone
| FBool (b : bool)
| FInt (z : Z)
| FFloat (x : float)
| FStr (s : string)
| FTime (t : datetime).

Abbreviation record := (gmap string fval).

Definition of_option {A} (f : A → fval) (o : option A) : fval :=
  match o with
  | Some a => f a
  | None => FNone
  end.

(** ** ExifAnalyzer: the tag conversions *)

Module ExifAnalyzer.
Section WithRuntime.
Context `{Runtime}.

(** [str(value)] *)
Definition py_str (value : tagval) : string :=
  match value with
  | Plain (VStr s) => s
  | Plain (VInt z) => string_of_Z z
  | Plain (VFloat x) => float_str x
  | Plain (VTuple t) => tuple_str t
  | Ifd d => ifd_str d
  end.

(** [float(value)] *)
Definition py_float (value : tagval) : result float :=
  match value with
  | Plain (VInt z) => float_of_int z
  | Plain (VFloat x) => Ok x
  | Plain (VStr s) => float_of_str s
  | _ => Raise TypeError
  end.

(** [int(value)] *)
Definition py_int (value : tagval) : result Z :=
  match value with
  | Plain (VInt z) => Ok z
  | Plain (VFloat x) => int_of_float x
  | Plain (VStr s) => int_of_str s
  | _ => Raise TypeError
  end.

(** [t[i]] on a tuple *)
Definition item (t : list pyval) (i : nat) : result pyval :=
  match t !! i with
  | Some v => Ok v
  | None => Raise IndexError
  end.

(** [a, b = t] and [a, b, c = value] *)
Definition unpack2 (t : list pyval) : result (pyval * pyval) :=
  match t with
  | [a; b] => Ok (a, b)
  | _ => Raise ValueError
  end.

Definition chars (s : string) : list pyval :=
  (λ c, VStr (String c EmptyString)) <$> list_ascii_of_string s.

Definition unpack3 (value : pyval) : result (pyval * pyval * pyval) :=
  match value with
  | VTuple [a; b; c] => Ok (a, b, c)
  | VTuple _ => Raise ValueError
  | VStr s =>
      match chars s with
      | [a; b; c] => Ok (a, b, c)
      | _ => Raise ValueError
      end
  | _ => Raise TypeError
  end.

Definition _parse_rational (value : tagval) : result (option float) :=
  except_None
    match value with
    | Plain (VTuple t) =>
        a ← item t 0; b ← item t 1;
        q ← py_truediv a b;
        Ok (round1 q)
    | _ => py_float value
    end.

Definition _parse_shutter_speed (value : tagval) : result (option string) :=
  except_None
    match value with
    | Plain (VTuple t) =>
        '(numerator, denominator) ← unpack2 t;
        ge ← py_ge numerator denominator;
        if ge : bool then
          q ← py_truediv numerator denominator;
          Ok (format_1f q ++ "s")%string
        else
          q ← py_truediv denominator numerator;
          n ← int_of_float q;
          Ok ("1/" ++ string_of_Z n)%string
    | _ => Ok (py_str value)
    end.

Definition _parse_datetime (value : tagval) : result (option datetime) :=
  except_None (strptime (py_str value)).

Definition _convert_to_degrees (value : pyval) : result float :=
  '(d, m, s) ← unpack3 value;
  mm ← py_div_float m (F64.of_Z 60);
  dm ← py_add_float d mm;
  ss ← py_div_float s (F64.of_Z 3600);
  Ok (F64.add dm ss).

(** [gps_data[GPSTAGS.get(tag_id, tag_id)] = value] for every item *)
Definition gps_names (items : list (Z * pyval)) : gmap tag_key pyval :=
  foldl (λ gps_data '(tag_id, value), <[get_name GPSTAGS tag_id := value]> gps_data)
        ∅ items.

(** [gps_data.get(key) == text] *)
Definition ref_is (gps_data : gmap tag_key pyval) (key text : string) : bool :=
  match gps_data !! inl key with
  | Some v => py_eqb v (VStr text)
  | None => false
  end.

Definition _parse_gps (gps_info : tagval) : result (option record) :=
  let body : result (option record) :=
    match gps_info with
    | Ifd items =>
        let gps_data := gps_names items in
        match gps_data !! inl "GPSLatitude"%string,
              gps_data !! inl "GPSLongitude"%string with
        | Some la, Some lo =>
            lat ← _convert_to_degrees la;
            lon ← _convert_to_degrees lo;
            let lat := if ref_is gps_data "GPSLatitudeRef" "S" then F64.opp lat else lat in
            let lon := if ref_is gps_data "GPSLongitudeRef" "W" then F64.opp lon else lon in
            Ok (Some (<["latitude"%string := FFloat lat]>
                        {["longitude"%string := FFloat lon]}))
        | _, _ => Ok None
        end
    | Plain _ => Raise AttributeError
    end in
  match body with
  | Ok r => Ok r
  | Raise _ => Ok None
  end.

(** [bool(value & 1)] *)
Definition flash_bit (value : tagval) : result bool :=
  match value with
  | Plain (VInt z) => Ok (negb (Z.land z 1 =? 0))
  | _ => Raise TypeError
  end.

(** ** ExifAnalyzer: files *)

(** What [Image.open] gives: the tag mapping of [_getexif()] as the sequence
    of its items ([None] when the file has no metadata; the call raises for
    a format without that method) and [image.size]. *)
Record Image := {
  img_getexif : result (option (list (Z * tagval)));
  img_size : Z * Z
}.

(** The file system as the scan sees it.  Listing a folder gives the paths
    below it and does not raise. *)
Record FileSystem := {
  fs_exists : string → bool;            (* Path(p).exists() *)
  fs_rglob : string → list string;      (* Path(p).rglob('*') *)
  fs_glob : string → list string;       (* Path(p).glob('*') *)
  fs_st_size : string → result Z;       (* Path(p).stat().st_size *)
  fs_open : string → result Image       (* Image.open(p) *)
}.

(** What the scan writes to the console. *)
Inductive event :=
| Found (n : nat)                         (* "Found n photos to analyze..." *)
| Extracting (path : string)              (* progress tick for one file *)
| ErrorProcessing (name : string) (e : exn).

Definition SUPPORTED_FORMATS : list string :=
  [".jpg"; ".jpeg"; ".png"; ".tiff"; ".tif"]%string.

(** One turn of [for tag_id, value in exif_data.items()]. *)
Definition handle_tag (parsed_data : record) (tag_id : Z) (value : tagval)
  : result record :=
  let tag_name := get_name TAGS tag_id in
  if is_name tag_name "Make" then
    Ok (<["camera_make"%string := FStr (strip (py_str value))]> parsed_data)
  else if is_name tag_name "Model" then
    Ok (<["camera_model"%string := FStr (strip (py_str value))]> parsed_data)
  else if is_name tag_name "LensModel" then
    Ok (<["lens"%string := FStr (strip (py_str value))]> parsed_data)
  else if is_name tag_name "FocalLength" then
    r ← _parse_rational value;
    Ok (<["focal_length"%string := of_option FFloat r]> parsed_data)
  else if is_name tag_name "FNumber" then
    r ← _parse_rational value;
    Ok (<["aperture"%string := of_option FFloat r]> parsed_data)
  else if is_name tag_name "ExposureTime" then
    r ← _parse_shutter_speed value;
    Ok (<["shutter_speed"%string := of_option FStr r]> parsed_data)
  else if is_name tag_name "ISOSpeedRatings" then
    n ← py_int value;
    Ok (<["iso"%string := FInt n]> parsed_data)
  else if is_name tag_name "DateTime" || is_name tag_name "DateTimeOriginal" then
    r ← _parse_datetime value;
    Ok (<["datetime"%string := of_option FTime r]> parsed_data)
  else if is_name tag_name "Flash" then
    b ← flash_bit value;
    Ok (<["flash_used"%string := FBool b]> parsed_data)
  else if is_name tag_name "GPSInfo" then
    gps_data ← _parse_gps value;
    match gps_data with
    | Some g => if decide (g = ∅) then Ok parsed_data else Ok (g ∪ parsed_data)
    | None => Ok parsed_data
    end
  else Ok parsed_data.

Fixpoint for_tags (items : list (Z * tagval)) (parsed_data : record)
  : result record :=
  match items with
  | [] => Ok parsed_data
  | (tag_id, value) :: rest =>
      parsed_data ← handle_tag parsed_data tag_id value;
      for_tags rest parsed_data
  end.

(** The body of the [try] block of [extract_exif]. *)
Definition extract_exif_body (fs : FileSystem) (image_path : string)
  : result (option record) :=
  image ← fs_open fs image_path;
  exif_data ← img_getexif image;
  match exif_data with
  | None | Some [] => Ok None
  | Some items =>
      st_size ← fs_st_size fs image_path;
      file_size ← int_truediv st_size (1024 * 1024);
      let parsed_data : record :=
        <["file_size"%string := FFloat file_size]>
          (<["filepath"%string := FStr image_path]>
             {["filename"%string := FStr (path_name image_path)]}) in
      parsed_data ← for_tags items parsed_data;
      let '(width, height) := img_size image in
      Ok (Some
            (<["orientation"%string :=
                 FStr (if width <? height then "portrait" else "landscape")]>
               (<["height"%string := FInt height]>
                  (<["width"%string := FInt width]> parsed_data))))
  end.

(** [extract_exif]: the record or [None], and what it prints. *)
Definition extract_exif (fs : FileSystem) (image_path : string)
  : option record * list event :=
  match extract_exif_body fs image_path with
  | Ok r => (r, [])
  | Raise e => (None, [ErrorProcessing (path_name image_path) e])
  end.

Record ExifAnalyzer := { photos_data : list record }.

Definition __init__ : ExifAnalyzer := {| photos_data := [] |}.

Definition image_files (fs : FileSystem) (folder_path : string) (recursive : bool)
  : list string :=
  List.filter (λ f, bool_decide (lower (path_suffix f) ∈ SUPPORTED_FORMATS))
    (if recursive then fs_rglob fs folder_path else fs_glob fs folder_path).

(** The extraction loop: [self.photos_data] and the console after the files
    in [files] have been visited. *)
Fixpoint extract_all (fs : FileSystem) (files : list string)
  (data : list record) (out : list event) : list record * list event :=
  match files with
  | [] => (data, out)
  | img_path :: rest =>
      let '(exif_data, msgs) := extract_exif fs img_path in
      let out := out ++ Extracting img_path :: msgs in
      match exif_data with
      | Some r =>
          if decide (r = ∅) then extract_all fs rest data out
          else extract_all fs rest (data ++ [r]) out
      | None => extract_all fs rest data out
      end
  end.

(** [scan_folder]: what the call returns or raises, the analyzer after the
    call, and the console after the call. *)
Definition scan_folder (fs : FileSystem) (folder_path : string) (recursive : bool)
  (self : ExifAnalyzer) (out : list event)
  : result (list record) * ExifAnalyzer * list event :=
  if negb (fs_exists fs folder_path) then (Raise ValueError, self, out)
  else
    let files := image_files fs folder_path recursive in
    let out := out ++ [Found (length files)] in
    let '(data, out) := extract_all fs files [] out in
    (Ok data, {| photos_data := data |}, out).

End WithRuntime.
End ExifAnalyzer.

(** ** The tabular engine

    A table is the list of its rows; a column exists when some row has the
    key, and a cell is missing ([NaN], [NaT], [None]) when its row lacks the
    key or holds [FNone] or a NaN.  Cells are read at the type the extractor
    gives the column. *)

Definition has_column (c : string) (df : list record) : bool :=
  existsb (λ r, bool_decide (is_Some (r !! c))) df.

(** [df.empty]: no row or no column. *)
Definition empty (df : list record) : bool :=
  forallb (λ r, bool_decide (r = ∅)) df.

Definition cell (c : string) (r : record) : fval := default FNone (r !! c).

Definition is_na (v : fval) : bool :=
  match v with
  | FNone | FFloat S754_nan => true
  | _ => false
  end.

Definition read_str (v : fval) : option string :=
  match v with FStr s => Some s | _ => None end.
Definition read_int (v : fval) : option Z :=
  match v with FInt z => Some z | _ => None end.
Definition read_bool (v : fval) : option bool :=
  match v with FBool b => Some b | _ => None end.
Definition read_time (v : fval) : option datetime :=
  match v with FTime t => Some t | _ => None end.
Definition read_float (v : fval) : option float :=
  match v with
  | FFloat S754_nan => None
  | FFloat x => Some x
  | _ => None
  end.

(** [df[c]] without its missing cells. *)
Definition column {A} (read : fval → option A) (c : string) (df : list record)
  : list A :=
  omap (λ r, read (cell c r)) df.

Section Counting.
Context {K : Type} (eqb : K → K → bool).

Fixpoint count_key (k : K) (l : list K) : Z :=
  match l with
  | [] => 0
  | x :: l' => (if eqb x k then 1 else 0) + count_key k l'
  end.

(** The distinct values, in order of first appearance. *)
Fixpoint uniques (l : list K) : list K :=
  match l with
  | [] => []
  | x :: l' => x :: List.filter (λ y, negb (eqb x y)) (uniques l')
  end.

Definition counts (l : list K) : list (K * Z) :=
  (λ k, (k, count_key k l)) <$> uniques l.

Fixpoint insert_desc (x : K * Z) (l : list (K * Z)) : list (K * Z) :=
  match l with
  | [] => [x]
  | y :: l' => if x.2 <? y.2 then y :: insert_desc x l' else x :: y :: l'
  end.

(** [Series.value_counts()]: one row per distinct present value, the most
    frequent first; equally frequent values keep their order of first
    appearance. *)
Definition value_counts (l : list K) : list (K * Z) :=
  foldr insert_desc [] (counts l).

(** [Series.nunique()] *)
Definition nunique (l : list K) : Z := Z.of_nat (length (uniques l)).

(** [counts.get(k, 0)] *)
Fixpoint get_count (k : K) (t : list (K * Z)) : Z :=
  match t with
  | [] => 0
  | (k', n) :: t' => if eqb k' k then n else get_count k t'
  end.

(** [counts.reindex(order, fill_value=0)] *)
Definition reindex (order : list K) (t : list (K * Z)) : list (K * Z) :=
  (λ k, (k, get_count k t)) <$> order.

Context (leb : K → K → bool).

Fixpoint insert_asc (x : K * Z) (l : list (K * Z)) : list (K * Z) :=
  match l with
  | [] => [x]
  | y :: l' => if leb x.1 y.1 then x :: y :: l' else y :: insert_asc x l'
  end.

(** [counts.sort_index()] *)
Definition sort_index (t : list (K * Z)) : list (K * Z) :=
  foldr insert_asc [] t.

Fixpoint insert_key (x : K) (l : list K) : list K :=
  match l with
  | [] => [x]
  | y :: l' => if leb x y then x :: y :: l' else y :: insert_key x l'
  end.

Definition sorted (l : list K) : list K := foldr insert_key [] l.

(** [Series.min()], [Series.max()]: [None] on a column without values. *)
Definition minimum (l : list K) : option K := head (sorted l).
Definition maximum (l : list K) : option K := last (sorted l).

(** [Series.mode()]: the most frequent values, in ascending order. *)
Definition mode (l : list K) : list K :=
  match value_counts l with
  | [] => []
  | (_, top) :: _ =>
      sorted ((λ kn : K * Z, kn.1) <$> List.filter (λ kn : K * Z, kn.2 =? top) (value_counts l))
  end.
End Counting.

(** Civil calendar: days since 1970-01-01 and the second of the epoch. *)
Definition days_from_civil (y m d : Z) : Z :=
  let y := if m <=? 2 then y - 1 else y in
  let era := y / 400 in
  let yoe := y - era * 400 in
  let doy := (153 * (if 2 <? m then m - 3 else m + 9) + 2) / 5 + d - 1 in
  let doe := yoe * 365 + yoe / 4 - yoe / 100 + doy in
  era * 146097 + doe - 719468.

Definition epoch_seconds (t : datetime) : Z :=
  days_from_civil (dt_year t) (dt_month t) (dt_day t) * 86400
  + dt_hour t * 3600 + dt_minute t * 60 + dt_second t.

Definition day_order : list string :=
  ["Monday"; "Tuesday"; "Wednesday"; "Thursday"; "Friday"; "Saturday"; "Sunday"]%string.

(** [Timestamp.day_name()] *)
Definition day_name (t : datetime) : string :=
  let wd := (days_from_civil (dt_year t) (dt_month t) (dt_day t) + 3) mod 7 in
  default EmptyString (day_order !! Z.to_nat wd).

(** Calendar bucketing of the engine, [df.groupby(pd.Grouper(key='date',
    freq=freq)).size()], whose text is not in the repository: the buckets
    with their labels and sizes, for the dates of the present cells. *)
Class Pandas := {
  grouper_size : string → list datetime → result (list (datetime * Z))
}.

(** Values of the summary report. *)
Inductive rval :=
| RNone
| RInt (z : Z)
| RFloat (x : float)
| RTime (t : option datetime)               (* [None] is [NaT] *)
| RDict (d : list (string * rval)).

(** ** DataProcessor *)

Module DataProcessor.
Section WithPandas.
Context `{Pandas}.

Definition _categorize_time_of_day (hour : option Z) : string :=
  match hour with
  | None => "Unknown"
  | Some hour =>
      if (5 <=? hour)%Z && (hour <? 8)%Z then "Early Morning"
      else if (8 <=? hour)%Z && (hour <? 12)%Z then "Morning"
      else if (12 <=? hour)%Z && (hour <? 17)%Z then "Afternoon"
      else if (17 <=? hour)%Z && (hour <? 20)%Z then "Golden Hour"
      else if (20 <=? hour)%Z && (hour <? 23)%Z then "Evening"
      else "Night"
  end%string.

(** The six columns [process_data] derives from [datetime], on one row. *)
Definition date_columns (r : record) : record :=
  let date := read_time (cell "datetime" r) in
  let hour := dt_hour <$> date in
  <["time_of_day"%string := FStr (_categorize_time_of_day hour)]>
    (<["hour"%string := of_option FInt hour]>
       (<["day_of_week"%string := of_option FStr (day_name <$> date)]>
          (<["month"%string := of_option FInt (dt_month <$> date)]>
             (<["year"%string := of_option FInt (dt_year <$> date)]>
                (<["date"%string := of_option FTime date]> r))))).

Definition process_data (df : list record) : list record :=
  if empty df then df
  else if has_column "datetime" df then date_columns <$> df
  else df.

Record t := { df : list record }.

Definition __init__ (photos_data : list record) : t :=
  {| df := process_data photos_data |}.

Definition len (self : t) : Z := Z.of_nat (length (df self)).

(** [(counts.values / len(self.df) * 100).round(1)], on one count. *)
Definition percentage (self : t) (n : Z) : float := percent n (len self).

Definition usage (c : string) (self : t) : list (string * Z * float) :=
  if negb (has_column c (df self)) then []
  else
    let counts := value_counts String.eqb (column read_str c (df self)) in
    (λ kn : string * Z, (kn.1, kn.2, percentage self kn.2)) <$> counts.

Definition get_camera_usage : t → list (string * Z * float) := usage "camera_model".
Definition get_lens_usage : t → list (string * Z * float) := usage "lens".

Definition get_iso_distribution (self : t) : list (Z * Z) :=
  if negb (has_column "iso" (df self)) then []
  else sort_index Z.leb (value_counts Z.eqb (column read_int "iso" (df self))).

Definition float_distribution (c : string) (self : t) : list (float * Z) :=
  if negb (has_column c (df self)) then []
  else sort_index SFleb (value_counts SFeqb (column read_float c (df self))).

Definition get_aperture_distribution : t → list (float * Z) :=
  float_distribution "aperture".
Definition get_focal_length_distribution : t → list (float * Z) :=
  float_distribution "focal_length".

Definition get_shooting_timeline (self : t) (freq : string)
  : result (list (datetime * Z)) :=
  if negb (has_column "date" (df self)) then Ok []
  else grouper_size freq (column read_time "date" (df self)).

Definition time_order : list string :=
  ["Early Morning"; "Morning"; "Afternoon"; "Golden Hour"; "Evening"; "Night"]%string.

Definition get_time_of_day_distribution (self : t) : list (string * Z) :=
  if negb (has_column "time_of_day" (df self)) then []
  else
    let tod_counts := value_counts String.eqb (column read_str "time_of_day" (df self)) in
    reindex String.eqb time_order tod_counts.

Definition get_day_of_week_distribution (self : t) : list (string * Z) :=
  if negb (has_column "day_of_week" (df self)) then []
  else
    let dow_counts := value_counts String.eqb (column read_str "day_of_week" (df self)) in
    reindex String.eqb day_order dow_counts.

Definition get_orientation_stats (self : t) : list (string * Z) :=
  if negb (has_column "orientation" (df self)) then []
  else
    let orientation_counts :=
      value_counts String.eqb (column read_str "orientation" (df self)) in
    [("portrait", get_count String.eqb "portrait" orientation_counts);
     ("landscape", get_count String.eqb "landscape" orientation_counts)]%string.

Definition get_flash_usage_stats (self : t) : list (string * Z) :=
  if negb (has_column "flash_used" (df self)) then []
  else
    let flash_counts :=
      value_counts Bool.eqb (column read_bool "flash_used" (df self)) in
    [("used", get_count Bool.eqb true flash_counts);
     ("not_used", get_count Bool.eqb false flash_counts)]%string.

(** [self.df[['filename', 'latitude', 'longitude', 'date']].dropna()] *)
Definition get_gps_photos (self : t)
  : result (list (fval * fval * fval * fval)) :=
  if negb (has_column "latitude" (df self))
     || negb (has_column "longitude" (df self)) then Ok []
  else if negb (has_column "filename" (df self))
          || negb (has_column "date" (df self)) then Raise KeyError
  else
    Ok (List.filter
          (λ '(f, la, lo, d),
             negb (is_na f || is_na la || is_na lo || is_na d))
          ((λ r, (cell "filename" r, cell "latitude" r,
                  cell "longitude" r, cell "date" r)) <$> df self)).

Definition time_leb (a b : datetime) : bool :=
  epoch_seconds a <=? epoch_seconds b.

Definition date_range (dates : list datetime) : rval :=
  let earliest := minimum time_leb dates in
  let latest := maximum time_leb dates in
  RDict [("earliest", RTime earliest);
         ("latest", RTime latest);
         ("span_days",
           match earliest, latest with
           | Some a, Some b => RInt ((epoch_seconds b - epoch_seconds a) / 86400)
           | _, _ => RFloat S754_nan
           end)]%string.

(** [int(x)] of a statistic that is [NaN] on a column without values. *)
Definition int_of_stat (o : option Z) : result Z :=
  match o with
  | Some z => Ok z
  | None => Raise ValueError
  end.

Definition sum (l : list Z) : Z := foldr Z.add 0 l.

(** [int(Series.mean())] *)
Definition int_mean (l : list Z) : result Z :=
  match l with
  | [] => Raise ValueError
  | _ => q ← int_truediv (sum l) (Z.of_nat (length l)); int_of_float q
  end.

(** [int(Series.median())] *)
Definition int_median (l : list Z) : result Z :=
  let s := sorted Z.leb l in
  let n := length s in
  if Nat.even n then
    match s !! (n / 2 - 1)%nat, s !! (n / 2)%nat with
    | Some a, Some b => q ← int_truediv (a + b) 2; int_of_float q
    | _, _ => Raise ValueError
    end
  else int_of_stat (s !! (n / 2)%nat).

(** The ISO column holds integers below 2^53, which its float form stores
    exactly. *)
Definition iso_stats (l : list Z) : result rval :=
  mn ← int_of_stat (minimum Z.leb l);
  mx ← int_of_stat (maximum Z.leb l);
  mean ← int_mean l;
  median ← int_median l;
  Ok (RDict [("min", RInt mn); ("max", RInt mx);
             ("mean", RInt mean); ("median", RInt median)]%string).

Definition float_stats (l : list float) : rval :=
  RDict [("min", RFloat (default S754_nan (minimum SFleb l)));
         ("max", RFloat (default S754_nan (maximum SFleb l)));
         ("most_common",
           match mode SFeqb SFleb l with
           | m :: _ => RFloat m
           | [] => RNone
           end)]%string.

Definition get_summary_report (self : t) : result (list (string * rval)) :=
  let d := df self in
  let report :=
    [("total_photos", RInt (len self));
     ("unique_cameras",
       RInt (if has_column "camera_model" d
             then nunique String.eqb (column read_str "camera_model" d) else 0));
     ("unique_lenses",
       RInt (if has_column "lens" d
             then nunique String.eqb (column read_str "lens" d) else 0));
     ("photos_with_gps",
       RInt (if has_column "latitude" d
             then Z.of_nat (length (column read_float "latitude" d)) else 0))]%string in
  let report :=
    if has_column "date" d
    then report ++ [("date_range"%string, date_range (column read_time "date" d))]
    else report in
  report ←
    (if has_column "iso" d
     then s ← iso_stats (column read_int "iso" d);
          Ok (report ++ [("iso_stats"%string, s)])
     else Ok report);
  let report :=
    if has_column "aperture" d
    then report ++ [("aperture_stats"%string,
                     float_stats (column read_float "aperture" d))]
    else report in
  let report :=
    if has_column "focal_length" d
    then report ++ [("focal_length_stats"%string,
                     float_stats (column read_float "focal_length" d))]
    else report in
  Ok report.

End WithPandas.
End DataProcessor.

Import ExifAnalyzer.

(** ** Vocabulary of the properties *)

(** A rational tag as a pair of integers, and a GPS triple of integers. *)
Definition pair (numerator denominator : Z) : tagval :=
  Plain (VTuple [VInt numerator; VInt denominator]).

Definition triple (d m s : Z) : pyval := VTuple [VInt d; VInt m; VInt s].

(** The fields the tag loop sets from a plain tag, and all fields of a
    record. *)
Definition tag_fields : list string :=
  ["camera_make"; "camera_model"; "lens"; "focal_length"; "aperture";
   "shutter_speed"; "iso"; "datetime"; "flash_used"]%string.

Definition record_fields : list string :=
  ["filename"; "filepath"; "file_size"]%string ++ tag_fields
  ++ ["latitude"; "longitude"; "width"; "height"; "orientation"]%string.

(** A record with no other field than those of [extract_exif]. *)
Definition photo_record (r : record) : Prop :=
  ∀ k, is_Some (r !! k) → k ∈ record_fields.

(** Both coordinates or neither. *)
Definition gps_paired (r : record) : Prop :=
  is_Some (r !! "latitude"%string) ↔ is_Some (r !! "longitude"%string).

(** Neither coordinate. *)
Definition no_gps (r : record) : Prop :=
  r !! "latitude"%string = None ∧ r !! "longitude"%string = None.

(** The value of a GPSInfo tag from which no coordinates can be taken: a
    directory without a GPSLatitude or without a GPSLongitude entry. *)
Definition lacks_coordinate (value : tagval) : Prop :=
  match value with
  | Ifd items =>
      gps_names items !! inl "GPSLatitude"%string = None
      ∨ gps_names items !! inl "GPSLongitude"%string = None
  | Plain _ => True
  end.

(** The columns [process_data] adds. *)
Definition derived_names : list string :=
  ["date"; "year"; "month"; "day_of_week"; "hour"; "time_of_day"]%string.

(** The category and the weekday of a record's [datetime]. *)
Definition time_of_day_of (r : record) : string :=
  DataProcessor._categorize_time_of_day
    (dt_hour <$> read_time (cell "datetime" r)).

Definition day_of (r : record) : option string :=
  day_name <$> read_time (cell "datetime" r).

(** The sum of a column of percentages. *)
Definition Qsum (l : list Q) : Q := foldr Qplus 0%Q l.

(** The relative error of one binary64 operation is at most [2^-52]. *)
Definition epsilon : Q := 1 # 4503599627370496.

(** A positive float with a full 53-bit significand and an exponent
    within [B] of zero. *)
Definition normal (B : Z) (x : float) : Prop :=
  ∃ m e, x = S754_finite false m e ∧ 2 ^ 52 <= Z.pos m < 2 ^ 53 ∧ - B <= e <= B.

(** ** The shutter-speed claim of the specification, in its own words *)

(** [round(x)]: the nearest integer, ties to even. *)
Definition py_round (x : float) : Z :=
  let '(n, d) := F64.num_den x in Z.sgn n * F64.rne_div (Z.abs n) d.

(** The rendering of a pair with [numerator < denominator] as the
    specification words it: ["1/{round(denominator/numerator)}"]. *)
Definition spec_slow_shutter (numerator denominator : Z) : result string :=
  q ← int_truediv denominator numerator;
  Ok ("1/" ++ string_of_Z (py_round q))%string.

(** ** Sample inputs *)

(** A runtime whose text parsers reject every text and whose renderings are
    empty; it runs the model on inputs that reach neither. *)
Definition bare_runtime : Runtime := {|
  float_str _ := EmptyString;
  tuple_str _ := EmptyString;
  ifd_str _ := EmptyString;
  float_of_str _ := Raise ValueError;
  int_of_str _ := Raise ValueError;
  strptime _ := Raise ValueError
|}.

Definition camera_a : Image := {|
  img_getexif :=
    Ok (Some [(271, Plain (VStr "Canon "));
              (272, Plain (VStr "EOS 5D"));
              (33434, pair 1 500);
              (33437, pair 28 10);
              (34855, Plain (VInt 100));
              (37385, Plain (VInt 9));
              (34853, Ifd [(1, VStr "N"); (2, triple 40 30 0);
                           (3, VStr "W"); (4, triple 3 15 0)])]);
  img_size := (6000, 4000)
|}.

(** No Model tag, and a GPS directory with a latitude only. *)
Definition camera_b : Image := {|
  img_getexif :=
    Ok (Some [(33437, pair 4 1);
              (34853, Ifd [(1, VStr "S"); (2, triple 12 0 0)])]);
  img_size := (3000, 4000)
|}.

(** A format whose decoder has no [_getexif]. *)
Definition drawing_c : Image := {|
  img_getexif := Raise AttributeError;
  img_size := (10, 10)
|}.

Definition sample_fs : FileSystem := {|
  fs_exists p := String.eqb p "/photos";
  fs_rglob _ :=
    ["/photos/a.jpg"; "/photos/notes.txt"; "/photos/trip/b.JPG";
     "/photos/c.png"; "/photos/broken.tif"]%string;
  fs_glob _ :=
    ["/photos/a.jpg"; "/photos/notes.txt"; "/photos/c.png";
     "/photos/broken.tif"]%string;
  fs_st_size _ := Ok 2097152;
  fs_open p :=
    if String.eqb p "/photos/a.jpg" then Ok camera_a
    else if String.eqb p "/photos/trip/b.JPG" then Ok camera_b
    else if String.eqb p "/photos/c.png" then Ok drawing_c
    else Raise OSError
|}.

(** The records of a recursive scan of the sample folder: the first has a
    camera model, the second has none, and neither has a date. *)
Definition sample_photos : list record :=
  omap (λ f, (@extract_exif bare_runtime sample_fs f).1)
    (image_files sample_fs "/photos" true).

Definition sample_time : datetime := {|
  dt_year := 2023; dt_month := 6; dt_day := 1;
  dt_hour := 6; dt_minute := 0; dt_second := 0
|}.

(** A record with a date, of the shape [extract_exif] builds. *)
Definition dated_photo : record :=
  <["orientation"%string := FStr "landscape"]>
    (<["height"%string := FInt 4000]>
       (<["width"%string := FInt 6000]>
          (<["datetime"%string := FTime sample_time]>
             (<["camera_model"%string := FStr "EOS 5D"]>
                (<["file_size"%string := FFloat (F64.of_Z 2)]>
                   (<["filepath"%string := FStr "/photos/d.jpg"]>
                      {["filename"%string := FStr "d.jpg"]})))))).

(** Eighty records, 23 of one camera model and 57 of another. *)
Definition eighty_photos : list record :=
  replicate 23 (<["camera_model"%string := FStr "X100"]> dated_photo)
  ++ replicate 57 dated_photo.

(** ** Vocabulary of the further properties *)

(** The two tag ids whose value sets [datetime]. *)
Definition is_date_tag (tag_id : Z) : bool :=
  (tag_id =? 306) || (tag_id =? 36867).

(** What the scan prints for one file. *)
Definition file_log `{Runtime} (fs : FileSystem) (f : string) : list event :=
  Extracting f :: (extract_exif fs f).2.

(** The files a console shows progress for, in order. *)
Definition progress (out : list event) : list string :=
  omap (λ e, match e with Extracting f => Some f | _ => None end) out.

(** A file whose ISO tag holds two values, as some cameras write it. *)
Definition two_iso_image : Image := {|
  img_getexif :=
    Ok (Some [(272, Plain (VStr "X100"));
              (34855, Plain (VTuple [VInt 200; VInt 200]))]);
  img_size := (4000, 6000)
|}.

Definition two_iso_fs : FileSystem := {|
  fs_exists _ := true;
  fs_rglob _ := ["/in/e.jpg"]%string;
  fs_glob _ := ["/in/e.jpg"]%string;
  fs_st_size _ := Ok 1048576;
  fs_open _ := Ok two_iso_image
|}.

(** A file with both date tags, the original date first. *)
Definition two_dates : list (Z * tagval) :=
  [(36867, Plain (VStr "2023:06:01 06:00:00"));
   (271, Plain (VStr "Canon"));
   (306, Plain (VStr "2023:07:15 18:30:00"))].

Definition later_time : datetime := {|
  dt_year := 2023; dt_month := 7; dt_day := 15;
  dt_hour := 18; dt_minute := 30; dt_second := 0
|}.

(** A runtime that reads the two dates of the samples and rejects every
    other text. *)
Definition clock_runtime : Runtime := {|
  float_str _ := EmptyString;
  tuple_str _ := EmptyString;
  ifd_str _ := EmptyString;
  float_of_str _ := Raise ValueError;
  int_of_str _ := Raise ValueError;
  strptime s :=
    if String.eqb s "2023:06:01 06:00:00" then Ok sample_time
    else if String.eqb s "2023:07:15 18:30:00" then Ok later_time
    else Raise ValueError
|}.

(** The kind of value each field of a record may hold: a text, a float, an
    integer, a truth value or a time, and for four of the fields no value. *)
Definition field_ok (k : string) (v : fval) : bool :=
  match v with
  | FStr _ =>
      bool_decide (k ∈ ["filename"; "filepath"; "camera_make"; "camera_model";
                        "lens"; "shutter_speed"; "orientation"]%string)
  | FFloat _ =>
      bool_decide (k ∈ ["file_size"; "focal_length"; "aperture"; "latitude";
                        "longitude"]%string)
  | FInt _ => bool_decide (k ∈ ["iso"; "width"; "height"]%string)
  | FBool _ => bool_decide (k = "flash_used"%string)
  | FTime _ => bool_decide (k = "datetime"%string)
  | FNone =>
      bool_decide (k ∈ ["focal_length"; "aperture"; "shutter_speed";
                        "datetime"]%string)
  end.

Definition well_typed (r : record) : Prop :=
  ∀ k v, r !! k = Some v → field_ok k v = true.

(** The number of photos that satisfy a test, and the tests that a field
    reads as a given value and that a field is set. *)
Definition photos_where (test : record → bool) (photos : list record) : Z :=
  Z.of_nat (length (List.filter test photos)).

Definition reads {A} (read : fval → option A) (eqb : A → A → bool)
    (c : string) (k : A) (r : record) : bool :=
  match read (cell c r) with
  | Some x => eqb x k
  | None => false
  end.

Definition text_is : string → string → record → bool := reads read_str String.eqb.
Definition flag_is : string → bool → record → bool := reads read_bool Bool.eqb.

Definition has_field (c : string) (r : record) : bool :=
  bool_decide (is_Some (r !! c)).

(** A row of the GPS table as read off a record, and the records that have
    usable coordinates and a date. *)
Definition gps_row (r : record) : fval * fval * fval * fval :=
  (cell "filename" r, cell "latitude" r, cell "longitude" r, cell "datetime" r).

Definition located_and_dated (r : record) : bool :=
  negb (is_na (cell "latitude" r) || is_na (cell "longitude" r)
        || is_na (cell "datetime" r)).

(** A folder of three photos: the first has coordinates and a date, the
    second a date only, the third coordinates only. *)
Definition tour_1 : Image := {|
  img_getexif :=
    Ok (Some [(306, Plain (VStr "2023:06:01 06:00:00"));
              (34855, Plain (VInt 100));
              (34853, Ifd [(1, VStr "N"); (2, triple 40 30 0);
                           (3, VStr "W"); (4, triple 3 15 0)])]);
  img_size := (6000, 4000)
|}.

Definition tour_2 : Image := {|
  img_getexif :=
    Ok (Some [(36867, Plain (VStr "2023:07:15 18:30:00"));
              (34855, Plain (VInt 400))]);
  img_size := (4000, 6000)
|}.

Definition tour_fs : FileSystem := {|
  fs_exists _ := true;
  fs_rglob _ := ["/tour/1.jpg"; "/tour/2.jpg"; "/tour/3.jpg"]%string;
  fs_glob _ := ["/tour/1.jpg"; "/tour/2.jpg"; "/tour/3.jpg"]%string;
  fs_st_size _ := Ok 1048576;
  fs_open p :=
    if String.eqb p "/tour/1.jpg" then Ok tour_1
    else if String.eqb p "/tour/2.jpg" then Ok tour_2
    else Ok camera_a
|}.

Definition tour_photos : list record :=
  omap (λ f, (@extract_exif clock_runtime tour_fs f).1)
    (image_files tour_fs "/tour" true).

(** The tags the extractor reads. *)
Definition read_tags : list Z :=
  [271; 272; 306; 33434; 33437; 34853; 34855; 36867; 37385; 37386; 42036].

Definition is_read (item : Z * tagval) : bool := bool_decide (item.1 ∈ read_tags).

(** The three fields that hold names. *)
Definition name_fields : list string := ["camera_make"; "camera_model"; "lens"]%string.

Definition trimmed (r : record) : Prop :=
  ∀ k s, k ∈ name_fields → r !! k = Some (FStr s) → strip s = s.

(** Floats that are not negative: zero, the positive finite numbers and
    positive infinity; and their position in the order of the floats. *)
Definition nonnegative (x : float) : bool :=
  match x with
  | S754_zero false | S754_finite false _ _ | S754_infinity false => true
  | _ => false
  end.

Definition rank (x : float) : Z * Z * Z :=
  match x with
  | S754_finite _ m e => (1, e, Z.pos m)
  | S754_infinity _ => (2, 0, 0)
  | _ => (0, 0, 0)
  end.

Definition rank_le (a b : Z * Z * Z) : Prop :=
  a.1.1 < b.1.1
  ∨ (a.1.1 = b.1.1 ∧ (a.1.2 < b.1.2 ∨ (a.1.2 = b.1.2 ∧ a.2 <= b.2))).

(** Equality of floats as values of the model. *)
Definition float_eqb (x y : float) : bool :=
  match x, y with
  | S754_zero s, S754_zero s' => Bool.eqb s s'
  | S754_infinity s, S754_infinity s' => Bool.eqb s s'
  | S754_nan, S754_nan => true
  | S754_finite s m e, S754_finite s' m' e' =>
      Bool.eqb s s' && Pos.eqb m m' && Z.eqb e e'
  | _, _ => false
  end.

(** * Properties *)

(** ** Finite results of the binary64 operations *)

Lemma digits2_pos_size p : digits2_pos p = Pos.size p.
Proof. induction p; simpl; congruence. Qed.

Lemma Zdigits2_nonneg m : 0 <= Zdigits2 m.
Proof. destruct m; simpl; lia. Qed.

Lemma Zdigits2_le m k : 0 <= k -> 0 <= m < 2 ^ k -> Zdigits2 m <= k.
Proof.
  intros Hk [Hm Hlt]. destruct m as [|p|p]; simpl; try lia.
  rewrite digits2_pos_size.
  pose proof (Pos.size_le p) as Hs.
  assert (H2 : 2 ^ Z.pos (Pos.size p) <= 2 * Z.pos p).
  { rewrite <- Pos2Z.inj_pow. change (2 * Z.pos p) with (Z.pos p~0). lia. }
  destruct (Z_lt_le_dec k (Z.pos (Pos.size p))) as [Hc|Hc]; [|lia].
  assert (2 ^ (k + 1) <= 2 ^ Z.pos (Pos.size p)) by (apply Z.pow_le_mono_r; lia).
  rewrite Z.pow_add_r in H by lia. lia.
Qed.

Lemma Zdigits2_gt m : 0 <= m -> m < 2 ^ Zdigits2 m.
Proof.
  intros Hm. destruct m as [|p|p]; simpl; try lia.
  rewrite digits2_pos_size. pose proof (Pos.size_gt p).
  rewrite <- Pos2Z.inj_pow. lia.
Qed.

Lemma shr_1_m mrs : 0 <= shr_m mrs -> shr_m (shr_1 mrs) = shr_m mrs / 2.
Proof.
  destruct mrs as [m r s]. unfold shr_1, shr_m. intros Hm.
  destruct m as [|[p|p|]|p]; try lia; try reflexivity.
  - apply Z.div_unique with 1; lia.
  - apply Z.div_unique with 0; lia.
Qed.

Lemma pow2_xO p : 2 ^ Z.pos p~0 = 2 ^ Z.pos p * 2 ^ Z.pos p.
Proof. rewrite <- Z.pow_add_r by lia. f_equal. lia. Qed.

Lemma pow2_xI p : 2 ^ Z.pos p~1 = 2 * (2 ^ Z.pos p * 2 ^ Z.pos p).
Proof.
  replace (Z.pos p~1) with (1 + (Z.pos p + Z.pos p)) by lia.
  rewrite !Z.pow_add_r by lia. reflexivity.
Qed.

Lemma iter_shr_1_m p : forall mrs, 0 <= shr_m mrs ->
  shr_m (SpecFloat.iter_pos shr_1 p mrs) = shr_m mrs / 2 ^ Z.pos p.
Proof.
  induction p as [p IH|p IH|]; intros mrs Hm; cbn [SpecFloat.iter_pos].
  - assert (H1 : 0 <= shr_m (shr_1 mrs)) by (rewrite shr_1_m by lia; apply Z.div_pos; lia).
    assert (H2 : 0 <= shr_m (SpecFloat.iter_pos shr_1 p (shr_1 mrs))).
    { rewrite IH by lia. apply Z.div_pos; lia. }
    rewrite IH, IH, shr_1_m by lia.
    rewrite !Zdiv_Zdiv by lia. f_equal. rewrite pow2_xI. lia.
  - assert (H2 : 0 <= shr_m (SpecFloat.iter_pos shr_1 p mrs)).
    { rewrite IH by lia. apply Z.div_pos; lia. }
    rewrite IH, IH by lia.
    rewrite !Zdiv_Zdiv by lia. f_equal. rewrite pow2_xO. lia.
  - rewrite shr_1_m by lia. reflexivity.
Qed.

Lemma shr_record_of_loc_m m l : shr_m (shr_record_of_loc m l) = m.
Proof. destruct l as [|[]]; reflexivity. Qed.

Lemma round_nearest_even_bounds m l :
  0 <= m -> m <= round_nearest_even m l <= m + 1.
Proof.
  intros Hm. destruct l as [|[]]; simpl; try lia.
  destruct (Z.even m); lia.
Qed.

(** What [shr_fexp] leaves: mantissa shifted, exponent raised. *)
Lemma shr_fexp_spec m e l mrs e' :
  0 <= m ->
  shr_fexp F64.prec F64.emax m e l = (mrs, e') ->
  let n := Z.max 0 (fexp F64.prec F64.emax (Zdigits2 m + e) - e) in
  shr_m mrs = m / 2 ^ n /\ e' = e + n.
Proof.
  intros Hm. unfold shr_fexp, shr.
  destruct (fexp F64.prec F64.emax (Zdigits2 m + e) - e) as [|p|p] eqn:E;
    intros [= <- <-]; simpl.
  - rewrite shr_record_of_loc_m, Z.div_1_r. lia.
  - rewrite iter_shr_1_m, shr_record_of_loc_m by (rewrite shr_record_of_loc_m; lia).
    rewrite Z.max_r by lia. lia.
  - rewrite shr_record_of_loc_m. rewrite Z.max_l by lia. rewrite Z.div_1_r. lia.
Qed.

Lemma binary_round_aux_finite s m e l :
  0 <= m -> e <= 900 -> Zdigits2 m + e <= 1000 ->
  F64.is_finite (binary_round_aux F64.prec F64.emax s m e l) = true.
Proof.
  intros Hm He Hd. unfold binary_round_aux.
  destruct (shr_fexp F64.prec F64.emax m e l) as [mrs1 e1] eqn:E1.
  apply shr_fexp_spec in E1; [|lia]. cbv zeta in E1. destruct E1 as [Hm1 He1].
  set (m1 := round_nearest_even (shr_m mrs1) (loc_of_shr_record mrs1)).
  destruct (shr_fexp F64.prec F64.emax m1 e1 loc_Exact) as [mrs2 e2] eqn:E2.
  assert (H1 : 0 <= shr_m mrs1) by (rewrite Hm1; apply Z.div_pos; lia).
  pose proof (round_nearest_even_bounds (shr_m mrs1) (loc_of_shr_record mrs1) H1) as Hr.
  fold m1 in Hr.
  apply shr_fexp_spec in E2; [|lia]. cbv zeta in E2. destruct E2 as [Hm2 He2].
  assert (H2 : 0 <= shr_m mrs2) by (rewrite Hm2; apply Z.div_pos; lia).
  destruct (shr_m mrs2) eqn:Em2; try reflexivity; [|lia].
  assert (Hfin : e2 <= F64.emax - F64.prec); [|apply Z.leb_le in Hfin; rewrite Hfin; reflexivity].
  (* bounds *)
  set (n1 := Z.max 0 (fexp F64.prec F64.emax (Zdigits2 m + e) - e)) in *.
  assert (Hd1 : Zdigits2 m1 + e1 <= 1001).
  { assert (Hk : m1 < 2 ^ (Z.max 0 (Zdigits2 m - n1) + 1)).
    { pose proof (Zdigits2_gt m Hm) as Hg. pose proof (Zdigits2_nonneg m).
      assert (shr_m mrs1 < 2 ^ Z.max 0 (Zdigits2 m - n1)).
      { rewrite Hm1. apply Z.div_lt_upper_bound; [lia|].
        rewrite <- Z.pow_add_r by lia.
        eapply Z.lt_le_trans; [exact Hg|]. apply Z.pow_le_mono_r; lia. }
      rewrite Z.pow_add_r by lia. lia. }
    assert (Zdigits2 m1 <= Z.max 0 (Zdigits2 m - n1) + 1) by (apply Zdigits2_le; lia).
    unfold fexp, emin, F64.prec, F64.emax in *. lia. }
  unfold fexp, emin, F64.prec, F64.emax in *. lia.
Qed.

Lemma iter_xO m d : Z.pos (Pos.iter xO m d) = Z.pos m * 2 ^ Z.pos d.
Proof.
  induction d as [|d IH] using Pos.peano_ind.
  - simpl. lia.
  - rewrite Pos.iter_succ, Pos2Z.inj_xO, IH, Pos2Z.inj_succ, Z.pow_succ_r by lia. lia.
Qed.

Lemma div_Z_finite a b :
  b <> 0 -> Z.abs a < 2 ^ 1000 ->
  F64.is_finite (F64.div_Z a b) = true.
Proof.
  intros Hb Ha. unfold F64.div_Z.
  destruct (Z.eq_dec a 0) as [->|Hnz]; [reflexivity|].
  replace (match a with 0 => S754_zero (b <? 0) | _ =>
     let '(q, e, l) := SFdiv_core_binary F64.prec F64.emax (Z.abs a) 0 (Z.abs b) 0 in
     binary_round_aux F64.prec F64.emax (xorb (a <? 0) (b <? 0)) q e l end)
    with (let '(q, e, l) := SFdiv_core_binary F64.prec F64.emax (Z.abs a) 0 (Z.abs b) 0 in
     binary_round_aux F64.prec F64.emax (xorb (a <? 0) (b <? 0)) q e l)
    by (destruct a; [lia|reflexivity..]).
  unfold SFdiv_core_binary.
  set (e' := Z.min (fexp F64.prec F64.emax (Zdigits2 (Z.abs a) + 0 - (Zdigits2 (Z.abs b) + 0))) (0 - 0)).
  set (s := 0 - 0 - e').
  set (m' := match s with Z.pos _ => Z.shiftl (Z.abs a) s | 0 => Z.abs a | Z.neg _ => 0 end).
  assert (He' : e' <= 0) by (unfold e'; lia).
  assert (Hs : s = - e') by (unfold s; lia).
  assert (Hm' : 0 <= m' <= Z.abs a * 2 ^ s).
  { unfold m'. destruct s eqn:Es; try lia.
    - rewrite Z.shiftl_mul_pow2 by lia. lia. }
  pose proof (Z.div_eucl_eq m' (Z.abs b) ltac:(lia)) as Hdiv.
  pose proof (Z.mod_pos_bound m' (Z.abs b) ltac:(lia)) as Hmod.
  unfold Z.modulo in Hmod.
  destruct (Z.div_eucl m' (Z.abs b)) as [q r].
  assert (Hq : 0 <= q <= m') by nia.
  apply binary_round_aux_finite; try lia.
  assert (Zdigits2 q <= 1000 + s); [|lia].
  apply Zdigits2_le; [lia|]. split; [lia|].
  rewrite Z.pow_add_r by lia.
  assert (0 < 2 ^ s) by (apply Z.pow_pos_nonneg; lia). nia.
Qed.

Lemma of_Z_finite a :
  Z.abs a < 2 ^ 1000 -> F64.is_finite (F64.of_Z a) = true.
Proof.
  intros Ha. unfold F64.of_Z, binary_normalize.
  assert (Hp : forall s p, Z.pos p < 2 ^ 1000 ->
            F64.is_finite (binary_round F64.prec F64.emax s p 0) = true).
  { intros s p Hlt. unfold binary_round, shl_align.
    set (ex' := fexp F64.prec F64.emax (Z.pos (digits2_pos p) + 0)).
    assert (Hdp : Zdigits2 (Z.pos p) <= 1000) by (apply Zdigits2_le; lia).
    simpl in Hdp.
    destruct (ex' - 0) as [|d|d] eqn:Ed.
    - apply binary_round_aux_finite; simpl; lia.
    - apply binary_round_aux_finite; simpl; lia.
    - apply binary_round_aux_finite; try lia.
      assert (Zdigits2 (Z.pos (Pos.iter xO p d)) <= 1000 + Z.pos d); [|lia].
      apply Zdigits2_le; [lia|]. rewrite iter_xO. split; [lia|].
      rewrite Z.pow_add_r by lia.
      assert (0 < 2 ^ Z.pos d) by (apply Z.pow_pos_nonneg; lia). nia. }
  destruct a; [reflexivity|apply Hp; lia|apply Hp; lia].
Qed.

Lemma Zdigits2_lower m : 0 < m -> 2 ^ (Zdigits2 m - 1) <= m.
Proof.
  intros Hm. destruct m as [|p|p]; try lia. simpl.
  rewrite digits2_pos_size. pose proof (Pos.size_le p) as Hs.
  assert (H2 : 2 ^ Z.pos (Pos.size p) <= 2 * Z.pos p).
  { rewrite <- Pos2Z.inj_pow. change (2 * Z.pos p) with (Z.pos p~0). lia. }
  replace (Z.pos (Pos.size p)) with (1 + (Z.pos (Pos.size p) - 1)) in H2 by lia.
  rewrite Z.pow_add_r in H2 by lia. lia.
Qed.

Lemma Zdigits2_ge m k : 0 <= k -> 2 ^ k <= m -> k + 1 <= Zdigits2 m.
Proof.
  intros Hk Hm.
  assert (0 < 2 ^ k) by (apply Z.pow_pos_nonneg; lia).
  pose proof (Zdigits2_gt m ltac:(lia)) as Hg.
  pose proof (Zdigits2_nonneg m).
  destruct (Z_lt_le_dec (Zdigits2 m) (k + 1)) as [Hc|Hc]; [|lia].
  assert (2 ^ Zdigits2 m <= 2 ^ k) by (apply Z.pow_le_mono_r; lia). lia.
Qed.

Lemma div_after_rounding A B T m1 mr :
  0 <= A -> 0 < B -> B < T ->
  m1 = A * T / B -> m1 <= mr <= m1 + 1 ->
  mr / T = A / B.
Proof.
  intros HA HB HT Hm1 Hmr.
  pose proof (Z.div_mod A B ltac:(lia)) as HdA.
  pose proof (Z.mod_pos_bound A B HB) as HrA.
  pose proof (Z.div_mod (A * T) B ltac:(lia)) as HdT.
  pose proof (Z.mod_pos_bound (A * T) B HB) as HrT.
  rewrite <- Hm1 in HdT.
  generalize dependent (A mod B). generalize dependent ((A * T) mod B).
  generalize dependent (A / B). intros k r1 HdT HrT r0 HdA HrA.
  assert (Hlo : k * T <= m1) by nia.
  assert (Hhi : m1 + 1 < (k + 1) * T) by nia.
  symmetry. apply Z.div_unique with (mr - k * T); lia.
Qed.

Lemma trunc_finite s m e :
  e <= 0 ->
  F64.trunc (S754_finite s m e)
  = if s then - (Z.pos m / 2 ^ (- e)) else Z.pos m / 2 ^ (- e).
Proof.
  intros He. unfold F64.trunc, F64.num_den.
  assert (Hp : 0 < 2 ^ (- e)) by (apply Z.pow_pos_nonneg; lia).
  destruct (Z.leb_spec 0 e) as [H0|H0].
  - assert (e = 0) as -> by lia. cbn [Z.opp Z.pow Z.pow_pos Pos.iter Z.mul Pos.mul].
    rewrite !Z.quot_1_r, Z.div_1_r. destruct s; lia.
  - destruct s.
    + change (Z.neg m) with (- Z.pos m). rewrite Z.quot_opp_l by lia.
      rewrite Z.quot_div_nonneg by lia. reflexivity.
    + rewrite Z.quot_div_nonneg by lia. reflexivity.
Qed.

Lemma trunc_round_div s A B :
  0 < A < 2 ^ 52 -> 0 < B < 2 ^ 52 ->
  F64.trunc
    (let '(q, e, l) := SFdiv_core_binary F64.prec F64.emax A 0 B 0 in
     binary_round_aux F64.prec F64.emax s q e l)
  = if s then - (A / B) else A / B.
Proof.
  intros HA HB. unfold SFdiv_core_binary.
  set (d1 := Zdigits2 A). set (d2 := Zdigits2 B).
  assert (Hd1 : 1 <= d1 <= 52).
  { split; [apply (Zdigits2_ge A 0); simpl; lia|apply Zdigits2_le; lia]. }
  assert (Hd2 : 1 <= d2 <= 52).
  { split; [apply (Zdigits2_ge B 0); simpl; lia|apply Zdigits2_le; lia]. }
  pose proof (Zdigits2_lower A ltac:(lia)) as HAlo. fold d1 in HAlo.
  pose proof (Zdigits2_gt A ltac:(lia)) as HAhi. fold d1 in HAhi.
  pose proof (Zdigits2_lower B ltac:(lia)) as HBlo. fold d2 in HBlo.
  pose proof (Zdigits2_gt B ltac:(lia)) as HBhi. fold d2 in HBhi.
  set (e := Z.min (fexp F64.prec F64.emax (d1 + 0 - (d2 + 0))) (0 - 0)).
  assert (He : e = d1 - d2 - 53).
  { unfold e, fexp, emin, F64.prec, F64.emax. lia. }
  set (sh := 0 - 0 - e).
  assert (Hsh : sh = 53 + d2 - d1) by (unfold sh; lia).
  assert (Hm' : match sh with
                | 0 => A | Z.pos _ => Z.shiftl A sh | Z.neg _ => 0 end
                = A * 2 ^ sh).
  { destruct sh eqn:Es; try lia. now rewrite Z.shiftl_mul_pow2 by lia. }
  rewrite Hm'.
  assert (Hq : (let '(q, r) := Z.div_eucl (A * 2 ^ sh) B in
                (q, e, new_location B r))
               = (A * 2 ^ sh / B, e,
                  new_location B ((A * 2 ^ sh) mod B))).
  { unfold Z.div, Z.modulo. now destruct (Z.div_eucl (A * 2 ^ sh) B). }
  rewrite Hq. clear Hq Hm'.
  set (q := A * 2 ^ sh / B).
  set (l := new_location B ((A * 2 ^ sh) mod B)).
  clearbody l.
  (* size of the quotient *)
  assert (Hpsh : 0 < 2 ^ sh) by (apply Z.pow_pos_nonneg; lia).
  assert (Hq0 : 0 <= q) by (apply Z.div_pos; nia).
  assert (Hq54 : q < 2 ^ 54).
  { apply Z.div_lt_upper_bound; [lia|].
    assert (2 ^ d1 * 2 ^ sh = 2 ^ 54 * 2 ^ (d2 - 1)).
    { rewrite <- !Z.pow_add_r by lia. f_equal. lia. }
    nia. }
  assert (Hdq : Zdigits2 q <= 54) by (apply Zdigits2_le; lia).
  pose proof (Zdigits2_nonneg q) as Hdq0.
  unfold binary_round_aux.
  destruct (shr_fexp F64.prec F64.emax q e l) as [mrs1 e1] eqn:E1.
  apply shr_fexp_spec in E1; [|lia]. cbv zeta in E1. destruct E1 as [Hm1 He1].
  set (n1 := Z.max 0 (fexp F64.prec F64.emax (Zdigits2 q + e) - e)) in *.
  assert (Hn1 : n1 = Z.max 0 (Zdigits2 q - 53)).
  { unfold n1, fexp, emin, F64.prec, F64.emax. lia. }
  set (mr := round_nearest_even (shr_m mrs1) (loc_of_shr_record mrs1)).
  assert (H1 : 0 <= shr_m mrs1) by (rewrite Hm1; apply Z.div_pos; lia).
  pose proof (round_nearest_even_bounds (shr_m mrs1) (loc_of_shr_record mrs1) H1) as Hr.
  fold mr in Hr.
  assert (Hm1lt : shr_m mrs1 < 2 ^ 53).
  { rewrite Hm1. destruct (Z.max_spec 0 (Zdigits2 q - 53)) as [[Hc Hmx]|[Hc Hmx]].
    - rewrite Hn1, Hmx.
      pose proof (Zdigits2_gt q Hq0) as Hg.
      assert (Zdigits2 q = 54) as Hd54 by lia. rewrite Hd54 in *.
      change (54 - 53) with 1. apply Z.div_lt_upper_bound; [lia|].
      change (2 ^ 1 * 2 ^ 53) with (2 ^ 54). lia.
    - rewrite Hn1, Hmx. rewrite Z.div_1_r.
      pose proof (Zdigits2_gt q Hq0) as Hg.
      assert (2 ^ Zdigits2 q <= 2 ^ 53) by (apply Z.pow_le_mono_r; lia). lia. }
  assert (Hdr : Zdigits2 mr <= 54).
  { apply Zdigits2_le; [lia|]. change (2 ^ 54) with (2 * 2 ^ 53). lia. }
  pose proof (Zdigits2_nonneg mr) as Hdr0.
  destruct (shr_fexp F64.prec F64.emax mr e1 loc_Exact) as [mrs2 e2] eqn:E2.
  apply shr_fexp_spec in E2; [|lia]. cbv zeta in E2. destruct E2 as [Hm2 He2].
  set (n2 := Z.max 0 (fexp F64.prec F64.emax (Zdigits2 mr + e1) - e1)) in *.
  assert (Hn2 : n2 = Z.max 0 (Zdigits2 mr - 53)).
  { unfold n2, fexp, emin, F64.prec, F64.emax. lia. }
  assert (Hn12 : 0 <= n1 <= 1 /\ 0 <= n2 <= 1) by lia.
  (* the truncated value *)
  assert (Hk : shr_m mrs2 / 2 ^ (- e2) = A / B).
  { rewrite Hm2. rewrite Zdiv_Zdiv by (try apply Z.pow_nonneg; lia).
    rewrite <- Z.pow_add_r by lia.
    replace (n2 + - e2) with (sh - n1) by lia.
    apply div_after_rounding with (shr_m mrs1); try lia.
    - assert (2 ^ d2 <= 2 ^ (sh - n1)) by (apply Z.pow_le_mono_r; lia). lia.
    - rewrite Hm1. unfold q. rewrite Zdiv_Zdiv by lia.
      replace (2 ^ sh) with (2 ^ (sh - n1) * 2 ^ n1)
        by (rewrite <- Z.pow_add_r by lia; f_equal; lia).
      rewrite Z.mul_assoc.
      assert (0 < 2 ^ n1) by (apply Z.pow_pos_nonneg; lia).
      now rewrite Z.div_mul_cancel_r by lia. }
  assert (H2 : 0 <= shr_m mrs2) by (rewrite Hm2; apply Z.div_pos; lia).
  destruct (shr_m mrs2) as [|m2|m2] eqn:Em2; [|  |lia].
  - rewrite Z.div_0_l in Hk by (apply Z.pow_nonzero; lia).
    rewrite <- Hk. now destruct s.
  - assert (Hfin : (e2 <=? F64.emax - F64.prec) = true)
      by (apply Z.leb_le; unfold F64.emax, F64.prec; lia).
    rewrite Hfin, trunc_finite by lia. now rewrite Hk.
Qed.

(** Within 52 bits, cutting the float quotient of two integers to its
    integer part gives the integer quotient. *)
Lemma trunc_div_Z a b :
  b <> 0 -> Z.abs a < 2 ^ 52 -> Z.abs b < 2 ^ 52 ->
  F64.trunc (F64.div_Z a b) = Z.quot a b.
Proof.
  intros Hb Ha Hbb. unfold F64.div_Z.
  destruct (Z.eq_dec a 0) as [->|Hnz]; [now rewrite Z.quot_0_l|].
  replace (match a with 0 => S754_zero (b <? 0) | _ =>
     let '(q, e, l) := SFdiv_core_binary F64.prec F64.emax (Z.abs a) 0 (Z.abs b) 0 in
     binary_round_aux F64.prec F64.emax (xorb (a <? 0) (b <? 0)) q e l end)
    with (let '(q, e, l) := SFdiv_core_binary F64.prec F64.emax (Z.abs a) 0 (Z.abs b) 0 in
     binary_round_aux F64.prec F64.emax (xorb (a <? 0) (b <? 0)) q e l)
    by (destruct a; [lia|reflexivity..]).
  rewrite trunc_round_div by lia.
  rewrite (Z.quot_div a b Hb).
  destruct (Z.ltb_spec a 0), (Z.ltb_spec b 0); cbn [xorb];
    rewrite ?Z.sgn_neg, ?Z.sgn_pos by lia; lia.
Qed.

Lemma int_truediv_ok a b :
  b <> 0 -> Z.abs a < 2 ^ 1000 -> int_truediv a b = Ok (F64.div_Z a b).
Proof.
  intros Hb Ha. unfold int_truediv.
  destruct (Z.eqb_spec b 0) as [|_]; [lia|].
  now rewrite div_Z_finite.
Qed.

Lemma int_truediv_zero a : int_truediv a 0 = Raise ZeroDivisionError.
Proof. reflexivity. Qed.

Lemma float_of_int_ok a :
  Z.abs a < 2 ^ 1000 -> float_of_int a = Ok (F64.of_Z a).
Proof. intros Ha. unfold float_of_int. now rewrite of_Z_finite. Qed.

Lemma int_of_float_finite x :
  F64.is_finite x = true -> int_of_float x = Ok (F64.trunc x).
Proof. now destruct x. Qed.

Lemma except_None_total {A} (body : result A) : ∃ r, except_None body = Ok r.
Proof. destruct body; simpl; eauto. Qed.

(** ** The value a binary64 operation returns *)

Lemma shr_fexp_noshift m e l :
  fexp F64.prec F64.emax (Zdigits2 m + e) - e <= 0 →
  shr_fexp F64.prec F64.emax m e l = (shr_record_of_loc m l, e).
Proof.
  intros Hn. unfold shr_fexp, shr.
  destruct (fexp F64.prec F64.emax (Zdigits2 m + e) - e); [reflexivity|lia|reflexivity].
Qed.

Lemma Zdigits2_53 m : 2 ^ 52 <= m < 2 ^ 53 → Zdigits2 m = 53.
Proof.
  intros [Hlo Hhi].
  pose proof (Zdigits2_ge m 52 ltac:(lia) Hlo).
  pose proof (Zdigits2_le m 53 ltac:(lia) ltac:(lia)). lia.
Qed.

(** A mantissa of exactly 53 bits is kept as it is. *)
Lemma round_aux_exact s m e :
  2 ^ 52 <= m < 2 ^ 53 → -1000 <= e <= 900 →
  binary_round_aux F64.prec F64.emax s m e loc_Exact
  = S754_finite s (Z.to_pos m) e.
Proof.
  intros Hm He. unfold binary_round_aux.
  assert (Hn : fexp F64.prec F64.emax (Zdigits2 m + e) - e <= 0).
  { rewrite (Zdigits2_53 m Hm). unfold fexp, emin, F64.prec, F64.emax. lia. }
  rewrite (shr_fexp_noshift m e loc_Exact Hn).
  cbn [shr_record_of_loc shr_m loc_of_shr_record round_nearest_even].
  rewrite (shr_fexp_noshift m e loc_Exact Hn). cbn [shr_record_of_loc shr_m].
  destruct m as [|p|p]; try lia.
  assert (Hfin : (e <=? F64.emax - F64.prec) = true)
    by (apply Z.leb_le; unfold F64.emax, F64.prec; lia).
  now rewrite Hfin.
Qed.

(** A mantissa of at least 53 bits is cut to 53 bits: the result is the
    multiple of the unit in the last place just below or just above. *)
Lemma round_aux_normal s m e l :
  2 ^ 52 <= m → -1000 <= e → Zdigits2 m + e <= 900 →
  let n := Zdigits2 m - 53 in
  ∃ m2 e2 mr,
    binary_round_aux F64.prec F64.emax s m e l = S754_finite s m2 e2
    ∧ 2 ^ 52 <= Z.pos m2 < 2 ^ 53
    ∧ e + n <= e2 <= e + n + 1
    ∧ Z.pos m2 * 2 ^ (e2 - e - n) = mr
    ∧ m / 2 ^ n <= mr <= m / 2 ^ n + 1
    ∧ 0 <= n ∧ 2 ^ n * 2 ^ 52 <= m.
Proof.
  intros Hm He Hd. cbv zeta.
  set (d := Zdigits2 m) in *.
  assert (Hd53 : 53 <= d) by (apply (Zdigits2_ge m 52); lia).
  pose proof (Zdigits2_lower m ltac:(lia)) as Hlo. fold d in Hlo.
  pose proof (Zdigits2_gt m ltac:(lia)) as Hhi. fold d in Hhi.
  set (n := d - 53).
  assert (Hpn : 0 < 2 ^ n) by (apply Z.pow_pos_nonneg; lia).
  assert (Hlo' : 2 ^ n * 2 ^ 52 <= m).
  { rewrite <- Z.pow_add_r by lia. replace (n + 52) with (d - 1) by lia. lia. }
  assert (Hhi' : m < 2 ^ n * 2 ^ 53).
  { rewrite <- Z.pow_add_r by lia. replace (n + 53) with d by lia. lia. }
  unfold binary_round_aux.
  destruct (shr_fexp F64.prec F64.emax m e l) as [mrs1 e1] eqn:E1.
  apply shr_fexp_spec in E1; [|lia]. cbv zeta in E1. destruct E1 as [Hm1 He1].
  fold d in Hm1, He1.
  assert (Hn1 : Z.max 0 (fexp F64.prec F64.emax (d + e) - e) = n).
  { unfold n, fexp, emin, F64.prec, F64.emax. lia. }
  rewrite Hn1 in Hm1, He1.
  set (m1 := shr_m mrs1) in *.
  assert (Hm1r : 2 ^ 52 <= m1 < 2 ^ 53).
  { rewrite Hm1. split.
    - apply Z.div_le_lower_bound; lia.
    - apply Z.div_lt_upper_bound; lia. }
  set (mr := round_nearest_even m1 (loc_of_shr_record mrs1)).
  pose proof (round_nearest_even_bounds m1 (loc_of_shr_record mrs1) ltac:(lia)) as Hr.
  fold mr in Hr.
  destruct (shr_fexp F64.prec F64.emax mr e1 loc_Exact) as [mrs2 e2] eqn:E2.
  destruct (Z_lt_le_dec mr (2 ^ 53)) as [Hlt|Hge].
  - (* no carry *)
    assert (Hn2 : fexp F64.prec F64.emax (Zdigits2 mr + e1) - e1 <= 0).
    { rewrite (Zdigits2_53 mr) by lia. unfold fexp, emin, F64.prec, F64.emax. lia. }
    rewrite (shr_fexp_noshift mr e1 loc_Exact Hn2) in E2.
    injection E2 as <- <-. cbn [shr_record_of_loc shr_m].
    destruct mr as [|p|p] eqn:Emr; try lia.
    assert (Hfin : (e1 <=? F64.emax - F64.prec) = true)
      by (apply Z.leb_le; unfold F64.emax, F64.prec; lia).
    rewrite Hfin. exists p, e1, (Z.pos p).
    split; [reflexivity|]. split; [lia|]. split; [lia|].
    split; [replace (e1 - e - n) with 0 by lia; lia|].
    split; [rewrite <- Hm1; lia|]. split; [lia|exact Hlo'].
  - (* the rounding carried into a 54th bit *)
    assert (Emr : mr = 2 ^ 53) by lia.
    apply shr_fexp_spec in E2; [|lia]. cbv zeta in E2. destruct E2 as [Hm2 He2].
    assert (Hd54 : Zdigits2 mr = 54).
    { rewrite Emr. reflexivity. }
    rewrite Hd54 in Hm2, He2.
    assert (Hn2 : Z.max 0 (fexp F64.prec F64.emax (54 + e1) - e1) = 1).
    { unfold fexp, emin, F64.prec, F64.emax. lia. }
    rewrite Hn2 in Hm2, He2. rewrite Emr in Hm2.
    change (2 ^ 53 / 2 ^ 1) with (2 ^ 52) in Hm2.
    rewrite Hm2. change (2 ^ 52) with (Z.pos (Z.to_pos (2 ^ 52))).
    cbv iota.
    assert (Hfin : (e2 <=? F64.emax - F64.prec) = true)
      by (apply Z.leb_le; unfold F64.emax, F64.prec; lia).
    rewrite Hfin. exists (Z.to_pos (2 ^ 52)), e2, mr.
    split; [reflexivity|]. split; [split; [reflexivity|reflexivity]|].
    split; [lia|].
    split; [replace (e2 - e - n) with 1 by lia; rewrite Emr; reflexivity|].
    split; [rewrite <- Hm1; lia|]. split; [lia|exact Hlo'].
Qed.

Lemma Qpow2_pos e : (0 < Qpower 2 e)%Q.
Proof. apply Qpower_0_lt. reflexivity. Qed.

Lemma Qpow2_add a b : (Qpower 2 (a + b) == Qpower 2 a * Qpower 2 b)%Q.
Proof. apply Qpower_plus. discriminate. Qed.

Lemma Qpow2_Z k : 0 <= k → (inject_Z (2 ^ k) == Qpower 2 k)%Q.
Proof. intros Hk. now rewrite Zpower_Qpower. Qed.

Lemma to_Q_finite s m e :
  (F64.to_Q (S754_finite s m e)
   == inject_Z (if s then Z.neg m else Z.pos m) * Qpower 2 e)%Q.
Proof.
  unfold F64.to_Q, F64.num_den.
  destruct (Z.leb_spec 0 e) as [He|He].
  - change (Z.to_pos 1) with 1%positive.
    rewrite <- Qpow2_Z by assumption. rewrite <- inject_Z_mult. reflexivity.
  - assert (Hp : 0 < 2 ^ (- e)) by (apply Z.pow_pos_nonneg; lia).
    rewrite Qmake_Qdiv. rewrite Z2Pos.id by assumption.
    replace e with (- (- e)) at 2 by lia.
    rewrite Qpower_opp, <- Qpow2_Z by lia. reflexivity.
Qed.

(** The rounded value is within one unit in the last place, hence within
    the relative distance [epsilon], of every number in the interval the
    mantissa stands for. *)
Lemma round_aux_near m e l (t : Q) :
  2 ^ 52 <= m → -1000 <= e → Zdigits2 m + e <= 900 →
  (inject_Z m <= t <= inject_Z m + 1)%Q →
  ∃ m2 e2,
    binary_round_aux F64.prec F64.emax false m e l = S754_finite false m2 e2
    ∧ 2 ^ 52 <= Z.pos m2 < 2 ^ 53
    ∧ e + (Zdigits2 m - 53) <= e2 <= e + (Zdigits2 m - 53) + 1
    ∧ ((1 - epsilon) * (t * Qpower 2 e)
       <= F64.to_Q (S754_finite false m2 e2)
       <= (1 + epsilon) * (t * Qpower 2 e))%Q.
Proof.
  intros Hm He Hd Ht.
  destruct (round_aux_normal false m e l Hm He Hd)
    as (m2 & e2 & mr & Hr & Hm2 & He2 & Hmr & Hb & Hn & Hlo).
  set (n := Zdigits2 m - 53) in *.
  exists m2, e2. split; [exact Hr|]. split; [exact Hm2|]. split; [exact He2|].
  assert (Hval : (F64.to_Q (S754_finite false m2 e2)
                  == inject_Z (mr * 2 ^ n) * Qpower 2 e)%Q).
  { rewrite to_Q_finite. rewrite <- Hmr.
    replace e2 with ((e2 - e - n) + (n + e)) at 1 by lia.
    rewrite !Qpow2_add, !inject_Z_mult, !Qpow2_Z by lia. ring. }
  rewrite Hval.
  assert (Hpn : 0 < 2 ^ n) by (apply Z.pow_pos_nonneg; lia).
  pose proof (Z.mul_div_le m (2 ^ n) Hpn) as HF1.
  pose proof (Z.mul_succ_div_gt m (2 ^ n) Hpn) as HF2.
  set (F := m / 2 ^ n) in *.
  assert (H1 : (inject_Z (F * 2 ^ n) <= inject_Z m)%Q)
    by (rewrite <- Zle_Qle; lia).
  assert (H2 : (inject_Z m + 1 <= inject_Z (F * 2 ^ n) + inject_Z (2 ^ n))%Q).
  { change 1%Q with (inject_Z 1). rewrite <- !inject_Z_plus, <- Zle_Qle. lia. }
  assert (H3 : (inject_Z (F * 2 ^ n) <= inject_Z (mr * 2 ^ n))%Q)
    by (rewrite <- Zle_Qle; nia).
  assert (H4 : (inject_Z (mr * 2 ^ n)
                <= inject_Z (F * 2 ^ n) + inject_Z (2 ^ n))%Q).
  { rewrite <- !inject_Z_plus, <- Zle_Qle. nia. }
  assert (H5 : (inject_Z (2 ^ n) * inject_Z (2 ^ 52) <= inject_Z m)%Q).
  { rewrite <- inject_Z_mult, <- Zle_Qle. lia. }
  change (inject_Z (2 ^ 52)) with (4503599627370496 # 1)%Q in H5.
  pose proof (Qpow2_pos e) as HP.
  set (P := Qpower 2 e) in *. clearbody P.
  set (X := inject_Z (mr * 2 ^ n)) in *. clearbody X.
  set (M := inject_Z m) in *. clearbody M.
  set (N := inject_Z (2 ^ n)) in *. clearbody N.
  set (FN := inject_Z (F * 2 ^ n)) in *. clearbody FN.
  unfold epsilon.
  assert (Hlow : ((1 - (1 # 4503599627370496)) * t <= X)%Q) by lra.
  assert (Hupp : (X <= (1 + (1 # 4503599627370496)) * t)%Q) by lra.
  split.
  - assert (E : ((1 - (1 # 4503599627370496)) * (t * P)
                 == ((1 - (1 # 4503599627370496)) * t) * P)%Q) by ring.
    rewrite E. apply Qmult_le_compat_r; [exact Hlow|lra].
  - assert (E : ((1 + (1 # 4503599627370496)) * (t * P)
                 == ((1 + (1 # 4503599627370496)) * t) * P)%Q) by ring.
    rewrite E. apply Qmult_le_compat_r; [exact Hupp|lra].
Qed.

Lemma normal_weaken B B' x : B <= B' → normal B x → normal B' x.
Proof. intros HB (m & e & -> & Hm & He). exists m, e. repeat split; lia. Qed.

Lemma normal_pos B x : normal B x → (0 < F64.to_Q x)%Q.
Proof.
  intros (m & e & -> & Hm & He). rewrite to_Q_finite.
  apply Qmult_lt_0_compat; [|apply Qpow2_pos].
  change 0%Q with (inject_Z 0). rewrite <- Zlt_Qlt. lia.
Qed.

(** An integer of at most 53 bits is a float. *)
Lemma of_Z_normal k :
  0 < k < 2 ^ 53 →
  normal 52 (F64.of_Z k) ∧ (F64.to_Q (F64.of_Z k) == inject_Z k)%Q.
Proof.
  intros Hk. destruct k as [|p|p]; try lia.
  unfold F64.of_Z, binary_normalize, binary_round, shl_align.
  change (Z.pos (digits2_pos p)) with (Zdigits2 (Z.pos p)).
  set (d := Zdigits2 (Z.pos p)).
  assert (Hd1 : 1 <= d) by (apply (Zdigits2_ge (Z.pos p) 0); simpl; lia).
  assert (Hd2 : d <= 53) by (apply Zdigits2_le; lia).
  pose proof (Zdigits2_lower (Z.pos p) ltac:(lia)) as Hlo. fold d in Hlo.
  pose proof (Zdigits2_gt (Z.pos p) ltac:(lia)) as Hhi. fold d in Hhi.
  assert (Hf : fexp F64.prec F64.emax (d + 0) = d - 53).
  { unfold fexp, emin, F64.prec, F64.emax. lia. }
  rewrite Hf. replace (d - 53 - 0) with (d - 53) by lia.
  destruct (d - 53) as [|q|q] eqn:Eq; try lia.
  - assert (d = 53) as Hd by lia. rewrite Hd in *.
    rewrite round_aux_exact by lia. rewrite Pos2Z.id. split.
    + exists p, 0. repeat split; lia.
    + rewrite to_Q_finite. change (Qpower 2 0) with 1%Q. ring.
  - assert (Hq : Z.pos q = 53 - d) by lia.
    assert (Hm : Z.pos (Pos.iter xO p q) = Z.pos p * 2 ^ (53 - d))
      by (rewrite iter_xO, Hq; reflexivity).
    assert (Hp2 : 0 < 2 ^ (53 - d)) by (apply Z.pow_pos_nonneg; lia).
    assert (Hr : 2 ^ 52 <= Z.pos (Pos.iter xO p q) < 2 ^ 53).
    { rewrite Hm. split.
      - replace 52 with ((d - 1) + (53 - d)) by lia.
        rewrite Z.pow_add_r by lia. nia.
      - replace 53 with (d + (53 - d)) at 2 by lia.
        rewrite Z.pow_add_r by lia. nia. }
    rewrite round_aux_exact by lia. rewrite Pos2Z.id. split.
    + exists (Pos.iter xO p q), (Z.neg q). repeat split; lia.
    + rewrite to_Q_finite, Hm, inject_Z_mult, Qpow2_Z by lia.
      replace (Z.neg q) with (- (53 - d)) by lia.
      rewrite Qpower_opp.
      pose proof (Qpow2_pos (53 - d)) as HP. field. lra.
Qed.

(** The product of two floats. *)
Lemma mul_normal B1 B2 x y :
  normal B1 x → normal B2 y → 0 <= B1 → 0 <= B2 → B1 + B2 <= 700 →
  normal (B1 + B2 + 54) (F64.mul x y)
  ∧ ((1 - epsilon) * (F64.to_Q x * F64.to_Q y)
     <= F64.to_Q (F64.mul x y)
     <= (1 + epsilon) * (F64.to_Q x * F64.to_Q y))%Q.
Proof.
  intros (mx & ex & -> & Hmx & Hex) (my & ey & -> & Hmy & Hey) HB1 HB2 HB.
  unfold F64.mul, SFmul. cbn [xorb].
  assert (Hm : 2 ^ 104 <= Z.pos (mx * my) < 2 ^ 106).
  { rewrite Pos2Z.inj_mul. change (2 ^ 104) with (2 ^ 52 * 2 ^ 52).
    change (2 ^ 106) with (2 ^ 53 * 2 ^ 53). nia. }
  assert (Hd : 105 <= Zdigits2 (Z.pos (mx * my)) <= 106).
  { split; [apply (Zdigits2_ge _ 104); lia|apply Zdigits2_le; lia]. }
  destruct (round_aux_near (Z.pos (mx * my)) (ex + ey) loc_Exact
              (inject_Z (Z.pos (mx * my))))
    as (m2 & e2 & Hr & Hm2 & He2 & Hv); try lia.
  { split; lra. }
  rewrite Hr. split.
  - exists m2, e2. repeat split; lia.
  - assert (E : (F64.to_Q (S754_finite false mx ex)
                 * F64.to_Q (S754_finite false my ey)
                 == inject_Z (Z.pos (mx * my)) * Qpower 2 (ex + ey))%Q).
    { rewrite !to_Q_finite, Qpow2_add, Pos2Z.inj_mul, inject_Z_mult. ring. }
    rewrite E. exact Hv.
Qed.

(** The quotient of two floats. *)
Lemma div_normal B1 B2 x y :
  normal B1 x → normal B2 y → 0 <= B1 → 0 <= B2 → B1 + B2 <= 700 →
  normal (B1 + B2 + 54) (F64.div x y)
  ∧ ((1 - epsilon) * (F64.to_Q x / F64.to_Q y)
     <= F64.to_Q (F64.div x y)
     <= (1 + epsilon) * (F64.to_Q x / F64.to_Q y))%Q.
Proof.
  intros (mx & ex & -> & Hmx & Hex) (my & ey & -> & Hmy & Hey) HB1 HB2 HB.
  unfold F64.div, SFdiv, SFdiv_core_binary. cbn [xorb].
  rewrite (Zdigits2_53 (Z.pos mx)), (Zdigits2_53 (Z.pos my)) by assumption.
  assert (He' : Z.min (fexp F64.prec F64.emax (53 + ex - (53 + ey))) (ex - ey)
                = ex - ey - 53).
  { unfold fexp, emin, F64.prec, F64.emax. lia. }
  rewrite He'.
  replace (ex - ey - (ex - ey - 53)) with 53 by lia.
  rewrite Z.shiftl_mul_pow2 by lia.
  pose proof (Z.div_eucl_eq (Z.pos mx * 2 ^ 53) (Z.pos my) ltac:(lia)) as Hdiv.
  pose proof (Z.mod_pos_bound (Z.pos mx * 2 ^ 53) (Z.pos my) ltac:(lia)) as Hmod.
  unfold Z.modulo in Hmod.
  destruct (Z.div_eucl (Z.pos mx * 2 ^ 53) (Z.pos my)) as [q r].
  assert (Hq : 2 ^ 52 <= q < 2 ^ 54).
  { change (2 ^ 54) with (2 * 2 ^ 53). nia. }
  assert (Hd : 53 <= Zdigits2 q <= 54).
  { split; [apply (Zdigits2_ge _ 52); lia|apply Zdigits2_le; lia]. }
  assert (HY : (0 < inject_Z (Z.pos my))%Q).
  { change 0%Q with (inject_Z 0). rewrite <- Zlt_Qlt. lia. }
  destruct (round_aux_near q (ex - ey - 53) (new_location (Z.pos my) r)
              (inject_Z (Z.pos mx * 2 ^ 53) / inject_Z (Z.pos my)))
    as (m2 & e2 & Hr & Hm2 & He2 & Hv); try lia.
  { split.
    - apply Qle_shift_div_l; [exact HY|].
      rewrite <- inject_Z_mult, <- Zle_Qle. lia.
    - apply Qle_shift_div_r; [exact HY|].
      change 1%Q with (inject_Z 1).
      rewrite <- inject_Z_plus, <- inject_Z_mult, <- Zle_Qle. lia. }
  rewrite Hr. split.
  - exists m2, e2. repeat split; lia.
  - assert (E : (F64.to_Q (S754_finite false mx ex)
                 / F64.to_Q (S754_finite false my ey)
                 == inject_Z (Z.pos mx * 2 ^ 53) / inject_Z (Z.pos my)
                    * Qpower 2 (ex - ey - 53))%Q).
    { rewrite !to_Q_finite.
      replace (ex - ey - 53) with (ex + (- ey + - (53))) by lia.
      rewrite !Qpow2_add, !Qpower_opp, inject_Z_mult, Qpow2_Z by lia.
      pose proof (Qpow2_pos ey). pose proof (Qpow2_pos 53).
      field. repeat split; lra. }
    rewrite E. exact Hv.
Qed.

Lemma rne_div_near a b :
  0 <= a → 0 < b → - b <= 2 * (b * F64.rne_div a b - a) <= b.
Proof.
  intros Ha Hb. unfold F64.rne_div.
  pose proof (Z.div_mod a b ltac:(lia)) as Hdm.
  pose proof (Z.mod_pos_bound a b Hb) as Hr.
  generalize dependent (a mod b). generalize dependent (a / b).
  intros q r Hdm Hr. subst a.
  destruct (Z.compare_spec (2 * r) b) as [E|E|E].
  - destruct (Z.even q); nia.
  - nia.
  - nia.
Qed.

Lemma num_den_pos x : 0 < (F64.num_den x).2.
Proof.
  destruct x as [s|s| |s m e]; cbn [F64.num_den snd]; try lia.
  destruct (Z.leb_spec 0 e); cbn [snd]; [lia|].
  apply Z.pow_pos_nonneg; lia.
Qed.

Lemma rint_normal B x :
  normal B x →
  ∃ k, 0 <= k
       ∧ rint x = (if k =? 0 then S754_zero false else F64.of_Z k)
       ∧ (inject_Z k - (1 # 2) <= F64.to_Q x <= inject_Z k + (1 # 2))%Q.
Proof.
  intros (m & e & -> & Hm & He).
  pose proof (num_den_pos (S754_finite false m e)) as Hd.
  assert (Hn : 0 < (F64.num_den (S754_finite false m e)).1).
  { unfold F64.num_den. destruct (Z.leb_spec 0 e); cbn [fst]; [|lia].
    apply Z.mul_pos_pos; [lia|]. apply Z.pow_pos_nonneg; lia. }
  unfold rint, F64.to_Q.
  destruct (F64.num_den (S754_finite false m e)) as [n d]. cbn [fst snd] in *.
  rewrite Z.abs_eq by lia.
  pose proof (rne_div_near n d ltac:(lia) Hd) as Hk.
  exists (F64.rne_div n d). split.
  { unfold F64.rne_div.
    pose proof (Z.div_pos n d ltac:(lia) Hd).
    destruct (2 * (n mod d) ?= d); [destruct (Z.even (n / d))|..]; lia. }
  split; [reflexivity|].
  set (k := F64.rne_div n d) in *. clearbody k.
  unfold Qle, Qminus, Qplus, Qopp, inject_Z. cbn [Qnum Qden].
  unfold Qplus. cbn [Qnum Qden Z.opp].
  rewrite Z2Pos.id by assumption. split; nia.
Qed.

Lemma Z_le_Q_lt k (b : Z) (x : Q) :
  (inject_Z k <= x)%Q → (x < inject_Z (b + 1))%Q → k <= b.
Proof.
  intros H1 H2. assert (H : (inject_Z k < inject_Z (b + 1))%Q) by lra.
  rewrite <- Zlt_Qlt in H. lia.
Qed.

Lemma Qdiv_10 (x : Q) : (x / 10 == x * (1 # 10))%Q.
Proof. field. Qed.

(** The percentage the tables show: the float nearest to [k / 10] for a
    whole number [k] of tenths from 0 to 1000; it differs from the exact
    percentage by at most 0.05, the rounding to one decimal, and 2^-40,
    the most the float operations add to it. *)
Lemma percent_near n L :
  0 < n <= L → L < 2 ^ 53 →
  ∃ k, 0 <= k <= 1000
    ∧ percent n L
      = (if k =? 0 then S754_zero false
         else F64.div (F64.of_Z k) (F64.of_Z 10))
    ∧ (Qabs (F64.to_Q (percent n L) - inject_Z k / 10) <= 1 # 1099511627776)%Q
    ∧ (Qabs (F64.to_Q (percent n L) - inject_Z n / inject_Z L * 100)
       <= (1 # 20) + (1 # 1099511627776))%Q
    ∧ (0 <= F64.to_Q (percent n L) <= 100)%Q.
Proof.
  intros Hn HL.
  destruct (of_Z_normal 10 ltac:(split; reflexivity)) as [Hc10 Hv10].
  destruct (of_Z_normal 100 ltac:(split; reflexivity)) as [Hc100 Hv100].
  destruct (of_Z_normal n ltac:(lia)) as [Ha Hva].
  destruct (of_Z_normal L ltac:(lia)) as [Hb HvL].
  destruct (div_normal 52 52 (F64.of_Z n) (F64.of_Z L) Ha Hb)
    as [Hx1 Hb1]; try lia.
  set (x1 := F64.div (F64.of_Z n) (F64.of_Z L)) in *.
  destruct (mul_normal (52 + 52 + 54) 52 x1 (F64.of_Z 100) Hx1 Hc100)
    as [Hx2 Hb2]; try lia.
  set (x2 := F64.mul x1 (F64.of_Z 100)) in *.
  destruct (mul_normal (52 + 52 + 54 + 52 + 54) 52 x2 (F64.of_Z 10) Hx2 Hc10)
    as [Hx3 Hb3]; try lia.
  set (x3 := F64.mul x2 (F64.of_Z 10)) in *.
  destruct (rint_normal _ x3 Hx3) as (k & Hk0 & Hrint & Hkb).
  rewrite Hva, HvL in Hb1. rewrite Hv100 in Hb2. rewrite Hv10 in Hb3.
  assert (HLq : (0 < inject_Z L)%Q)
    by (change 0%Q with (inject_Z 0); rewrite <- Zlt_Qlt; lia).
  assert (Hr0 : (0 < inject_Z n / inject_Z L)%Q).
  { apply Qlt_shift_div_l; [exact HLq|].
    rewrite Qmult_0_l. change 0%Q with (inject_Z 0). rewrite <- Zlt_Qlt. lia. }
  assert (Hr1 : (inject_Z n / inject_Z L <= 1)%Q).
  { apply Qle_shift_div_r; [exact HLq|].
    rewrite Qmult_1_l, <- Zle_Qle. lia. }
  set (r := (inject_Z n / inject_Z L)%Q) in *. clearbody r.
  change (inject_Z 100) with 100%Q in Hb2.
  change (inject_Z 10) with 10%Q in Hb3.
  unfold epsilon in *.
  assert (Hk1000 : k <= 1000).
  { apply (Z_le_Q_lt k 1000 (F64.to_Q x3 + (1 # 2))); [lra|].
    change (inject_Z (1000 + 1)) with 1001%Q. lra. }
  exists k. split; [lia|].
  assert (Hp : percent n L
               = (if k =? 0 then S754_zero false
                  else F64.div (F64.of_Z k) (F64.of_Z 10))).
  { unfold percent, np_round1. fold x1 x2 x3. rewrite Hrint.
    destruct (k =? 0); reflexivity. }
  split; [exact Hp|]. rewrite Hp, Qdiv_10.
  destruct (Z.eqb_spec k 0) as [->|Hk].
  - change (F64.to_Q (S754_zero false)) with 0%Q.
    change (inject_Z 0) with 0%Q in *.
    split; [apply Qabs_Qle_condition; lra|].
    split; [apply Qabs_Qle_condition; lra|lra].
  - destruct (of_Z_normal k ltac:(lia)) as [Hkn Hvk].
    destruct (div_normal 52 52 (F64.of_Z k) (F64.of_Z 10) Hkn Hc10)
      as [_ Hbp]; try lia.
    rewrite Hvk, Hv10 in Hbp. change (inject_Z 10) with 10%Q in Hbp.
    rewrite Qdiv_10 in Hbp. unfold epsilon in Hbp.
    assert (HkQ : (1 <= inject_Z k <= 1000)%Q).
    { change 1%Q with (inject_Z 1). change 1000%Q with (inject_Z 1000).
      rewrite <- !Zle_Qle. lia. }
    set (K := inject_Z k) in *.
    set (p := F64.to_Q (F64.div (F64.of_Z k) (F64.of_Z 10))) in *.
    split; [apply Qabs_Qle_condition; lra|].
    split; [apply Qabs_Qle_condition; lra|].
    split; [lra|].
    destruct (Z.eq_dec k 1000) as [->|Hne].
    + subst p. vm_compute. discriminate.
    + assert (HK999 : (K <= 999)%Q).
      { unfold K. change 999%Q with (inject_Z 999). rewrite <- Zle_Qle. lia. }
      lra.
Qed.




(** ** The rational and shutter-speed conversions *)

Section Conversions.
Context `{Runtime}.


Lemma parse_shutter_speed_pair n d :
  _parse_shutter_speed (pair n d) =
  except_None
    (if n >=? d
     then q ← int_truediv n d; Ok (format_1f q ++ "s")%string
     else q ← int_truediv d n; k ← int_of_float q;
          Ok ("1/" ++ string_of_Z k)%string).
Proof. reflexivity. Qed.

(** C1, as the code has it: a pair whose numerator is at least the
    denominator is rendered as the quotient with one decimal followed by "s";
    a pair whose numerator is smaller is rendered as "1/" followed by the
    quotient denominator/numerator cut to its integer part (not rounded),
    which for values of at most 52 bits is the integer quotient;
    a division by zero gives an absent result; a value that is not a tuple
    is rendered by [str]; and no input makes the conversion raise. *)
Theorem shutter_speed_formatter :
  (∀ n d, Z.abs n < 2 ^ 1000 → d ≠ 0 → d <= n →
     _parse_shutter_speed (pair n d)
     = Ok (Some (format_1f (F64.div_Z n d) ++ "s")%string))
  ∧ (∀ n d, Z.abs d < 2 ^ 1000 → n ≠ 0 → n < d →
     _parse_shutter_speed (pair n d)
     = Ok (Some ("1/" ++ string_of_Z (F64.trunc (F64.div_Z d n)))%string))
  ∧ (∀ n d, Z.abs n < 2 ^ 52 → Z.abs d < 2 ^ 52 → n ≠ 0 → n < d →
     _parse_shutter_speed (pair n d)
     = Ok (Some ("1/" ++ string_of_Z (Z.quot d n))%string))
  ∧ (∀ n d, (d <= n ∧ d = 0) ∨ (n < d ∧ n = 0) →
     _parse_shutter_speed (pair n d) = Ok None)
  ∧ (∀ value, (∀ t, value ≠ Plain (VTuple t)) →
     _parse_shutter_speed value = Ok (Some (py_str value)))
  ∧ (∀ value, ∃ r, _parse_shutter_speed value = Ok r).
Proof.
  assert (Hslow : ∀ n d, Z.abs d < 2 ^ 1000 → n ≠ 0 → n < d →
     _parse_shutter_speed (pair n d)
     = Ok (Some ("1/" ++ string_of_Z (F64.trunc (F64.div_Z d n)))%string)).
  { intros n d Hd Hn Hlt. rewrite parse_shutter_speed_pair.
    destruct (Z.geb_spec n d) as [|_]; [lia|].
    rewrite int_truediv_ok by assumption. simpl.
    now rewrite int_of_float_finite by now apply div_Z_finite. }
  split; [|split; [exact Hslow|split; [|split; [|split]]]].
  - intros n d Hn Hd Hle. rewrite parse_shutter_speed_pair.
    destruct (Z.geb_spec n d) as [_|]; [|lia].
    now rewrite int_truediv_ok.
  - intros n d Hn Hd Hnz Hlt. rewrite Hslow, trunc_div_Z by lia. reflexivity.
  - intros n d [[Hle ->]|[Hlt ->]]; rewrite parse_shutter_speed_pair.
    + destruct (Z.geb_spec n 0) as [_|]; [reflexivity|lia].
    + destruct (Z.geb_spec 0 d) as [|_]; [lia|reflexivity].
  - intros value Hv. destruct value as [[]|]; try reflexivity.
    now destruct (Hv vs).
  - intros value. apply except_None_total.
Qed.


End Conversions.

(** The three renderings the specification lists, and a focal length. *)
Lemma shutter_speed_formatter_witness :
  @_parse_shutter_speed bare_runtime (pair 1 500) = Ok (Some "1/500"%string)
  ∧ @_parse_shutter_speed bare_runtime (pair 2 1) = Ok (Some "2.0s"%string)
  ∧ @_parse_shutter_speed bare_runtime (pair 1 1) = Ok (Some "1.0s"%string)
  ∧ @_parse_shutter_speed bare_runtime (pair 1 0) = Ok None
  ∧ @_parse_shutter_speed bare_runtime (Plain (VInt 4)) = Ok (Some "4"%string).
Proof.
  destruct (@shutter_speed_formatter bare_runtime)
    as (Hge & _ & Hlt & Hzero & Hstr & _).
  split; [|split; [|split; [|split]]].
  - apply (Hlt 1 500); [vm_compute; reflexivity | vm_compute; reflexivity | lia | lia].
  - apply (Hge 2 1); [vm_compute; reflexivity | lia | lia].
  - apply (Hge 1 1); [vm_compute; reflexivity | lia | lia].
  - apply (Hzero 1 0); lia.
  - apply (Hstr (Plain (VInt 4))). discriminate.
Defined.

(** C1, as the specification words it, fails on the pair (3, 5): the code
    cuts 5/3 to 1 where the specification rounds it to 2. *)
Lemma shutter_speed_round_counterexample :
  @_parse_shutter_speed bare_runtime (pair 3 5) = Ok (Some "1/1"%string)
  ∧ spec_slow_shutter 3 5 = Ok "1/2"%string.
Proof. split; vm_compute; reflexivity. Qed.


(** ** GPS coordinates *)

Lemma float_truediv_of_Z x k :
  F64.is_zero (F64.of_Z k) = false →
  float_truediv x (F64.of_Z k) = Ok (F64.div x (F64.of_Z k)).
Proof. intros Hk. unfold float_truediv. now rewrite Hk. Qed.

Lemma convert_to_degrees_numbers d m s fd fm fs :
  as_float d = Ok fd → as_float m = Ok fm → as_float s = Ok fs →
  _convert_to_degrees (VTuple [d; m; s])
  = Ok (F64.add (F64.add fd (F64.div fm (F64.of_Z 60)))
                (F64.div fs (F64.of_Z 3600))).
Proof.
  intros Hd Hm Hs. unfold _convert_to_degrees, py_div_float, py_add_float.
  cbn [unpack3 mbind result_bind]. rewrite Hm. cbn [mbind result_bind].
  rewrite float_truediv_of_Z by reflexivity. rewrite Hd.
  cbn [mbind result_bind]. rewrite Hs. cbn [mbind result_bind].
  now rewrite float_truediv_of_Z by reflexivity.
Qed.

Lemma parse_gps_present items la lo lat lon :
  gps_names items !! inl "GPSLatitude"%string = Some la →
  gps_names items !! inl "GPSLongitude"%string = Some lo →
  _convert_to_degrees la = Ok lat →
  _convert_to_degrees lo = Ok lon →
  _parse_gps (Ifd items)
  = Ok (Some (<["latitude"%string :=
                  FFloat (if ref_is (gps_names items) "GPSLatitudeRef" "S"
                          then F64.opp lat else lat)]>
                {["longitude"%string :=
                  FFloat (if ref_is (gps_names items) "GPSLongitudeRef" "W"
                          then F64.opp lon else lon)]})).
Proof.
  intros Hla Hlo Hlat Hlon. unfold _parse_gps.
  rewrite Hla, Hlo, Hlat. cbn [mbind result_bind]. rewrite Hlon. reflexivity.
Qed.

(** C7: a (degrees, minutes, seconds) triple of numbers is converted to
    [degrees + minutes/60 + seconds/3600]; [_parse_gps] stores the converted
    latitude, negated exactly when the latitude reference is "S", and the
    converted longitude, negated exactly when the longitude reference is
    "W"; the triple (40, 30, 0) gives 40.5 under "N" and -40.5 under "S". *)
Theorem gps_decimal_degrees :
  (∀ d m s fd fm fs,
     as_float d = Ok fd → as_float m = Ok fm → as_float s = Ok fs →
     _convert_to_degrees (VTuple [d; m; s])
     = Ok (F64.add (F64.add fd (F64.div fm (F64.of_Z 60)))
                   (F64.div fs (F64.of_Z 3600))))
  ∧ (∀ items la lo lat lon,
     gps_names items !! inl "GPSLatitude"%string = Some la →
     gps_names items !! inl "GPSLongitude"%string = Some lo →
     _convert_to_degrees la = Ok lat →
     _convert_to_degrees lo = Ok lon →
     _parse_gps (Ifd items)
     = Ok (Some (<["latitude"%string :=
                     FFloat (if ref_is (gps_names items) "GPSLatitudeRef" "S"
                             then F64.opp lat else lat)]>
                   {["longitude"%string :=
                     FFloat (if ref_is (gps_names items) "GPSLongitudeRef" "W"
                             then F64.opp lon else lon)]})))
  ∧ (∃ lat lon,
     _parse_gps (Ifd [(1, VStr "N"); (2, triple 40 30 0);
                      (3, VStr "E"); (4, triple 40 30 0)])
     = Ok (Some (<["latitude"%string := FFloat lat]>
                   {["longitude"%string := FFloat lon]}))
     ∧ (F64.to_Q lat == 40.5)%Q ∧ (F64.to_Q lon == 40.5)%Q)
  ∧ (∃ lat lon,
     _parse_gps (Ifd [(1, VStr "S"); (2, triple 40 30 0);
                      (3, VStr "W"); (4, triple 40 30 0)])
     = Ok (Some (<["latitude"%string := FFloat lat]>
                   {["longitude"%string := FFloat lon]}))
     ∧ (F64.to_Q lat == - 40.5)%Q ∧ (F64.to_Q lon == - 40.5)%Q).
Proof.
  split; [|split; [|split]].
  - exact convert_to_degrees_numbers.
  - exact parse_gps_present.
  - exists (F64.div_Z 81 2), (F64.div_Z 81 2).
    split; [|split]; vm_compute; reflexivity.
  - exists (F64.div_Z (-81) 2), (F64.div_Z (-81) 2).
    split; [|split]; vm_compute; reflexivity.
Qed.

Lemma gps_decimal_degrees_witness :
  _convert_to_degrees (triple 40 30 0) = Ok (F64.div_Z 81 2)
  ∧ _parse_gps (Ifd [(2, triple 12 0 0); (1, VStr "S"); (4, triple 40 30 0)])
    = Ok (Some (<["latitude"%string := FFloat (F64.of_Z (-12))]>
                  {["longitude"%string := FFloat (F64.div_Z 81 2)]})).
Proof.
  destruct gps_decimal_degrees as (Hconv & Hgps & _).
  split.
  - apply (Hconv (VInt 40) (VInt 30) (VInt 0)
                 (F64.of_Z 40) (F64.of_Z 30) (F64.of_Z 0)); reflexivity.
  - apply (Hgps [(2, triple 12 0 0); (1, VStr "S"); (4, triple 40 30 0)]
                (triple 12 0 0) (triple 40 30 0)
                (F64.of_Z 12) (F64.div_Z 81 2));
      vm_compute; reflexivity.
Defined.

(** ** Time of day *)

(** C8: [_categorize_time_of_day] is defined on every integer hour and on
    the absent hour: 5 to 7 is Early Morning, 8 to 11 Morning, 12 to 16
    Afternoon, 17 to 19 Golden Hour, 20 to 22 Evening, every other hour
    Night, and the absent hour Unknown. *)
Theorem time_of_day_table :
  (∀ hour, 5 <= hour <= 7 → DataProcessor._categorize_time_of_day (Some hour) = "Early Morning"%string)
  ∧ (∀ hour, 8 <= hour <= 11 → DataProcessor._categorize_time_of_day (Some hour) = "Morning"%string)
  ∧ (∀ hour, 12 <= hour <= 16 → DataProcessor._categorize_time_of_day (Some hour) = "Afternoon"%string)
  ∧ (∀ hour, 17 <= hour <= 19 → DataProcessor._categorize_time_of_day (Some hour) = "Golden Hour"%string)
  ∧ (∀ hour, 20 <= hour <= 22 → DataProcessor._categorize_time_of_day (Some hour) = "Evening"%string)
  ∧ (∀ hour, hour <= 4 ∨ 23 <= hour → DataProcessor._categorize_time_of_day (Some hour) = "Night"%string)
  ∧ DataProcessor._categorize_time_of_day None = "Unknown"%string
  ∧ DataProcessor._categorize_time_of_day (Some 6) = "Early Morning"%string
  ∧ DataProcessor._categorize_time_of_day (Some 23) = "Night"%string.
Proof.
  unfold DataProcessor._categorize_time_of_day.
  split; [|split; [|split; [|split; [|split; [|split; [|split; [|split]]]]]]];
    try reflexivity; intros hour Hh;
    repeat match goal with
      | |- context [(?a <=? ?b)%Z] => destruct (Z.leb_spec a b); try lia
      | |- context [(?a <? ?b)%Z] => destruct (Z.ltb_spec a b); try lia
      end; reflexivity.
Qed.

Lemma time_of_day_table_witness :
  DataProcessor._categorize_time_of_day (Some 7) = "Early Morning"%string
  ∧ DataProcessor._categorize_time_of_day (Some 8) = "Morning"%string
  ∧ DataProcessor._categorize_time_of_day (Some 16) = "Afternoon"%string
  ∧ DataProcessor._categorize_time_of_day (Some 17) = "Golden Hour"%string
  ∧ DataProcessor._categorize_time_of_day (Some 22) = "Evening"%string
  ∧ DataProcessor._categorize_time_of_day (Some 0) = "Night"%string.
Proof.
  destruct time_of_day_table as (H1 & H2 & H3 & H4 & H5 & H6 & _).
  split; [|split; [|split; [|split; [|split]]]].
  - apply (H1 7); lia.
  - apply (H2 8); lia.
  - apply (H3 16); lia.
  - apply (H4 17); lia.
  - apply (H5 22); lia.
  - apply (H6 0); lia.
Defined.

(** ** Latitude and longitude go together *)

Section Records.
Context `{Runtime}.

Lemma parse_gps_total value : ∃ r, _parse_gps value = Ok r.
Proof. unfold _parse_gps. destruct value; [eauto|]. repeat case_match; eauto. Qed.

Lemma parse_gps_shape value g :
  _parse_gps value = Ok (Some g) →
  ∃ lat lon, g = <["latitude"%string := FFloat lat]>
                   {["longitude"%string := FFloat lon]}.
Proof.
  unfold _parse_gps. destruct value as [v|items]; [discriminate|].
  destruct (gps_names items !! inl "GPSLatitude"%string) as [la|]; [|discriminate].
  destruct (gps_names items !! inl "GPSLongitude"%string) as [lo|]; [|discriminate].
  destruct (_convert_to_degrees la) as [lat|]; [|discriminate].
  destruct (_convert_to_degrees lo) as [lon|]; [|discriminate].
  cbn [mbind result_bind]. intros [= <-]. eauto.
Qed.

Lemma parse_gps_lacks value :
  lacks_coordinate value → _parse_gps value = Ok None.
Proof.
  unfold _parse_gps. destruct value as [v|items]; [reflexivity|].
  intros [Hla|Hlo]; [now rewrite Hla|]. rewrite Hlo.
  now destruct (gps_names items !! inl "GPSLatitude"%string).
Qed.

Lemma gps_info_id tag_id :
  is_name (get_name TAGS tag_id) "GPSInfo" = true → tag_id = 34853.
Proof.
  unfold get_name, TAGS, table_get.
  repeat match goal with
    | |- context [(?k =? tag_id)%Z] =>
        destruct (Z.eqb_spec k tag_id) as [<-|_]; [simpl; congruence|]
    end.
  simpl. discriminate.
Qed.

(** What one tag can do to the record: set a field other than the
    coordinates, leave the record alone, or merge a GPS mapping. *)
Lemma handle_tag_cases parsed_data tag_id value parsed_data' :
  handle_tag parsed_data tag_id value = Ok parsed_data' →
  (∃ k x, k ∈ tag_fields ∧ parsed_data' = <[k := x]> parsed_data)
  ∨ parsed_data' = parsed_data
  ∨ (tag_id = 34853
     ∧ ∃ g, _parse_gps value = Ok (Some g) ∧ parsed_data' = g ∪ parsed_data).
Proof.
  unfold handle_tag.
  repeat match goal with
    | |- context [if ?b || ?c then _ else _] => destruct (b || c) eqn:?
    | |- context [if is_name ?k ?n then _ else _] => destruct (is_name k n) eqn:?
    end;
    try (intros [= <-]; right; left; reflexivity);
    try (try first
           [ destruct (_parse_rational value) as [?|]; [|discriminate]
           | destruct (_parse_shutter_speed value) as [?|]; [|discriminate]
           | destruct (_parse_datetime value) as [?|]; [|discriminate]
           | destruct (py_int value) as [?|]; [|discriminate]
           | destruct (flash_bit value) as [?|]; [|discriminate] ];
         intros [= <-]; left; eexists _, _; (split; [|reflexivity]);
         apply (bool_decide_unpack _); exact I).
  destruct (_parse_gps value) as [[g|]|] eqn:Hg; [| |discriminate]; cbn [mbind result_bind].
  - destruct (decide (g = ∅)); intros [= <-]; [right; left; reflexivity|].
    right; right. split; [now apply gps_info_id|]. eauto.
  - intros [= <-]. right; left; reflexivity.
Qed.

Lemma tag_field_not_gps k :
  k ∈ tag_fields → k ≠ "latitude"%string ∧ k ≠ "longitude"%string.
Proof.
  intros Hk. split; intros ->; apply (bool_decide_pack _) in Hk; exact Hk.
Qed.

Lemma gps_paired_insert k x (r : record) :
  k ≠ "latitude"%string → k ≠ "longitude"%string →
  gps_paired r → gps_paired (<[k := x]> r).
Proof.
  intros Hla Hlo Hr. unfold gps_paired. now rewrite !lookup_insert_ne.
Qed.

Lemma gps_paired_merge value g (r : record) :
  _parse_gps value = Ok (Some g) → gps_paired (g ∪ r).
Proof.
  intros Hg. apply parse_gps_shape in Hg as (lat & lon & ->).
  unfold gps_paired. split; intros _.
  - exists (FFloat lon). now apply lookup_union_Some_l.
  - exists (FFloat lat). now apply lookup_union_Some_l.
Qed.

Lemma handle_tag_paired parsed_data tag_id value parsed_data' :
  handle_tag parsed_data tag_id value = Ok parsed_data' →
  gps_paired parsed_data → gps_paired parsed_data'.
Proof.
  intros Hh Hp.
  apply handle_tag_cases in Hh as [(k & x & Hk & ->)|[->|(_ & g & Hg & ->)]].
  - apply tag_field_not_gps in Hk as [Hla Hlo]. now apply gps_paired_insert.
  - assumption.
  - now apply gps_paired_merge with value.
Qed.

Lemma for_tags_paired items : ∀ parsed_data parsed_data',
  for_tags items parsed_data = Ok parsed_data' →
  gps_paired parsed_data → gps_paired parsed_data'.
Proof.
  induction items as [|[tag_id value] items IH]; intros p p' Hf Hp.
  - now injection Hf as <-.
  - cbn [for_tags] in Hf.
    destruct (handle_tag p tag_id value) as [q|] eqn:Hq; [|discriminate].
    cbn [mbind result_bind] in Hf.
    eapply IH; [exact Hf|]. now apply handle_tag_paired with p tag_id value.
Qed.

Lemma for_tags_no_gps items : ∀ parsed_data parsed_data',
  for_tags items parsed_data = Ok parsed_data' →
  (∀ value, (34853, value) ∈ items → lacks_coordinate value) →
  no_gps parsed_data → no_gps parsed_data'.
Proof.
  induction items as [|[tag_id value] items IH]; intros p p' Hf Hl Hp.
  - now injection Hf as <-.
  - cbn [for_tags] in Hf.
    destruct (handle_tag p tag_id value) as [q|] eqn:Hq; [|discriminate].
    cbn [mbind result_bind] in Hf.
    eapply IH; [exact Hf| |].
    + intros v Hv. apply Hl. now right.
    + apply handle_tag_cases in Hq
        as [(k & x & Hk & ->)|[->|(-> & g & Hg & ->)]].
      * apply tag_field_not_gps in Hk as [Hla Hlo].
        destruct Hp. split; now rewrite lookup_insert_ne.
      * assumption.
      * rewrite parse_gps_lacks in Hg; [discriminate|]. apply Hl. now left.
Qed.

Lemma extract_exif_body_record fs image_path r :
  extract_exif_body fs image_path = Ok (Some r) →
  ∃ image items st_size file_size parsed_data,
    fs_open fs image_path = Ok image
    ∧ img_getexif image = Ok (Some items)
    ∧ fs_st_size fs image_path = Ok st_size
    ∧ int_truediv st_size (1024 * 1024) = Ok file_size
    ∧ for_tags items
        (<["file_size"%string := FFloat file_size]>
           (<["filepath"%string := FStr image_path]>
              {["filename"%string := FStr (path_name image_path)]}))
      = Ok parsed_data
    ∧ r = <["orientation"%string :=
              FStr (if (img_size image).1 <? (img_size image).2
                    then "portrait" else "landscape")]>
            (<["height"%string := FInt (img_size image).2]>
               (<["width"%string := FInt (img_size image).1]> parsed_data)).
Proof.
  unfold extract_exif_body.
  destruct (fs_open fs image_path) as [image|] eqn:Ho; [|discriminate].
  cbn [mbind result_bind].
  destruct (img_getexif image) as [[[|item items]|]|] eqn:He; try discriminate.
  cbn [mbind result_bind].
  destruct (fs_st_size fs image_path) as [st_size|] eqn:Hs; [|discriminate].
  cbn [mbind result_bind].
  destruct (int_truediv st_size (1024 * 1024)) as [file_size|] eqn:Hd; [|discriminate].
  cbn [mbind result_bind].
  destruct (for_tags (item :: items) _) as [parsed_data|] eqn:Hf; [|discriminate].
  cbn [mbind result_bind]. destruct (img_size image) as [width height] eqn:Hsz.
  intros [= <-]. exists image, (item :: items), st_size, file_size, parsed_data.
  do 5 (split; [first [reflexivity | assumption]|]). now rewrite Hsz.
Qed.

Lemma extract_exif_record fs image_path r :
  (extract_exif fs image_path).1 = Some r →
  extract_exif_body fs image_path = Ok (Some r).
Proof.
  unfold extract_exif. destruct (extract_exif_body fs image_path) as [o|];
    simpl; [now intros ->|discriminate].
Qed.

(** C6: in every record [extract_exif] produces, latitude and longitude are
    both set or both unset; and when the GPSInfo value of the file has no
    GPSLatitude or no GPSLongitude entry, neither is set. *)
Theorem gps_both_or_neither fs image_path r :
  (extract_exif fs image_path).1 = Some r →
  gps_paired r
  ∧ ((∀ image items value,
        fs_open fs image_path = Ok image →
        img_getexif image = Ok (Some items) →
        (34853, value) ∈ items → lacks_coordinate value) →
     r !! "latitude"%string = None ∧ r !! "longitude"%string = None).
Proof.
  intros Hr. apply extract_exif_record, extract_exif_body_record in Hr
    as (image & items & st_size & file_size & p & Ho & He & _ & _ & Hf & ->).
  split.
  - do 3 (apply gps_paired_insert; [discriminate..|]).
    eapply for_tags_paired; [exact Hf|].
    unfold gps_paired. split; intros [x Hx]; vm_compute in Hx; discriminate.
  - intros Hl.
    assert (Hn : no_gps p).
    { eapply for_tags_no_gps; [exact Hf| |split; vm_compute; reflexivity].
      intros value Hv. now apply (Hl image items value). }
    destruct Hn. split; now rewrite !lookup_insert_ne.
Qed.

(** The fields of an extracted record. *)
Lemma photo_record_insert k x (r : record) :
  k ∈ record_fields → photo_record r → photo_record (<[k := x]> r).
Proof.
  intros Hk Hr k' Hk'. destruct (decide (k = k')) as [<-|Hne]; [exact Hk|].
  rewrite lookup_insert_ne in Hk' by assumption. now apply Hr.
Qed.

Lemma tag_field_record_field k : k ∈ tag_fields → k ∈ record_fields.
Proof.
  intros Hk. unfold record_fields. rewrite !elem_of_app. right. now left.
Qed.

Lemma handle_tag_fields parsed_data tag_id value parsed_data' :
  handle_tag parsed_data tag_id value = Ok parsed_data' →
  photo_record parsed_data → photo_record parsed_data'.
Proof.
  intros Hh Hp.
  apply handle_tag_cases in Hh as [(k & x & Hk & ->)|[->|(_ & g & Hg & ->)]].
  - apply photo_record_insert; [now apply tag_field_record_field|assumption].
  - assumption.
  - apply parse_gps_shape in Hg as (lat & lon & ->).
    intros k Hk. apply lookup_union_is_Some in Hk as [Hk|Hk]; [|now apply Hp].
    destruct (decide (k = "latitude"%string)) as [->|Hla];
      [apply (bool_decide_unpack _); exact I|].
    rewrite lookup_insert_ne in Hk by congruence.
    destruct (decide (k = "longitude"%string)) as [->|Hlo];
      [apply (bool_decide_unpack _); exact I|].
    rewrite lookup_singleton_ne in Hk by congruence. now destruct Hk.
Qed.

Lemma for_tags_fields items : ∀ parsed_data parsed_data',
  for_tags items parsed_data = Ok parsed_data' →
  photo_record parsed_data → photo_record parsed_data'.
Proof.
  induction items as [|[tag_id value] items IH]; intros p p' Hf Hp.
  - now injection Hf as <-.
  - cbn [for_tags] in Hf.
    destruct (handle_tag p tag_id value) as [q|] eqn:Hq; [|discriminate].
    cbn [mbind result_bind] in Hf.
    eapply IH; [exact Hf|]. now apply handle_tag_fields with p tag_id value.
Qed.

Lemma extract_exif_fields fs image_path r :
  (extract_exif fs image_path).1 = Some r → photo_record r.
Proof.
  intros Hr. apply extract_exif_record, extract_exif_body_record in Hr
    as (image & items & st_size & file_size & p & _ & _ & _ & _ & Hf & ->).
  do 3 (apply photo_record_insert; [apply (bool_decide_unpack _); exact I|]).
  eapply for_tags_fields; [exact Hf|].
  do 2 (apply photo_record_insert; [apply (bool_decide_unpack _); exact I|]).
  intros k Hk.
  destruct (decide (k = "filename"%string)) as [->|Hne];
    [apply (bool_decide_unpack _); exact I|].
  rewrite lookup_singleton_ne in Hk by congruence. now destruct Hk.
Qed.

(** The records of a scan have no column beyond the fields of
    [extract_exif]; in particular none of the derived columns. *)
Lemma scanned_records_columns fs files c :
  c ∉ record_fields →
  has_column c (omap (λ f, (extract_exif fs f).1) files) = false.
Proof.
  intros Hc. induction files as [|f files IH]; [reflexivity|].
  cbn [omap list_omap]. fold (omap (λ f, (extract_exif fs f).1) files).
  destruct (extract_exif fs f).1 as [r|] eqn:Hr; [|exact IH].
  cbn [has_column existsb]. fold (has_column c (omap (λ f, (extract_exif fs f).1) files)).
  rewrite IH, orb_false_r. apply bool_decide_eq_false.
  intros Hk. apply Hc. now apply (extract_exif_fields fs f r).
Qed.

End Records.

Lemma gps_both_or_neither_witness :
  ∃ r, (@extract_exif bare_runtime sample_fs "/photos/trip/b.JPG").1 = Some r
       ∧ gps_paired r
       ∧ r !! "latitude"%string = None ∧ r !! "longitude"%string = None.
Proof.
  assert (Hs : is_Some (@extract_exif bare_runtime sample_fs "/photos/trip/b.JPG").1).
  { apply (bool_decide_unpack _). vm_compute. exact I. }
  destruct Hs as [r Hr].
  exists r. split; [exact Hr|].
  destruct (@gps_both_or_neither bare_runtime sample_fs _ r Hr) as [Hp Hn].
  split; [exact Hp|]. apply Hn.
  intros image items value Ho He Hv.
  injection Ho as <-. injection He as <-.
  apply list_elem_of_In in Hv. simpl in Hv.
  destruct Hv as [Hv|[Hv|[]]]; [discriminate|].
  injection Hv as <-. right. vm_compute. reflexivity.
Defined.

(** ** The scan *)

Section Scan.
Context `{Runtime}.

Lemma extract_exif_nonempty fs image_path r :
  (extract_exif fs image_path).1 = Some r → r ≠ ∅.
Proof.
  intros Hr. apply extract_exif_record, extract_exif_body_record in Hr
    as (image & items & st_size & file_size & p & _ & _ & _ & _ & _ & ->).
  apply insert_non_empty.
Qed.

Lemma extract_all_records fs files : ∀ data out,
  (extract_all fs files data out).1
  = data ++ omap (λ f, (extract_exif fs f).1) files.
Proof.
  induction files as [|f files IH]; intros data out; cbn [extract_all omap list_omap].
  - now rewrite app_nil_r.
  - destruct (extract_exif fs f) as [[r|] msgs] eqn:Hf; cbn [fst].
    + destruct (decide (r = ∅)) as [->|_].
      * exfalso. eapply extract_exif_nonempty; [|reflexivity].
        now rewrite Hf.
      * rewrite IH. now rewrite <- app_assoc.
    + apply IH.
Qed.


(** C10: a call of [scan_folder] on an existing folder returns, and stores
    in [photos_data], exactly the records extracted from the image files of
    that call, whatever the analyzer held before. *)
Theorem scan_replaces_records fs folder_path recursive self out :
  fs_exists fs folder_path = true →
  ∃ out',
    scan_folder fs folder_path recursive self out
    = (Ok (omap (λ f, (extract_exif fs f).1)
             (image_files fs folder_path recursive)),
       {| photos_data :=
            omap (λ f, (extract_exif fs f).1)
              (image_files fs folder_path recursive) |},
       out').
Proof.
  intros He. unfold scan_folder. rewrite He. cbn [negb].
  pose proof (extract_all_records fs (image_files fs folder_path recursive) []
                (out ++ [Found (length (image_files fs folder_path recursive))]))
    as Hr.
  destruct (extract_all fs _ [] _) as [data out']. cbn [fst app] in Hr.
  subst data. eauto.
Qed.

End Scan.


Lemma scan_replaces_records_witness :
  (∃ out',
    @scan_folder bare_runtime sample_fs "/photos" true
      {| photos_data := [{["filename"%string := FStr "old.jpg"]}] |} []
    = (Ok (omap (λ f, (@extract_exif bare_runtime sample_fs f).1)
             (image_files sample_fs "/photos" true)),
       {| photos_data :=
            omap (λ f, (@extract_exif bare_runtime sample_fs f).1)
              (image_files sample_fs "/photos" true) |},
       out'))
  ∧ (λ r : record, r !! "filename"%string)
      <$> omap (λ f, (@extract_exif bare_runtime sample_fs f).1)
            (image_files sample_fs "/photos" true)
    = [Some (FStr "a.jpg"); Some (FStr "b.JPG")].
Proof.
  split.
  - apply (@scan_replaces_records bare_runtime sample_fs "/photos" true).
    reflexivity.
  - vm_compute. reflexivity.
Defined.

(** ** Reports on an empty table *)

Section EmptyInput.
Context `{Pandas}.

(** C2, as the code has it: built from no records, every table report is the
    empty table and every mapping report the empty mapping, except the
    summary report, which is the mapping of the four counters, all 0. *)
Theorem empty_input_reports :
  let self := DataProcessor.__init__ [] in
  DataProcessor.get_camera_usage self = []
  ∧ DataProcessor.get_lens_usage self = []
  ∧ DataProcessor.get_iso_distribution self = []
  ∧ DataProcessor.get_aperture_distribution self = []
  ∧ DataProcessor.get_focal_length_distribution self = []
  ∧ (∀ freq, DataProcessor.get_shooting_timeline self freq = Ok [])
  ∧ DataProcessor.get_time_of_day_distribution self = []
  ∧ DataProcessor.get_day_of_week_distribution self = []
  ∧ DataProcessor.get_orientation_stats self = []
  ∧ DataProcessor.get_flash_usage_stats self = []
  ∧ DataProcessor.get_gps_photos self = Ok []
  ∧ DataProcessor.get_summary_report self
    = Ok [("total_photos", RInt 0); ("unique_cameras", RInt 0);
          ("unique_lenses", RInt 0); ("photos_with_gps", RInt 0)]%string.
Proof.
  cbv zeta.
  split; [reflexivity|]. split; [reflexivity|]. split; [reflexivity|].
  split; [reflexivity|]. split; [reflexivity|]. split; [intros freq; reflexivity|].
  split; [reflexivity|]. split; [reflexivity|]. split; [reflexivity|].
  split; [reflexivity|]. split; reflexivity.
Qed.

End EmptyInput.

(** C2, as the specification words it, fails on the summary report: built
    from no records it is a mapping with four entries, not the empty one. *)
Lemma summary_report_not_empty_counterexample :
  DataProcessor.get_summary_report (DataProcessor.__init__ []) ≠ Ok [].
Proof. vm_compute. discriminate. Qed.

(** ** Counting *)

Section CountingFacts.
Context {K : Type} (eqb : K → K → bool).
Hypothesis eqb_eq : ∀ x y, eqb x y = true ↔ x = y.

Lemma eqb_refl x : eqb x x = true.
Proof. now apply eqb_eq. Qed.

Lemma eqb_neq x y : eqb x y = false ↔ x ≠ y.
Proof.
  destruct (eqb x y) eqn:E.
  - apply eqb_eq in E. split; [discriminate|congruence].
  - split; [|reflexivity]. intros _ Hxy. apply eqb_eq in Hxy. congruence.
Qed.

Lemma classic_elem (k : K) (l : list K) : k ∈ l ∨ k ∉ l.
Proof.
  induction l as [|x l [IH|IH]].
  - right. apply not_elem_of_nil.
  - left. now right.
  - destruct (eqb x k) eqn:E.
    + apply eqb_eq in E as ->. left. now left.
    + apply eqb_neq in E. right. apply not_elem_of_cons. split; congruence.
Qed.

Lemma count_key_nonneg k l : 0 <= count_key eqb k l.
Proof. induction l as [|x l IH]; simpl; [lia|]. destruct (eqb x k); lia. Qed.

Lemma count_key_absent k l : k ∉ l → count_key eqb k l = 0.
Proof.
  induction l as [|x l IH]; intros Hk; simpl; [reflexivity|].
  apply not_elem_of_cons in Hk as [Hkx Hkl].
  assert (eqb x k = false) as -> by (apply eqb_neq; congruence).
  now rewrite IH.
Qed.

Lemma elem_of_List_filter (f : K → bool) x l :
  x ∈ List.filter f l ↔ f x = true ∧ x ∈ l.
Proof. rewrite !list_elem_of_In, filter_In. tauto. Qed.

Lemma elem_of_uniques x l : x ∈ uniques eqb l ↔ x ∈ l.
Proof.
  induction l as [|y l IH]; simpl; [reflexivity|].
  rewrite !elem_of_cons, elem_of_List_filter, IH.
  split.
  - intros [->|[_ Hx]]; eauto.
  - intros [->|Hx]; [eauto|].
    destruct (eqb y x) eqn:E; [apply eqb_eq in E; eauto|].
    right. now split.
Qed.

Lemma NoDup_uniques l : NoDup (uniques eqb l).
Proof.
  induction l as [|y l IH]; simpl; constructor.
  - rewrite elem_of_List_filter. cbn beta. intros [Hy _]. now rewrite eqb_refl in Hy.
  - now apply NoDup_ListNoDup, List.NoDup_filter, NoDup_ListNoDup.
Qed.

(** Looking a key up in a table whose keys are distinct. *)
Lemma get_count_insert_desc k x t :
  x.1 ∉ t.*1 →
  get_count eqb k (insert_desc x t) = get_count eqb k (x :: t).
Proof.
  induction t as [|y t IH]; intros Hx; [reflexivity|].
  apply not_elem_of_cons in Hx as [Hxy Hxt].
  cbn [insert_desc]. destruct (x.2 <? y.2); [|reflexivity].
  destruct x as [kx nx], y as [ky ny]. cbn [get_count] in *.
  rewrite IH by assumption. cbn [get_count fst] in *.
  destruct (eqb ky k) eqn:Ey, (eqb kx k) eqn:Ex; try reflexivity.
  apply eqb_eq in Ey, Ex. congruence.
Qed.

Lemma keys_insert_desc (x : K * Z) (t : list (K * Z)) :
  (insert_desc x t).*1 ≡ₚ x.1 :: t.*1.
Proof.
  induction t as [|y t IH]; [reflexivity|].
  cbn [insert_desc]. destruct (x.2 <? y.2); [|reflexivity].
  cbn [fmap list_fmap]. rewrite IH. apply Permutation_swap.
Qed.

Lemma keys_sort_desc (t : list (K * Z)) :
  (foldr insert_desc [] t).*1 ≡ₚ t.*1.
Proof.
  induction t as [|x t IH]; [reflexivity|].
  cbn [foldr]. rewrite keys_insert_desc. now rewrite IH.
Qed.

Lemma get_count_sort_desc k t :
  NoDup t.*1 → get_count eqb k (foldr insert_desc [] t) = get_count eqb k t.
Proof.
  induction t as [|x t IH]; intros Hd; [reflexivity|].
  apply NoDup_cons in Hd as [Hx Hd]. cbn [foldr].
  rewrite get_count_insert_desc by now rewrite keys_sort_desc.
  destruct x as [kx nx]. cbn [get_count]. now rewrite IH.
Qed.

Lemma keys_counts l : (counts eqb l).*1 = uniques eqb l.
Proof.
  unfold counts. rewrite <- list_fmap_compose.
  induction (uniques eqb l) as [|x u IH]; [reflexivity|].
  cbn [fmap list_fmap]. f_equal. exact IH.
Qed.

Lemma get_count_table_absent k (f : K → Z) u :
  k ∉ u → get_count eqb k ((λ x, (x, f x)) <$> u) = 0.
Proof.
  induction u as [|x u IH]; intros Hk; [reflexivity|].
  apply not_elem_of_cons in Hk as [Hkx Hku].
  cbn [fmap list_fmap get_count]. fold (fmap (M:=list) (λ x, (x, f x)) u).
  assert (eqb x k = false) as -> by (apply eqb_neq; congruence).
  now apply IH.
Qed.

Lemma get_count_table_present k (f : K → Z) u :
  k ∈ u → get_count eqb k ((λ x, (x, f x)) <$> u) = f k.
Proof.
  induction u as [|x u IH]; intros Hk; [now apply elem_of_nil in Hk|].
  cbn [fmap list_fmap get_count]. fold (fmap (M:=list) (λ x, (x, f x)) u).
  destruct (eqb x k) eqn:E; [now apply eqb_eq in E as ->|].
  apply eqb_neq in E. apply elem_of_cons in Hk as [->|Hk]; [congruence|].
  now apply IH.
Qed.

Lemma count_key_present k l : k ∈ l → 0 < count_key eqb k l.
Proof.
  induction l as [|x l IH]; intros Hk; [now apply elem_of_nil in Hk|].
  simpl. pose proof (count_key_nonneg k l).
  destruct (eqb x k) eqn:E; [lia|].
  apply eqb_neq in E. apply elem_of_cons in Hk as [->|Hk]; [congruence|].
  apply IH in Hk. lia.
Qed.

(** [value_counts] holds, for every value, the number of its occurrences. *)
Lemma get_count_value_counts k l :
  get_count eqb k (value_counts eqb l) = count_key eqb k l.
Proof.
  unfold value_counts.
  rewrite get_count_sort_desc by (rewrite keys_counts; apply NoDup_uniques).
  unfold counts.
  destruct (count_key eqb k l =? 0) eqn:E.
  - apply Z.eqb_eq in E. rewrite E. apply get_count_table_absent.
    rewrite elem_of_uniques. intros Hk. apply count_key_present in Hk. lia.
  - apply Z.eqb_neq in E. apply get_count_table_present.
    rewrite elem_of_uniques.
    destruct (classic_elem k l) as [Hk|Hk]; [exact Hk|].
    now apply count_key_absent in Hk.
Qed.

Lemma reindex_value_counts order l :
  reindex eqb order (value_counts eqb l)
  = (λ k, (k, count_key eqb k l)) <$> order.
Proof.
  unfold reindex. apply list_fmap_ext. intros i k _.
  now rewrite get_count_value_counts.
Qed.

End CountingFacts.

(** ** Distributions over the time of day and the day of the week *)

Lemma has_column_not_empty c df : has_column c df = true → empty df = false.
Proof.
  induction df as [|r df IH]; [discriminate|].
  cbn [has_column existsb empty forallb]. intros Hc.
  apply orb_true_iff in Hc as [Hr|Hc].
  - apply bool_decide_eq_true in Hr as [x Hx].
    rewrite bool_decide_eq_false_2; [reflexivity|].
    intros ->. now rewrite lookup_empty in Hx.
  - apply IH in Hc. unfold empty in Hc. rewrite Hc. apply andb_false_r.
Qed.

Lemma process_data_dated photos :
  has_column "datetime" photos = true →
  DataProcessor.process_data photos = DataProcessor.date_columns <$> photos.
Proof.
  intros Hc. unfold DataProcessor.process_data.
  now rewrite (has_column_not_empty _ _ Hc), Hc.
Qed.

Lemma process_data_undated photos :
  has_column "datetime" photos = false →
  DataProcessor.process_data photos = photos.
Proof.
  intros Hc. unfold DataProcessor.process_data. rewrite Hc.
  now destruct (empty photos).
Qed.

Lemma has_column_fmap c (f : record → record) photos :
  photos ≠ [] → (∀ r, is_Some (f r !! c)) → has_column c (f <$> photos) = true.
Proof.
  destruct photos as [|r photos]; [congruence|]. intros _ Hf.
  cbn [fmap list_fmap has_column existsb].
  now rewrite bool_decide_eq_true_2.
Qed.

Lemma column_fmap {A} (read : fval → option A) c (f : record → record) photos :
  column read c (f <$> photos) = omap (λ r, read (cell c (f r))) photos.
Proof.
  unfold column. induction photos as [|r photos IH]; [reflexivity|].
  cbn [fmap list_fmap omap list_omap]. fold (fmap (M:=list) f photos).
  now rewrite IH.
Qed.

Lemma omap_ext_all {A B} (f g : A → option B) (l : list A) :
  (∀ x, f x = g x) → omap f l = omap g l.
Proof.
  intros Hfg. induction l as [|x l IH]; [reflexivity|].
  cbn [omap list_omap]. fold (omap f l) (omap g l). now rewrite Hfg, IH.
Qed.

Lemma omap_Some {A B} (f : A → B) (l : list A) : omap (λ x, Some (f x)) l = f <$> l.
Proof. induction l as [|x l IH]; [reflexivity|]. cbn. now rewrite IH. Qed.

Lemma time_of_day_column photos :
  column read_str "time_of_day" (DataProcessor.date_columns <$> photos)
  = time_of_day_of <$> photos.
Proof.
  rewrite column_fmap, <- omap_Some. apply omap_ext_all.
  intros r. unfold cell, DataProcessor.date_columns.
  now rewrite lookup_insert_eq.
Qed.

Lemma day_of_week_column photos :
  column read_str "day_of_week" (DataProcessor.date_columns <$> photos)
  = omap day_of photos.
Proof.
  rewrite column_fmap. apply omap_ext_all.
  intros r. unfold cell, DataProcessor.date_columns, day_of.
  rewrite lookup_insert_ne, lookup_insert_ne, lookup_insert_eq by discriminate.
  cbn [default]. fold (cell "datetime" r).
  now destruct (read_time (cell "datetime" r)).
Qed.

(** C3, as the code has it: when some record carries the [datetime] field,
    [get_time_of_day_distribution] has exactly the six rows Early Morning,
    Morning, Afternoon, Golden Hour, Evening, Night, in this order, each
    with the number of records of that category (0 when there is none), and
    [get_day_of_week_distribution] has exactly the seven rows Monday to
    Sunday with the number of records dated on that day; when no record
    carries the field (nor a column of the derived names) both are the
    empty table. *)
Theorem time_and_day_distributions (photos : list record) :
  let self := DataProcessor.__init__ photos in
  (has_column "datetime" photos = true →
     DataProcessor.get_time_of_day_distribution self
     = (λ label, (label, count_key String.eqb label (time_of_day_of <$> photos)))
         <$> DataProcessor.time_order
     ∧ DataProcessor.get_day_of_week_distribution self
       = (λ day, (day, count_key String.eqb day (omap day_of photos)))
           <$> day_order
     ∧ length (DataProcessor.get_time_of_day_distribution self) = 6%nat
     ∧ length (DataProcessor.get_day_of_week_distribution self) = 7%nat)
  ∧ (has_column "datetime" photos = false →
     has_column "time_of_day" photos = false →
     has_column "day_of_week" photos = false →
     DataProcessor.get_time_of_day_distribution self = []
     ∧ DataProcessor.get_day_of_week_distribution self = []).
Proof.
  cbv zeta. split.
  - intros Hc.
    assert (Hne : photos ≠ []) by (intros ->; discriminate).
    assert (Htod : DataProcessor.get_time_of_day_distribution
                     (DataProcessor.__init__ photos)
                   = (λ label, (label, count_key String.eqb label
                                         (time_of_day_of <$> photos)))
                       <$> DataProcessor.time_order).
    { unfold DataProcessor.get_time_of_day_distribution, DataProcessor.__init__.
      cbn [DataProcessor.df]. rewrite process_data_dated by assumption.
      rewrite has_column_fmap; [|assumption|].
      2:{ intros r. unfold DataProcessor.date_columns.
          rewrite lookup_insert_eq. eauto. }
      cbn [negb]. rewrite time_of_day_column.
      apply reindex_value_counts, String.eqb_eq. }
    assert (Hdow : DataProcessor.get_day_of_week_distribution
                     (DataProcessor.__init__ photos)
                   = (λ day, (day, count_key String.eqb day (omap day_of photos)))
                       <$> day_order).
    { unfold DataProcessor.get_day_of_week_distribution, DataProcessor.__init__.
      cbn [DataProcessor.df]. rewrite process_data_dated by assumption.
      rewrite has_column_fmap; [|assumption|].
      2:{ intros r. unfold DataProcessor.date_columns.
          rewrite lookup_insert_ne, lookup_insert_ne, lookup_insert_eq by discriminate.
          eauto. }
      cbn [negb]. rewrite day_of_week_column.
      apply reindex_value_counts, String.eqb_eq. }
    split; [exact Htod|]. split; [exact Hdow|].
    rewrite Htod, Hdow. split; reflexivity.
  - intros Hc Ht Hd.
    unfold DataProcessor.get_time_of_day_distribution,
      DataProcessor.get_day_of_week_distribution, DataProcessor.__init__.
    cbn [DataProcessor.df]. rewrite process_data_undated by assumption.
    now rewrite Ht, Hd.
Qed.

Lemma time_and_day_distributions_witness :
  DataProcessor.get_time_of_day_distribution (DataProcessor.__init__ [dated_photo])
  = [("Early Morning", 1); ("Morning", 0); ("Afternoon", 0);
     ("Golden Hour", 0); ("Evening", 0); ("Night", 0)]%string
  ∧ DataProcessor.get_day_of_week_distribution (DataProcessor.__init__ [dated_photo])
    = [("Monday", 0); ("Tuesday", 0); ("Wednesday", 0); ("Thursday", 1);
       ("Friday", 0); ("Saturday", 0); ("Sunday", 0)]%string
  ∧ DataProcessor.get_time_of_day_distribution (DataProcessor.__init__ sample_photos) = [].
Proof.
  destruct (time_and_day_distributions [dated_photo]) as [Hdated _].
  destruct (time_and_day_distributions sample_photos) as [_ Hundated].
  destruct (Hdated eq_refl) as (Htod & Hdow & _).
  destruct (Hundated eq_refl eq_refl eq_refl) as [Hnone _].
  split; [rewrite Htod; vm_compute; reflexivity|].
  split; [rewrite Hdow; vm_compute; reflexivity|exact Hnone].
Defined.

(** C3, as the specification words it, fails on the two records of the
    sample scan, which carry no date: both distributions have no row. *)
Lemma distributions_without_dates_counterexample :
  length sample_photos = 2%nat
  ∧ length (DataProcessor.get_time_of_day_distribution
              (DataProcessor.__init__ sample_photos)) = 0%nat
  ∧ length (DataProcessor.get_day_of_week_distribution
              (DataProcessor.__init__ sample_photos)) = 0%nat.
Proof. split; [|split]; vm_compute; reflexivity. Qed.

(** ** Usage percentages *)

Section Totals.
Context {K : Type} (eqb : K → K → bool).
Hypothesis eqb_eq : ∀ x y, eqb x y = true ↔ x = y.

Lemma sum_fmap_add (f g : K → Z) u :
  DataProcessor.sum ((λ k, f k + g k) <$> u)
  = DataProcessor.sum (f <$> u) + DataProcessor.sum (g <$> u).
Proof.
  induction u as [|x u IH]; [reflexivity|].
  cbn [fmap list_fmap DataProcessor.sum foldr] in *.
  unfold DataProcessor.sum in IH. rewrite IH. lia.
Qed.

Lemma sum_indicator_absent x u :
  x ∉ u → DataProcessor.sum ((λ k, if eqb x k then 1 else 0) <$> u) = 0.
Proof.
  induction u as [|y u IH]; intros Hx; [reflexivity|].
  apply not_elem_of_cons in Hx as [Hxy Hxu].
  cbn [fmap list_fmap DataProcessor.sum foldr].
  assert (eqb x y = false) as -> by now apply (eqb_neq eqb eqb_eq).
  apply IH in Hxu. unfold DataProcessor.sum in Hxu. rewrite Hxu. reflexivity.
Qed.

Lemma sum_indicator_present x u :
  NoDup u → x ∈ u →
  DataProcessor.sum ((λ k, if eqb x k then 1 else 0) <$> u) = 1.
Proof.
  induction 1 as [|y u Hy Hd IH]; intros Hx; [now apply elem_of_nil in Hx|].
  cbn [fmap list_fmap DataProcessor.sum foldr].
  destruct (eqb x y) eqn:E.
  - apply eqb_eq in E as ->.
    pose proof (sum_indicator_absent y u Hy) as H0.
    unfold DataProcessor.sum in H0. rewrite H0. reflexivity.
  - apply (eqb_neq eqb eqb_eq) in E.
    apply elem_of_cons in Hx as [->|Hx]; [congruence|].
    apply IH in Hx. unfold DataProcessor.sum in Hx. rewrite Hx. reflexivity.
Qed.

Lemma sum_count_key u l :
  NoDup u → (∀ x, x ∈ l → x ∈ u) →
  DataProcessor.sum ((λ k, count_key eqb k l) <$> u) = Z.of_nat (length l).
Proof.
  intros Hd. induction l as [|x l IH]; intros Hl.
  - clear Hd Hl. cbn [count_key length].
    induction u as [|y u IHu]; [reflexivity|].
    cbn [fmap list_fmap DataProcessor.sum foldr].
    unfold DataProcessor.sum in IHu. rewrite IHu. reflexivity.
  - cbn [count_key]. rewrite sum_fmap_add.
    rewrite sum_indicator_present; [|assumption|apply Hl; now left].
    rewrite IH by (intros y Hy; apply Hl; now right).
    cbn [length]. lia.
Qed.

Lemma sum_insert_desc (x : K * Z) t :
  DataProcessor.sum (insert_desc x t).*2 = x.2 + DataProcessor.sum t.*2.
Proof.
  induction t as [|y t IH]; [reflexivity|].
  cbn [insert_desc]. destruct (x.2 <? y.2); [|reflexivity].
  cbn [fmap list_fmap DataProcessor.sum foldr] in *.
  unfold DataProcessor.sum in IH. rewrite IH. lia.
Qed.

Lemma sum_sort_desc (t : list (K * Z)) :
  DataProcessor.sum (foldr insert_desc [] t).*2 = DataProcessor.sum t.*2.
Proof.
  induction t as [|x t IH]; [reflexivity|].
  cbn [foldr]. rewrite sum_insert_desc, IH. reflexivity.
Qed.

(** The counts of [value_counts] add up to the number of present cells. *)
Lemma sum_value_counts l :
  DataProcessor.sum (value_counts eqb l).*2 = Z.of_nat (length l).
Proof.
  unfold value_counts. rewrite sum_sort_desc. unfold counts.
  rewrite <- list_fmap_compose.
  apply sum_count_key; [now apply NoDup_uniques|].
  intros x Hx. now apply elem_of_uniques.
Qed.

Lemma sort_desc_perm (t : list (K * Z)) : foldr insert_desc [] t ≡ₚ t.
Proof.
  assert (Hi : ∀ (x : K * Z) t, insert_desc x t ≡ₚ x :: t).
  { intros x u. induction u as [|y u IH]; [reflexivity|].
    cbn [insert_desc]. destruct (x.2 <? y.2); [|reflexivity].
    rewrite IH. apply Permutation_swap. }
  induction t as [|x t IH]; [reflexivity|].
  cbn [foldr]. now rewrite Hi, IH.
Qed.

Lemma elem_of_value_counts k n l :
  (k, n) ∈ value_counts eqb l → n = count_key eqb k l.
Proof.
  unfold value_counts. rewrite sort_desc_perm. unfold counts.
  intros Hk. apply list_elem_of_fmap in Hk as (k' & [= -> ->] & _).
  reflexivity.
Qed.

End Totals.

(** Sums of two columns whose entries are near each other. *)
Lemma Qsum_near {A} (f g : A → Q) (c : Q) (l : list A) :
  (∀ x, x ∈ l → (Qabs (f x - g x) <= c)%Q) →
  (Qabs (Qsum (f <$> l) - Qsum (g <$> l))
   <= inject_Z (Z.of_nat (length l)) * c)%Q.
Proof.
  intros Hl. apply Qabs_Qle_condition.
  induction l as [|x l IH].
  - cbn [fmap list_fmap Qsum foldr length].
    change (inject_Z (Z.of_nat 0)) with 0%Q. split; lra.
  - cbn [fmap list_fmap Qsum foldr length].
    fold (fmap (M:=list) f l) (fmap (M:=list) g l).
    fold (Qsum (f <$> l)) (Qsum (g <$> l)).
    rewrite Nat2Z.inj_succ. unfold Z.succ. rewrite inject_Z_plus.
    pose proof (Hl x ltac:(left)) as Hx. apply Qabs_Qle_condition in Hx.
    assert (IH' : ∀ y, y ∈ l → (Qabs (f y - g y) <= c)%Q)
      by (intros y Hy; apply Hl; now right).
    specialize (IH IH').
    change (inject_Z 1) with 1%Q. lra.
Qed.

Lemma Qsum_scale (ns : list Z) (L : Q) :
  (Qsum ((λ n, inject_Z n / L * 100) <$> ns)
   == inject_Z (DataProcessor.sum ns) / L * 100)%Q.
Proof.
  induction ns as [|n ns IH].
  - cbn. unfold Qdiv. ring.
  - cbn [fmap list_fmap Qsum foldr DataProcessor.sum].
    fold (fmap (M:=list) (λ n, (inject_Z n / L * 100)%Q) ns).
    fold (Qsum ((λ n, (inject_Z n / L * 100)%Q) <$> ns)).
    fold (DataProcessor.sum ns).
    rewrite IH, inject_Z_plus. unfold Qdiv. ring.
Qed.

Lemma lookup_date_columns c r :
  c ∉ derived_names → DataProcessor.date_columns r !! c = r !! c.
Proof.
  intros Hc. unfold DataProcessor.date_columns.
  rewrite !lookup_insert_ne; [reflexivity|..];
    intros <-; apply Hc; apply (bool_decide_unpack _); exact I.
Qed.

Lemma has_column_process_data c photos :
  c ∉ derived_names →
  has_column c (DataProcessor.process_data photos) = has_column c photos.
Proof.
  intros Hc. unfold DataProcessor.process_data.
  destruct (empty photos); [reflexivity|].
  destruct (has_column "datetime" photos); [|reflexivity].
  unfold has_column. induction photos as [|r photos IH]; [reflexivity|].
  cbn [fmap list_fmap existsb]. fold (fmap (M:=list) DataProcessor.date_columns photos).
  now rewrite IH, lookup_date_columns.
Qed.

Lemma column_process_data {A} (read : fval → option A) c photos :
  c ∉ derived_names →
  column read c (DataProcessor.process_data photos) = column read c photos.
Proof.
  intros Hc. unfold DataProcessor.process_data.
  destruct (empty photos); [reflexivity|].
  destruct (has_column "datetime" photos); [|reflexivity].
  rewrite column_fmap. apply omap_ext_all. intros r.
  unfold cell. now rewrite lookup_date_columns.
Qed.

Lemma length_process_data photos :
  length (DataProcessor.process_data photos) = length photos.
Proof.
  unfold DataProcessor.process_data.
  destruct (empty photos); [reflexivity|].
  destruct (has_column "datetime" photos); [|reflexivity].
  apply length_fmap.
Qed.

Lemma column_absent {A} (read : fval → option A) c photos :
  read FNone = None → has_column c photos = false → column read c photos = [].
Proof.
  intros Hn. unfold has_column, column.
  induction photos as [|r photos IH]; [reflexivity|].
  cbn [existsb omap list_omap]. intros Hc.
  apply orb_false_iff in Hc as [Hr Hc].
  apply bool_decide_eq_false in Hr.
  unfold cell. destruct (r !! c) eqn:E; [exfalso; apply Hr; eauto|].
  cbn [default]. rewrite Hn. now apply IH.
Qed.

Section Ranking.
Context {K : Type} (eqb : K → K → bool).
Hypothesis eqb_eq : ∀ x y, eqb x y = true ↔ x = y.

Lemma insert_desc_perm (x : K * Z) t : insert_desc x t ≡ₚ x :: t.
Proof.
  induction t as [|y t IH]; [reflexivity|]. cbn [insert_desc].
  destruct (x.2 <? y.2); [|reflexivity].
  rewrite IH. apply perm_swap.
Qed.

Lemma insert_desc_sorted (x : K * Z) t :
  StronglySorted (λ a b : K * Z, b.2 <= a.2) t →
  StronglySorted (λ a b : K * Z, b.2 <= a.2) (insert_desc x t).
Proof.
  induction 1 as [|y t Ht IH Hy]; cbn [insert_desc].
  - repeat constructor.
  - destruct (Z.ltb_spec x.2 y.2) as [Hlt|Hge].
    + constructor; [exact IH|].
      rewrite insert_desc_perm. constructor; [lia|exact Hy].
    + constructor; [now constructor|].
      constructor; [lia|]. eapply Forall_impl; [exact Hy|].
      cbn. intros; lia.
Qed.

Lemma sort_desc_sorted (t : list (K * Z)) :
  StronglySorted (λ a b : K * Z, b.2 <= a.2) (foldr insert_desc [] t).
Proof.
  induction t as [|x t IH]; cbn [foldr]; [constructor|].
  now apply insert_desc_sorted.
Qed.

Lemma value_counts_keys l : (value_counts eqb l).*1 ≡ₚ uniques eqb l.
Proof.
  unfold value_counts. now rewrite keys_sort_desc, keys_counts.
Qed.

Lemma value_counts_NoDup l : NoDup (value_counts eqb l).*1.
Proof. rewrite value_counts_keys. now apply NoDup_uniques. Qed.

Lemma value_counts_key k l : k ∈ (value_counts eqb l).*1 ↔ k ∈ l.
Proof. rewrite value_counts_keys. now apply elem_of_uniques. Qed.

Lemma count_key_le k (l : list K) : count_key eqb k l <= Z.of_nat (length l).
Proof.
  induction l as [|x l IH]; cbn [count_key length]; [lia|].
  destruct (eqb x k); lia.
Qed.

Lemma value_counts_row k n l :
  (k, n) ∈ value_counts eqb l →
  n = count_key eqb k l ∧ 1 <= n <= Z.of_nat (length l).
Proof.
  intros Hin. pose proof Hin as Hn.
  apply (elem_of_value_counts eqb) in Hn; try exact eqb_eq. subst n.
  split; [reflexivity|]. split; [|apply count_key_le].
  assert (Hk : k ∈ l).
  { apply value_counts_key. apply list_elem_of_fmap. now exists (k, count_key eqb k l). }
  apply (count_key_present eqb) in Hk; try exact eqb_eq. lia.
Qed.

End Ranking.

Lemma length_column {A} (read : fval → option A) c photos :
  (length (column read c photos) ≤ length photos)%nat.
Proof.
  unfold column. induction photos as [|r photos IH]; cbn [omap list_omap length].
  - lia.
  - destruct (read (cell c r)); cbn [length]; lia.
Qed.

Lemma usage_rows c photos :
  c ∉ derived_names →
  DataProcessor.usage c (DataProcessor.__init__ photos)
  = (λ kn : string * Z, (kn.1, kn.2, percent kn.2 (Z.of_nat (length photos))))
      <$> value_counts String.eqb (column read_str c photos).
Proof.
  intros Hc.
  unfold DataProcessor.usage, DataProcessor.percentage, DataProcessor.len,
    DataProcessor.__init__.
  cbn [DataProcessor.df].
  rewrite has_column_process_data, column_process_data, length_process_data
    by assumption.
  destruct (has_column c photos) eqn:Hh; [reflexivity|].
  now rewrite column_absent.
Qed.

(** C4, as the code has it: each row of [get_camera_usage] holds a camera
    model, the number of records with that model and that number divided by
    the number of all records, times 100, rounded to one decimal, all in
    binary64: the percentage is the float quotient of a whole number of
    tenths, between 0 and 1000, by 10 (or zero), and is within 0.05, up to
    [2^-40], of the exact percentage.  The counts add up to the number of
    records that have a camera model, so the percentages add up to 100
    times the share of such records, within that distance per row; they add
    up to 100.0 within that tolerance when every record has a camera
    model. *)
Theorem camera_usage_percentages (photos : list record) :
  Z.of_nat (length photos) < 2 ^ 53 →
  let rows := DataProcessor.get_camera_usage (DataProcessor.__init__ photos) in
  let models := column read_str "camera_model" photos in
  let total := Z.of_nat (length photos) in
  let share := λ n : Z, (inject_Z n / inject_Z total * 100)%Q in
  let slack := ((1 # 20) + (1 # 1099511627776))%Q in
  (∀ camera n p, (camera, n, p) ∈ rows →
     n = count_key String.eqb camera models
     ∧ p = np_round1
             (F64.mul (F64.div (F64.of_Z n) (F64.of_Z total)) (F64.of_Z 100))
     ∧ (∃ k, 0 <= k <= 1000
          ∧ p = (if k =? 0 then S754_zero false
                 else F64.div (F64.of_Z k) (F64.of_Z 10))
          ∧ (Qabs (F64.to_Q p - inject_Z k / 10) <= 1 # 1099511627776)%Q)
     ∧ (Qabs (F64.to_Q p - share n) <= slack)%Q)
  ∧ DataProcessor.sum rows.*1.*2 = Z.of_nat (length models)
  ∧ (Qabs (Qsum (F64.to_Q <$> rows.*2) - share (Z.of_nat (length models)))
     <= inject_Z (Z.of_nat (length rows)) * slack)%Q
  ∧ (photos ≠ [] → length models = length photos →
     (Qabs (Qsum (F64.to_Q <$> rows.*2) - 100)
      <= inject_Z (Z.of_nat (length rows)) * slack)%Q).
Proof.
  intros Hsize. cbv zeta.
  set (models := column read_str "camera_model" photos).
  set (total := Z.of_nat (length photos)).
  set (share := λ n : Z, (inject_Z n / inject_Z total * 100)%Q).
  set (slack := ((1 # 20) + (1 # 1099511627776))%Q).
  unfold DataProcessor.get_camera_usage.
  rewrite usage_rows by (apply (bool_decide_eq_false_1 _); reflexivity).
  fold models total.
  set (counts := value_counts String.eqb models).
  assert (Hcounts :
    ((λ kn : string * Z, (kn.1, kn.2, percent kn.2 total)) <$> counts).*1.*2
    = counts.*2).
  { rewrite <- !list_fmap_compose. apply list_fmap_ext. now intros i [k n] _. }
  assert (Hpcts :
    F64.to_Q <$> ((λ kn : string * Z, (kn.1, kn.2, percent kn.2 total))
                    <$> counts).*2
    = (λ n, F64.to_Q (percent n total)) <$> counts.*2).
  { rewrite <- !list_fmap_compose. apply list_fmap_ext. now intros i [k n] _. }
  assert (Hsum : DataProcessor.sum counts.*2 = Z.of_nat (length models))
    by apply sum_value_counts, String.eqb_eq.
  assert (Hlen : (length models ≤ length photos)%nat) by apply length_column.
  assert (Hrow : ∀ k n, (k, n) ∈ counts →
            n = count_key String.eqb k models ∧ 0 < n <= total).
  { intros k n Hk.
    apply (value_counts_row String.eqb String.eqb_eq) in Hk as [Hn Hb].
    split; [exact Hn|]. unfold total. lia. }
  assert (Hnear :
    (Qabs (Qsum ((λ n, F64.to_Q (percent n total)) <$> counts.*2)
           - share (Z.of_nat (length models)))
     <= inject_Z (Z.of_nat (length counts)) * slack)%Q).
  { pose proof (Qsum_near (λ n, F64.to_Q (percent n total)) share slack counts.*2)
      as Hs.
    unfold share at 2 in Hs. rewrite Qsum_scale, Hsum, length_fmap in Hs.
    apply Hs. intros n Hn.
    apply list_elem_of_fmap in Hn as ([k m] & -> & Hk).
    destruct (Hrow k m Hk) as [_ Hm].
    destruct (percent_near m total Hm Hsize) as (j & _ & _ & _ & Hp & _).
    exact Hp. }
  rewrite Hcounts, Hpcts, length_fmap.
  split; [|split; [exact Hsum|split; [exact Hnear|]]].
  - intros camera n p Hin.
    apply list_elem_of_fmap in Hin as ([k m] & [= -> -> ->] & Hk).
    destruct (Hrow k m Hk) as [Hm Hb].
    destruct (percent_near m total Hb Hsize) as (j & Hj & Hval & Hten & Hp & _).
    split; [exact Hm|]. split; [reflexivity|]. split; [|exact Hp].
    exists j. split; [exact Hj|]. split; [exact Hval|exact Hten].
  - intros Hne Hall. rewrite Hall in Hnear. fold total in Hnear.
    assert (Htotal : ¬ (inject_Z total == 0)%Q).
    { unfold total, Qeq. cbn. destruct photos; [congruence|]. cbn. lia. }
    assert (Hfull : (share total == 100)%Q) by (unfold share; now field).
    now rewrite Hfull in Hnear.
Qed.

Lemma camera_usage_percentages_witness :
  (Qabs (Qsum (F64.to_Q <$> (DataProcessor.get_camera_usage
                 (DataProcessor.__init__ [dated_photo; dated_photo])).*2) - 100)
   <= inject_Z 1 * ((1 # 20) + (1 # 1099511627776)))%Q.
Proof.
  destruct (camera_usage_percentages [dated_photo; dated_photo])
    as (_ & _ & _ & Hfull); [reflexivity|].
  apply Hfull; [discriminate|vm_compute; reflexivity].
Defined.

(** C4, as the specification words it, fails on the two records of the
    sample scan, of which one has no camera model: the only row holds 50.0,
    which is not within the rounding tolerance of 100. *)
Lemma camera_usage_sum_counterexample :
  length sample_photos = 2%nat
  ∧ DataProcessor.get_camera_usage (DataProcessor.__init__ sample_photos)
    = [("EOS 5D"%string, 1, F64.of_Z 50)]
  ∧ ¬ (Qabs (Qsum (F64.to_Q <$> (DataProcessor.get_camera_usage
                     (DataProcessor.__init__ sample_photos)).*2) - 100)
       <= (1 # 20) + (1 # 1099511627776))%Q.
Proof.
  split; [vm_compute; reflexivity|]. split; [vm_compute; reflexivity|].
  vm_compute. intros Hle. now apply Hle.
Qed.

(** The rounding is that of binary64: 23 of 80 is 28.75 percent, the float
    product [23 / 80 * 100] lies just below it, and the table holds 28.7,
    where rounding the exact value to the even tenth would give 28.8. *)
Lemma camera_usage_of_eighty :
  DataProcessor.get_camera_usage (DataProcessor.__init__ eighty_photos)
  = [("EOS 5D"%string, 57, F64.div_Z 712 10);
     ("X100"%string, 23, F64.div_Z 287 10)]
  ∧ (F64.to_Q (F64.mul (F64.div (F64.of_Z 23) (F64.of_Z 80)) (F64.of_Z 100))
     < 2875 # 100)%Q.
Proof. split; vm_compute; reflexivity. Qed.

(** * Further properties of the extractor *)

Section ExtractorFacts.
Context `{Runtime}.

Lemma iso_id tag_id :
  is_name (get_name TAGS tag_id) "ISOSpeedRatings" = true → tag_id = 34855.
Proof.
  unfold get_name, TAGS, table_get.
  repeat match goal with
    | |- context [(?k =? tag_id)%Z] =>
        destruct (Z.eqb_spec k tag_id) as [<-|_]; [simpl; congruence|]
    end.
  simpl. discriminate.
Qed.

Lemma flash_id tag_id :
  is_name (get_name TAGS tag_id) "Flash" = true → tag_id = 37385.
Proof.
  unfold get_name, TAGS, table_get.
  repeat match goal with
    | |- context [(?k =? tag_id)%Z] =>
        destruct (Z.eqb_spec k tag_id) as [<-|_]; [simpl; congruence|]
    end.
  simpl. discriminate.
Qed.

Lemma date_id tag_id :
  is_name (get_name TAGS tag_id) "DateTime"
  || is_name (get_name TAGS tag_id) "DateTimeOriginal" = true →
  is_date_tag tag_id = true.
Proof.
  unfold get_name, TAGS, table_get, is_date_tag.
  repeat match goal with
    | |- context [(?k =? tag_id)%Z] =>
        destruct (Z.eqb_spec k tag_id) as [<-|_]; [simpl; congruence|]
    end.
  simpl. discriminate.
Qed.

(** One tag makes the loop fail only through [int(value)] or [value & 1]. *)
Lemma handle_tag_raises parsed_data tag_id value e :
  handle_tag parsed_data tag_id value = Raise e →
  (tag_id = 34855 ∧ py_int value = Raise e)
  ∨ (tag_id = 37385 ∧ flash_bit value = Raise e).
Proof.
  unfold handle_tag.
  repeat match goal with
    | |- context [if ?b || ?c then _ else _] => destruct (b || c) eqn:?
    | |- context [if is_name ?k ?n then _ else _] => destruct (is_name k n) eqn:?
    end; try discriminate;
    lazymatch goal with
    | |- (py_int value ≫= _) = _ → _ =>
        destruct (py_int value) as [n|e'] eqn:Hn;
        cbn [mbind result_bind]; [discriminate|];
        intros [= <-]; left; split; [now apply iso_id|reflexivity]
    | |- (flash_bit value ≫= _) = _ → _ =>
        destruct (flash_bit value) as [b|e'] eqn:Hb;
        cbn [mbind result_bind]; [discriminate|];
        intros [= <-]; right; split; [now apply flash_id|reflexivity]
    | |- context [_parse_gps value] =>
        destruct (parse_gps_total value) as [r Hr]; rewrite Hr;
        cbn [mbind result_bind]; destruct r as [g|]; [|discriminate];
        destruct (decide (g = ∅)); discriminate
    | |- context [_parse_rational value] =>
        unfold _parse_rational;
        match goal with |- context [except_None ?b] =>
          destruct (except_None_total b) as [r Hr]; rewrite Hr end;
        discriminate
    | |- context [_parse_shutter_speed value] =>
        unfold _parse_shutter_speed;
        match goal with |- context [except_None ?b] =>
          destruct (except_None_total b) as [r Hr]; rewrite Hr end;
        discriminate
    | |- context [_parse_datetime value] =>
        unfold _parse_datetime;
        match goal with |- context [except_None ?b] =>
          destruct (except_None_total b) as [r Hr]; rewrite Hr end;
        discriminate
    end.
Qed.

(** X1: the tag loop of [extract_exif] fails only at an ISOSpeedRatings tag
    whose value [int] rejects or at a Flash tag whose value is not an
    integer; a failing conversion of any other tag never ends the loop. *)
Theorem tag_loop_fails_only_on_iso_or_flash items : ∀ parsed_data e,
  for_tags items parsed_data = Raise e →
  ∃ value,
    ((34855, value) ∈ items ∧ py_int value = Raise e)
    ∨ ((37385, value) ∈ items ∧ flash_bit value = Raise e).
Proof.
  induction items as [|[tag_id value] items IH]; intros p e Hf; [discriminate|].
  cbn [for_tags] in Hf.
  destruct (handle_tag p tag_id value) as [q|e'] eqn:Hq.
  - cbn [mbind result_bind] in Hf. apply IH in Hf as [v [[Hv He]|[Hv He]]];
      exists v; [left|right]; (split; [now right|assumption]).
  - cbn [mbind result_bind] in Hf. injection Hf as <-.
    apply handle_tag_raises in Hq as [[-> Hq]|[-> Hq]];
      exists value; [left|right]; (split; [now left|assumption]).
Qed.

Lemma handle_tag_iso parsed_data value e :
  py_int value = Raise e → handle_tag parsed_data 34855 value = Raise e.
Proof. intros Hv. unfold handle_tag. cbn. now rewrite Hv. Qed.

Lemma handle_tag_flash parsed_data value e :
  flash_bit value = Raise e → handle_tag parsed_data 37385 value = Raise e.
Proof. intros Hv. unfold handle_tag. cbn. now rewrite Hv. Qed.

Lemma for_tags_bad_tag items tag_id value :
  (tag_id, value) ∈ items →
  (∀ parsed_data, ∃ e, handle_tag parsed_data tag_id value = Raise e) →
  ∀ parsed_data, ∃ e, for_tags items parsed_data = Raise e.
Proof.
  intros Hin Hbad. induction items as [|[id v] items IH]; intros p.
  - now apply elem_of_nil in Hin.
  - cbn [for_tags]. destruct (handle_tag p id v) as [q|e'] eqn:Hq.
    + cbn [mbind result_bind].
      apply elem_of_cons in Hin as [[= <- <-]|Hin].
      * destruct (Hbad p) as [e He]. congruence.
      * now apply IH.
    + cbn [mbind result_bind]. eauto.
Qed.

(** X2: one ISOSpeedRatings value that [int] rejects, or one Flash value
    that is not an integer, loses the whole file: [extract_exif] returns no
    record and prints one error line. *)
Theorem bad_iso_or_flash_drops_file fs image_path image items value e :
  fs_open fs image_path = Ok image →
  img_getexif image = Ok (Some items) →
  ((34855, value) ∈ items ∧ py_int value = Raise e)
  ∨ ((37385, value) ∈ items ∧ flash_bit value = Raise e) →
  ∃ e', extract_exif fs image_path
        = (None, [ErrorProcessing (path_name image_path) e']).
Proof.
  intros Ho He Hbad.
  assert (Hloop : ∀ p, ∃ e', for_tags items p = Raise e').
  { destruct Hbad as [[Hin Hv]|[Hin Hv]].
    - apply (for_tags_bad_tag items 34855 value Hin).
      intros p. exists e. now apply handle_tag_iso.
    - apply (for_tags_bad_tag items 37385 value Hin).
      intros p. exists e. now apply handle_tag_flash. }
  unfold extract_exif, extract_exif_body. rewrite Ho. cbn [mbind result_bind].
  rewrite He. cbn [mbind result_bind].
  destruct items as [|item items];
    [destruct Hbad as [[Hin _]|[Hin _]]; now apply elem_of_nil in Hin|].
  destruct (fs_st_size fs image_path) as [size|e1]; cbn [mbind result_bind]; [|eauto].
  destruct (int_truediv size (1024 * 1024)) as [mb|e2]; cbn [mbind result_bind]; [|eauto].
  match goal with |- context [for_tags ?l ?p] =>
    destruct (Hloop p) as [e' He']; rewrite He' end.
  cbn [mbind result_bind]. eauto.
Qed.

End ExtractorFacts.

Lemma tag_loop_fails_only_on_iso_or_flash_witness :
  ∃ value,
    ((34855, value) ∈ [(272, Plain (VStr "X100"));
                       (34855, Plain (VTuple [VInt 200; VInt 200]))]
     ∧ @py_int bare_runtime value = Raise TypeError)
    ∨ ((37385, value) ∈ [(272, Plain (VStr "X100"));
                         (34855, Plain (VTuple [VInt 200; VInt 200]))]
       ∧ flash_bit value = Raise TypeError).
Proof.
  apply (@tag_loop_fails_only_on_iso_or_flash bare_runtime
           [(272, Plain (VStr "X100"));
            (34855, Plain (VTuple [VInt 200; VInt 200]))] ∅ TypeError).
  reflexivity.
Defined.

Lemma bad_iso_or_flash_drops_file_witness :
  ∃ e', @extract_exif bare_runtime two_iso_fs "/in/e.jpg"
        = (None, [ErrorProcessing "e.jpg" e']).
Proof.
  apply (@bad_iso_or_flash_drops_file bare_runtime two_iso_fs "/in/e.jpg"
           two_iso_image
           [(272, Plain (VStr "X100"));
            (34855, Plain (VTuple [VInt 200; VInt 200]))]
           (Plain (VTuple [VInt 200; VInt 200])) TypeError);
    [reflexivity|reflexivity|].
  left. split; [|reflexivity]. apply elem_of_cons; right. apply elem_of_cons; now left.
Defined.

Section ExtractorFields.
Context `{Runtime}.

(** A tag other than the two date tags leaves [datetime] as it is. *)
Lemma handle_tag_keeps_datetime parsed_data tag_id value parsed_data' :
  handle_tag parsed_data tag_id value = Ok parsed_data' →
  is_date_tag tag_id = false →
  parsed_data' !! "datetime"%string = parsed_data !! "datetime"%string.
Proof.
  unfold handle_tag. intros Hh Hd. revert Hh.
  repeat match goal with
    | |- context [if ?b || ?c then _ else _] => destruct (b || c) eqn:?
    | |- context [if is_name ?k ?n then _ else _] => destruct (is_name k n) eqn:?
    end;
    try (intros [= <-]; first [reflexivity | now rewrite lookup_insert_ne]);
    lazymatch goal with
    | |- (_parse_datetime value ≫= _) = _ → _ =>
        exfalso;
        match goal with
        | Hn : _ || _ = true |- _ => apply date_id in Hn; congruence
        end
    | |- (_parse_gps value ≫= _) = _ → _ =>
        destruct (_parse_gps value) as [[g|]|] eqn:Hg; cbn [mbind result_bind];
        [|intros [= <-]; reflexivity|discriminate];
        destruct (decide (g = ∅)); intros [= <-]; [reflexivity|];
        apply parse_gps_shape in Hg as (lat & lon & ->);
        rewrite lookup_union_r; [reflexivity|];
        now rewrite lookup_insert_ne, lookup_singleton_ne
    | |- (?c ≫= _) = _ → _ =>
        destruct c as [?|]; cbn [mbind result_bind]; [|discriminate];
        intros [= <-]; now rewrite lookup_insert_ne
    end.
Qed.

Lemma for_tags_keeps_datetime items : ∀ parsed_data parsed_data',
  for_tags items parsed_data = Ok parsed_data' →
  (∀ tag_id value, (tag_id, value) ∈ items → is_date_tag tag_id = false) →
  parsed_data' !! "datetime"%string = parsed_data !! "datetime"%string.
Proof.
  induction items as [|[tag_id value] items IH]; intros p p' Hf Hd.
  - now injection Hf as <-.
  - cbn [for_tags] in Hf.
    destruct (handle_tag p tag_id value) as [q|] eqn:Hq; [|discriminate].
    cbn [mbind result_bind] in Hf.
    rewrite (IH q p' Hf) by (intros id v Hv; apply (Hd id v); now right).
    apply handle_tag_keeps_datetime with tag_id value; [assumption|].
    apply (Hd tag_id value). now left.
Qed.

Lemma for_tags_app items1 items2 parsed_data :
  for_tags (items1 ++ items2) parsed_data
  = (p ← for_tags items1 parsed_data; for_tags items2 p).
Proof.
  revert parsed_data. induction items1 as [|[tag_id value] items1 IH]; intros p.
  - reflexivity.
  - cbn [app for_tags]. destruct (handle_tag p tag_id value) as [q|]; [|reflexivity].
    cbn [mbind result_bind]. apply IH.
Qed.

Lemma handle_tag_date parsed_data tag_id value :
  is_date_tag tag_id = true →
  handle_tag parsed_data tag_id value
  = (r ← _parse_datetime value;
     Ok (<["datetime"%string := of_option FTime r]> parsed_data)).
Proof.
  unfold is_date_tag. intros Hd. apply orb_true_iff in Hd as [Hd|Hd];
    apply Z.eqb_eq in Hd as ->; reflexivity.
Qed.

(** X3: when a file carries several date tags, the one met last in the tag
    mapping decides [datetime], whether it is DateTime or DateTimeOriginal;
    when its text does not parse, [datetime] is set and holds no value. *)
Theorem last_date_tag_wins before after tag_id value parsed_data parsed_data' :
  is_date_tag tag_id = true →
  (∀ tag_id' value', (tag_id', value') ∈ after → is_date_tag tag_id' = false) →
  for_tags (before ++ (tag_id, value) :: after) parsed_data = Ok parsed_data' →
  ∃ r, _parse_datetime value = Ok r
       ∧ parsed_data' !! "datetime"%string = Some (of_option FTime r).
Proof.
  intros Hd Hafter Hf. rewrite for_tags_app in Hf.
  destruct (for_tags before parsed_data) as [p1|]; [|discriminate].
  cbn [mbind result_bind for_tags] in Hf.
  rewrite handle_tag_date in Hf by assumption.
  destruct (_parse_datetime value) as [r|]; [|discriminate].
  cbn [mbind result_bind] in Hf.
  exists r. split; [reflexivity|].
  rewrite (for_tags_keeps_datetime after _ _ Hf Hafter).
  apply lookup_insert_eq.
Qed.

End ExtractorFields.

Lemma last_date_tag_wins_witness :
  ∃ parsed_data',
    @for_tags clock_runtime two_dates ∅ = Ok parsed_data'
    ∧ parsed_data' !! "datetime"%string = Some (FTime later_time).
Proof.
  destruct (@for_tags clock_runtime two_dates ∅) as [p'|] eqn:Hf;
    [|vm_compute in Hf; discriminate].
  destruct (@last_date_tag_wins clock_runtime
              [(36867, Plain (VStr "2023:06:01 06:00:00"));
               (271, Plain (VStr "Canon"))]
              [] 306 (Plain (VStr "2023:07:15 18:30:00")) ∅ p')
    as (r & Hr & Hp); [reflexivity| |exact Hf|].
  - intros id v Hv. now apply elem_of_nil in Hv.
  - exists p'. split; [reflexivity|].
    vm_compute in Hr. injection Hr as <-. exact Hp.
Defined.

Section ExtractorBasics.
Context `{Runtime}.

Lemma for_tags_keeps k items : ∀ parsed_data parsed_data',
  k ∉ tag_fields → k ≠ "latitude"%string → k ≠ "longitude"%string →
  for_tags items parsed_data = Ok parsed_data' →
  parsed_data' !! k = parsed_data !! k.
Proof.
  induction items as [|[tag_id value] items IH]; intros p p' Hk Hla Hlo Hf.
  - now injection Hf as <-.
  - cbn [for_tags] in Hf.
    destruct (handle_tag p tag_id value) as [q|] eqn:Hq; [|discriminate].
    cbn [mbind result_bind] in Hf. rewrite (IH q p') by assumption.
    apply handle_tag_cases in Hq as [(k' & x & Hk' & ->)|[->|(_ & g & Hg & ->)]].
    + apply lookup_insert_ne. congruence.
    + reflexivity.
    + apply parse_gps_shape in Hg as (lat & lon & ->).
      rewrite lookup_union_r; [reflexivity|].
      now rewrite lookup_insert_ne, lookup_singleton_ne.
Qed.

(** X4: every record [extract_exif] produces carries the file's name, its
    path, its size in megabytes, the image's width and height, and an
    orientation that is "portrait" exactly when the height exceeds the
    width; no tag of the file can change these six fields. *)
Theorem extracted_record_basics fs image_path r :
  (extract_exif fs image_path).1 = Some r →
  ∃ image st_size file_size,
    fs_open fs image_path = Ok image
    ∧ fs_st_size fs image_path = Ok st_size
    ∧ int_truediv st_size (1024 * 1024) = Ok file_size
    ∧ r !! "filename"%string = Some (FStr (path_name image_path))
    ∧ r !! "filepath"%string = Some (FStr image_path)
    ∧ r !! "file_size"%string = Some (FFloat file_size)
    ∧ r !! "width"%string = Some (FInt (img_size image).1)
    ∧ r !! "height"%string = Some (FInt (img_size image).2)
    ∧ r !! "orientation"%string
      = Some (FStr (if (img_size image).1 <? (img_size image).2
                    then "portrait" else "landscape")).
Proof.
  intros Hr. apply extract_exif_record, extract_exif_body_record in Hr
    as (image & items & st_size & file_size & p & Ho & He & Hs & Hd & Hf & ->).
  exists image, st_size, file_size.
  do 3 (split; [assumption|]).
  assert (Hkeep : ∀ k, k ∉ tag_fields → k ≠ "latitude"%string →
                       k ≠ "longitude"%string →
            p !! k = (<["file_size"%string := FFloat file_size]>
                        (<["filepath"%string := FStr image_path]>
                           {["filename"%string := FStr (path_name image_path)]}
                         : record)) !! k).
  { intros k Hk Hla Hlo. now apply for_tags_keeps with items. }
  split; [|split; [|split; [|split; [|split]]]].
  - rewrite !lookup_insert_ne, Hkeep by
      first [discriminate | apply (bool_decide_eq_false_1 _); reflexivity].
    reflexivity.
  - rewrite !lookup_insert_ne, Hkeep by
      first [discriminate | apply (bool_decide_eq_false_1 _); reflexivity].
    reflexivity.
  - rewrite !lookup_insert_ne, Hkeep by
      first [discriminate | apply (bool_decide_eq_false_1 _); reflexivity].
    reflexivity.
  - rewrite lookup_insert_ne, lookup_insert_ne by discriminate.
    apply lookup_insert_eq.
  - rewrite lookup_insert_ne by discriminate. apply lookup_insert_eq.
  - apply lookup_insert_eq.
Qed.

(** X5: the rational conversion reads only the first two items of a tuple
    and gives an absent result for a shorter one, while the shutter-speed
    formatter gives an absent result for every tuple that has not exactly
    two items. *)
Theorem tuple_lengths :
  (∀ a b rest,
     _parse_rational (Plain (VTuple (a :: b :: rest)))
     = _parse_rational (Plain (VTuple [a; b])))
  ∧ (∀ t, (length t < 2)%nat → _parse_rational (Plain (VTuple t)) = Ok None)
  ∧ (∀ t, length t ≠ 2%nat → _parse_shutter_speed (Plain (VTuple t)) = Ok None).
Proof.
  split; [|split].
  - reflexivity.
  - intros [|a [|b t]] Ht; [reflexivity|reflexivity|cbn in Ht; lia].
  - intros [|a [|b [|c t]]] Ht; try reflexivity. now destruct Ht.
Qed.

End ExtractorBasics.

Lemma extracted_record_basics_witness :
  ∃ r, (@extract_exif bare_runtime sample_fs "/photos/a.jpg").1 = Some r
       ∧ r !! "filename"%string = Some (FStr "a.jpg")
       ∧ r !! "file_size"%string = Some (FFloat (F64.of_Z 2))
       ∧ r !! "orientation"%string = Some (FStr "landscape").
Proof.
  assert (Hs : is_Some (@extract_exif bare_runtime sample_fs "/photos/a.jpg").1).
  { apply (bool_decide_unpack _). vm_compute. exact I. }
  destruct Hs as [r Hr]. exists r. split; [exact Hr|].
  destruct (@extracted_record_basics bare_runtime sample_fs _ r Hr)
    as (image & st_size & file_size & Ho & Hs & Hd & Hn & _ & Hz & _ & _ & Hor).
  injection Ho as <-. injection Hs as <-. vm_compute in Hd. injection Hd as <-.
  split; [exact Hn|]. split; [exact Hz|exact Hor].
Defined.

Lemma tuple_lengths_witness :
  @_parse_rational bare_runtime (Plain (VTuple [VInt 1; VInt 2; VInt 3]))
  = @_parse_rational bare_runtime (pair 1 2)
  ∧ @_parse_rational bare_runtime (Plain (VTuple [VInt 1])) = Ok None
  ∧ @_parse_shutter_speed bare_runtime (Plain (VTuple [VInt 1; VInt 2; VInt 3]))
    = Ok None.
Proof.
  destruct (@tuple_lengths bare_runtime) as (Hfirst & Hshort & Hother).
  split; [apply Hfirst|]. split; [apply Hshort; cbn; lia|apply Hother; discriminate].
Defined.

(** * Further properties of the scan *)

Section ScanFacts.
Context `{Runtime}.

Lemma extract_exif_filename fs image_path r :
  (extract_exif fs image_path).1 = Some r →
  r !! "filename"%string = Some (FStr (path_name image_path)).
Proof.
  intros Hr. apply extract_exif_record, extract_exif_body_record in Hr
    as (image & items & st_size & file_size & p & _ & _ & _ & _ & Hf & ->).
  rewrite !lookup_insert_ne by discriminate.
  apply (for_tags_keeps "filename") in Hf as ->;
    [reflexivity|apply (bool_decide_eq_false_1 _); reflexivity
    |discriminate|discriminate].
Qed.

Lemma extract_all_console fs files : ∀ data out,
  (extract_all fs files data out).2 = out ++ flat_map (file_log fs) files.
Proof.
  induction files as [|f files IH]; intros data out; cbn [extract_all flat_map].
  - now rewrite app_nil_r.
  - unfold file_log at 1.
    destruct (extract_exif fs f) as [[r|] msgs] eqn:Hf; cbn [snd].
    + destruct (decide (r = ∅)); rewrite IH, <- app_assoc; reflexivity.
    + rewrite IH, <- app_assoc. reflexivity.
Qed.

Lemma extract_exif_log fs image_path :
  extract_exif fs image_path = ((extract_exif fs image_path).1, [])
  ∨ ∃ e, extract_exif fs image_path
         = (None, [ErrorProcessing (path_name image_path) e]).
Proof.
  unfold extract_exif. destruct (extract_exif_body fs image_path); eauto.
Qed.

Lemma progress_app out1 out2 : progress (out1 ++ out2) = progress out1 ++ progress out2.
Proof. apply omap_app. Qed.

Lemma progress_file_logs fs files : progress (flat_map (file_log fs) files) = files.
Proof.
  induction files as [|f files IH]; [reflexivity|].
  cbn [flat_map]. rewrite progress_app, IH. unfold file_log.
  destruct (extract_exif_log fs f) as [->|[e ->]]; reflexivity.
Qed.

(** X6: a scan of an existing folder prints the number of image files
    found, then, file by file in the order of enumeration, one progress
    tick followed by at most one error message, an error message standing
    for a file that gave no record; the ticks name exactly the image files
    of the folder, each once. *)
Theorem scan_console fs folder_path recursive self out :
  fs_exists fs folder_path = true →
  let files := image_files fs folder_path recursive in
  let out' := (scan_folder fs folder_path recursive self out).2 in
  out' = out ++ Found (length files) :: flat_map (file_log fs) files
  ∧ progress out' = progress out ++ files
  ∧ ∀ f, file_log fs f = [Extracting f]
         ∨ ∃ e, file_log fs f = [Extracting f; ErrorProcessing (path_name f) e]
                ∧ (extract_exif fs f).1 = None.
Proof.
  intros He files out'. subst out'. unfold scan_folder. rewrite He. cbn [negb].
  fold files.
  pose proof (extract_all_console fs files [] (out ++ [Found (length files)])) as Hc.
  destruct (extract_all fs files [] _) as [data out'']. cbn [snd] in *.
  rewrite Hc, <- app_assoc. cbn [app].
  split; [reflexivity|]. split.
  - rewrite progress_app. change (progress (?x :: ?l)) with (progress l).
    now rewrite progress_file_logs.
  - intros f. unfold file_log.
    destruct (extract_exif_log fs f) as [->|[e ->]]; [now left|right; eauto].
Qed.

Lemma scanned_names_sublist fs files :
  ((λ r : record, r !! "filename"%string)
     <$> omap (λ f, (extract_exif fs f).1) files)
    `sublist_of` ((λ f, Some (FStr (path_name f))) <$> files).
Proof.
  induction files as [|f files IH]; cbn [omap list_omap fmap list_fmap].
  - constructor.
  - destruct (extract_exif fs f).1 as [r|] eqn:Hr; cbn [fmap list_fmap].
    + rewrite (extract_exif_filename _ _ _ Hr). now constructor.
    + now constructor.
Qed.

Lemma scan_folder_data fs folder_path recursive self out data :
  (scan_folder fs folder_path recursive self out).1.1 = Ok data →
  data = omap (λ f, (extract_exif fs f).1) (image_files fs folder_path recursive).
Proof.
  unfold scan_folder. destruct (fs_exists fs folder_path); cbn [negb];
    [|discriminate].
  pose proof (extract_all_records fs (image_files fs folder_path recursive) []
                (out ++ [Found (length (image_files fs folder_path recursive))]))
    as Hr.
  destruct (extract_all fs _ [] _) as [data' out']. cbn [fst app] in *.
  intros [= <-]. exact Hr.
Qed.

Lemma scan_folder_returns fs folder_path recursive self out :
  fs_exists fs folder_path = true →
  (scan_folder fs folder_path recursive self out).1.1
  = Ok (omap (λ f, (extract_exif fs f).1) (image_files fs folder_path recursive)).
Proof.
  intros He. unfold scan_folder. rewrite He. cbn [negb].
  pose proof (extract_all_records fs (image_files fs folder_path recursive) []
                (out ++ [Found (length (image_files fs folder_path recursive))]))
    as Hr.
  destruct (extract_all fs _ [] _) as [data out']. cbn [fst app] in *.
  now subst data.
Qed.

(** X7: the records a scan returns follow the order in which the image
    files were enumerated, at most one record per file: their file names
    are a subsequence of the names of the image files, so a scan never
    returns more records than it found files. *)
Theorem scan_records_follow_files fs folder_path recursive self out data :
  (scan_folder fs folder_path recursive self out).1.1 = Ok data →
  ((λ r : record, r !! "filename"%string) <$> data)
    `sublist_of` ((λ f, Some (FStr (path_name f)))
                    <$> image_files fs folder_path recursive)
  ∧ (length data ≤ length (image_files fs folder_path recursive))%nat.
Proof.
  intros Hs. apply scan_folder_data in Hs as ->.
  pose proof (scanned_names_sublist fs (image_files fs folder_path recursive))
    as Hs.
  split; [exact Hs|].
  apply sublist_length in Hs. now rewrite !length_fmap in Hs.
Qed.

End ScanFacts.

Lemma scan_console_witness :
  (@scan_folder bare_runtime sample_fs "/photos" true __init__ []).2
  = [Found 4; Extracting "/photos/a.jpg"; Extracting "/photos/trip/b.JPG";
     Extracting "/photos/c.png";
     ErrorProcessing "c.png" AttributeError;
     Extracting "/photos/broken.tif";
     ErrorProcessing "broken.tif" OSError]
  ∧ progress (@scan_folder bare_runtime sample_fs "/photos" true __init__ []).2
    = image_files sample_fs "/photos" true.
Proof.
  destruct (@scan_console bare_runtime sample_fs "/photos" true __init__ []
              eq_refl) as (Hout & Hticks & _).
  split; [|exact Hticks].
  rewrite Hout. vm_compute. reflexivity.
Defined.

Lemma sample_scan :
  (@scan_folder bare_runtime sample_fs "/photos" true __init__ []).1.1
  = Ok sample_photos.
Proof. now apply @scan_folder_returns. Qed.

Lemma tour_scan :
  (@scan_folder clock_runtime tour_fs "/tour" true __init__ []).1.1
  = Ok tour_photos.
Proof. now apply @scan_folder_returns. Qed.

Lemma scan_records_follow_files_witness :
  (length sample_photos ≤ length (image_files sample_fs "/photos" true))%nat.
Proof.
  exact (proj2 (@scan_records_follow_files bare_runtime sample_fs "/photos" true
                  __init__ [] sample_photos sample_scan)).
Defined.

(** * Further properties of the reports *)

(** X8: the camera and the lens usage tables rank their rows: one row per
    distinct name that occurs in the column, most frequent first; each
    count is at least one and at most the number of photos, and each
    percentage, a binary64 number, lies between 0 and 100. *)
Theorem usage_ranked (c : string) (photos : list record) :
  c ∈ ["camera_model"; "lens"]%string →
  Z.of_nat (length photos) < 2 ^ 53 →
  let rows := DataProcessor.usage c (DataProcessor.__init__ photos) in
  let names := column read_str c photos in
  NoDup rows.*1.*1
  ∧ (∀ name, name ∈ rows.*1.*1 ↔ name ∈ names)
  ∧ StronglySorted (λ a b : string * Z * float, b.1.2 <= a.1.2) rows
  ∧ ∀ name n p, (name, n, p) ∈ rows →
      n = count_key String.eqb name names
      ∧ 1 <= n <= Z.of_nat (length photos)
      ∧ (0 <= F64.to_Q p <= 100)%Q.
Proof.
  intros Hc Hsize. cbv zeta.
  assert (Hd : c ∉ derived_names).
  { apply list_elem_of_In in Hc. cbn in Hc.
    destruct Hc as [<-|[<-|[]]]; apply (bool_decide_eq_false_1 _); reflexivity. }
  rewrite (usage_rows c photos Hd).
  set (names := column read_str c photos).
  set (row := λ kn : string * Z,
         (kn.1, kn.2, percent kn.2 (Z.of_nat (length photos)))).
  assert (Hkeys : (row <$> value_counts String.eqb names).*1.*1
                  = (value_counts String.eqb names).*1).
  { rewrite <- !list_fmap_compose. apply list_fmap_ext. now intros i [k n] _. }
  assert (Hlen : (length names ≤ length photos)%nat).
  { apply length_column. }
  rewrite Hkeys. split; [|split; [|split]].
  - apply value_counts_NoDup, String.eqb_eq.
  - intros name. apply value_counts_key, String.eqb_eq.
  - pose proof (sort_desc_sorted (counts String.eqb names)) as Hs.
    fold (value_counts String.eqb names) in Hs. clear Hkeys.
    induction Hs as [|kn t Ht IH Hkn]; cbn [fmap list_fmap]; constructor.
    + exact IH.
    + apply Forall_fmap. eapply Forall_impl; [exact Hkn|]. now intros [k n].
  - intros name n p Hin.
    apply list_elem_of_fmap in Hin as ([k m] & [= -> -> ->] & Hk).
    apply (value_counts_row String.eqb String.eqb_eq) in Hk as [Hm Hb].
    split; [exact Hm|]. split; [lia|].
    destruct (percent_near m (Z.of_nat (length photos)) ltac:(lia) Hsize)
      as (j & _ & _ & _ & _ & Hp).
    exact Hp.
Qed.

Lemma usage_ranked_witness :
  length (DataProcessor.get_camera_usage (DataProcessor.__init__ sample_photos))
  = 1%nat
  ∧ ∀ name n p,
      (name, n, p) ∈ DataProcessor.get_camera_usage
                       (DataProcessor.__init__ sample_photos) →
      1 <= n <= 2 ∧ (0 <= F64.to_Q p <= 100)%Q.
Proof.
  split; [vm_compute; reflexivity|].
  intros name n p Hin.
  destruct (usage_ranked "camera_model" sample_photos
              ltac:(apply (bool_decide_unpack _); exact I)
              ltac:(vm_compute; reflexivity))
    as (_ & _ & _ & Hrow).
  destruct (Hrow name n p Hin) as (_ & Hn & Hp).
  split; [exact Hn|exact Hp].
Defined.

Section Ascending.
Context {K : Type} (leb : K → K → bool).

Lemma insert_asc_perm (x : K * Z) t : insert_asc leb x t ≡ₚ x :: t.
Proof.
  induction t as [|y t IH]; [reflexivity|]. cbn [insert_asc].
  destruct (leb x.1 y.1); [reflexivity|].
  rewrite IH. apply perm_swap.
Qed.

Lemma sort_index_perm (t : list (K * Z)) : sort_index leb t ≡ₚ t.
Proof.
  unfold sort_index. induction t as [|x t IH]; [reflexivity|].
  cbn [foldr]. now rewrite insert_asc_perm, IH.
Qed.

Lemma insert_key_perm (x : K) l : insert_key leb x l ≡ₚ x :: l.
Proof.
  induction l as [|y l IH]; [reflexivity|]. cbn [insert_key].
  destruct (leb x y); [reflexivity|].
  rewrite IH. apply perm_swap.
Qed.

Lemma sorted_perm (l : list K) : sorted leb l ≡ₚ l.
Proof.
  unfold sorted. induction l as [|x l IH]; [reflexivity|].
  cbn [foldr]. now rewrite insert_key_perm, IH.
Qed.

Context (le : K → K → Prop) (ok : K → Prop).
Hypothesis leb_le : ∀ x y, ok x → ok y → leb x y = true → le x y.
Hypothesis leb_total : ∀ x y, ok x → ok y → leb x y = false → le y x.
Hypothesis le_trans : ∀ x y z, ok x → ok y → ok z → le x y → le y z → le x z.

Lemma insert_asc_sorted (x : K * Z) t :
  ok x.1 → Forall (λ a : K * Z, ok a.1) t →
  StronglySorted (λ a b : K * Z, le a.1 b.1) t →
  StronglySorted (λ a b : K * Z, le a.1 b.1) (insert_asc leb x t).
Proof.
  intros Hx Hok Hs. induction Hs as [|y t Ht IH Hy]; cbn [insert_asc].
  - repeat constructor.
  - apply Forall_cons in Hok as [Hoy Hok].
    destruct (leb x.1 y.1) eqn:Hxy.
    + constructor; [now constructor|].
      constructor; [now apply leb_le|].
      rewrite Forall_forall in Hy, Hok. apply Forall_forall. intros z Hz.
      apply le_trans with y.1; auto.
    + constructor; [now apply IH|].
      rewrite insert_asc_perm. constructor; [now apply leb_total|exact Hy].
Qed.

Lemma sort_index_sorted (t : list (K * Z)) :
  Forall (λ a : K * Z, ok a.1) t →
  StronglySorted (λ a b : K * Z, le a.1 b.1) (sort_index leb t).
Proof.
  unfold sort_index. induction 1 as [|x t Hx Ht IH]; cbn [foldr];
    [constructor|].
  apply insert_asc_sorted; [exact Hx| |exact IH].
  fold (sort_index leb t). now rewrite sort_index_perm.
Qed.

Lemma insert_key_sorted (x : K) l :
  ok x → Forall ok l →
  StronglySorted le l → StronglySorted le (insert_key leb x l).
Proof.
  intros Hx Hok Hs. induction Hs as [|y l Hl IH Hy]; cbn [insert_key].
  - repeat constructor.
  - apply Forall_cons in Hok as [Hoy Hok].
    destruct (leb x y) eqn:Hxy.
    + constructor; [now constructor|].
      constructor; [now apply leb_le|].
      rewrite Forall_forall in Hy, Hok. apply Forall_forall. intros z Hz.
      apply le_trans with y; auto.
    + constructor; [now apply IH|].
      rewrite insert_key_perm. constructor; [now apply leb_total|exact Hy].
Qed.

Lemma sorted_sorted (l : list K) :
  Forall ok l → StronglySorted le (sorted leb l).
Proof.
  unfold sorted. induction 1 as [|x l Hx Hl IH]; cbn [foldr]; [constructor|].
  apply insert_key_sorted; [exact Hx| |exact IH].
  fold (sorted leb l). now rewrite sorted_perm.
Qed.

End Ascending.

Lemma ascending_keys_strict (t : list (Z * Z)) :
  StronglySorted (λ a b : Z * Z, a.1 <= b.1) t → NoDup t.*1 →
  StronglySorted (λ a b : Z * Z, a.1 < b.1) t.
Proof.
  induction 1 as [|x t Ht IH Hx]; cbn [fmap list_fmap]; intros Hnd;
    [constructor|].
  apply NoDup_cons in Hnd as [Hnx Hnd].
  constructor; [now apply IH|].
  apply Forall_forall. intros y Hy.
  rewrite Forall_forall in Hx. specialize (Hx y Hy).
  destruct (decide (x.1 = y.1)) as [E|E]; [|lia].
  exfalso. apply Hnx. rewrite E. apply list_elem_of_fmap. exists y.
  split; [reflexivity|exact Hy].
Qed.

Lemma sum_perm (l1 l2 : list Z) :
  l1 ≡ₚ l2 → DataProcessor.sum l1 = DataProcessor.sum l2.
Proof.
  induction 1 as [|x l1 l2 Hp IH|x y l|l1 l2 l3 H12 IH12 H23 IH23];
    unfold DataProcessor.sum in *; cbn [foldr] in *; lia.
Qed.

Lemma iso_rows photos :
  DataProcessor.get_iso_distribution (DataProcessor.__init__ photos)
  = sort_index Z.leb (value_counts Z.eqb (column read_int "iso" photos)).
Proof.
  unfold DataProcessor.get_iso_distribution, DataProcessor.__init__.
  cbn [DataProcessor.df].
  rewrite has_column_process_data, column_process_data
    by (apply (bool_decide_eq_false_1 _); reflexivity).
  destruct (has_column "iso" photos) eqn:Hh; [reflexivity|].
  now rewrite column_absent.
Qed.

(** X9: the ISO distribution lists the distinct ISO values of the photos
    in strictly ascending order, each with the number of photos that have
    it, which is at least one; the counts add up to the number of photos
    that have an ISO value. *)
Theorem iso_distribution_ascending (photos : list record) :
  let rows := DataProcessor.get_iso_distribution (DataProcessor.__init__ photos) in
  let values := column read_int "iso" photos in
  StronglySorted (λ a b : Z * Z, a.1 < b.1) rows
  ∧ (∀ iso, iso ∈ rows.*1 ↔ iso ∈ values)
  ∧ (∀ iso n, (iso, n) ∈ rows → n = count_key Z.eqb iso values ∧ 1 <= n)
  ∧ DataProcessor.sum rows.*2 = Z.of_nat (length values).
Proof.
  cbv zeta. rewrite iso_rows.
  set (values := column read_int "iso" photos).
  pose proof (sort_index_perm Z.leb (value_counts Z.eqb values)) as Hp.
  split; [|split; [|split]].
  - apply ascending_keys_strict.
    + apply (sort_index_sorted Z.leb Z.le (λ _, True)).
      * intros x y _ _. apply Z.leb_le.
      * intros x y _ _ Hxy. apply Z.leb_gt in Hxy. lia.
      * intros x y z _ _ _. apply Z.le_trans.
      * now apply Forall_forall.
    + rewrite Hp. apply value_counts_NoDup, Z.eqb_eq.
  - intros iso. rewrite Hp. apply value_counts_key, Z.eqb_eq.
  - intros iso n Hin. rewrite Hp in Hin.
    apply (value_counts_row Z.eqb Z.eqb_eq) in Hin as [Hn Hb].
    split; [exact Hn|lia].
  - rewrite (sum_perm _ (value_counts Z.eqb values).*2) by now rewrite Hp.
    apply sum_value_counts, Z.eqb_eq.
Qed.

(** * The kinds of the fields *)

Section FieldKinds.
Context `{Runtime}.

Lemma well_typed_insert k x (r : record) :
  field_ok k x = true → well_typed r → well_typed (<[k := x]> r).
Proof.
  intros Hx Hr k' v. destruct (decide (k = k')) as [<-|Hne].
  - rewrite lookup_insert_eq. now intros [= <-].
  - rewrite lookup_insert_ne by assumption. apply Hr.
Qed.

Lemma handle_tag_typed parsed_data tag_id value parsed_data' :
  handle_tag parsed_data tag_id value = Ok parsed_data' →
  well_typed parsed_data → well_typed parsed_data'.
Proof.
  unfold handle_tag. intros Hh Hp. revert Hh.
  repeat match goal with
    | |- context [if ?b || ?c then _ else _] => destruct (b || c) eqn:?
    | |- context [if is_name ?k ?n then _ else _] => destruct (is_name k n) eqn:?
    end;
    try (intros [= <-]; first [assumption | now apply well_typed_insert]);
    lazymatch goal with
    | |- (_parse_gps value ≫= _) = _ → _ =>
        destruct (_parse_gps value) as [[g|]|] eqn:Hg; cbn [mbind result_bind];
        [|intros [= <-]; assumption|discriminate];
        destruct (decide (g = ∅)); intros [= <-]; [assumption|];
        apply parse_gps_shape in Hg as (lat & lon & ->);
        intros k v Hk; apply lookup_union_Some_raw in Hk as [Hk|[_ Hk]];
        [|now apply Hp];
        destruct (decide (k = "latitude"%string)) as [->|Hla];
        [rewrite lookup_insert_eq in Hk; now injection Hk as <-|];
        rewrite lookup_insert_ne in Hk by congruence;
        apply lookup_singleton_Some in Hk as [<- <-]; reflexivity
    | |- (?c ≫= _) = _ → _ =>
        destruct c as [r|]; cbn [mbind result_bind]; [|discriminate];
        intros [= <-]; apply well_typed_insert; [|assumption];
        try reflexivity; now destruct r
    end.
Qed.

Lemma for_tags_typed items : ∀ parsed_data parsed_data',
  for_tags items parsed_data = Ok parsed_data' →
  well_typed parsed_data → well_typed parsed_data'.
Proof.
  induction items as [|[tag_id value] items IH]; intros p p' Hf Hp.
  - now injection Hf as <-.
  - cbn [for_tags] in Hf.
    destruct (handle_tag p tag_id value) as [q|] eqn:Hq; [|discriminate].
    cbn [mbind result_bind] in Hf.
    eapply IH; [exact Hf|]. now apply handle_tag_typed with p tag_id value.
Qed.

Lemma extract_exif_typed fs image_path r :
  (extract_exif fs image_path).1 = Some r → well_typed r.
Proof.
  intros Hr. apply extract_exif_record, extract_exif_body_record in Hr
    as (image & items & st_size & file_size & p & _ & _ & _ & _ & Hf & ->).
  do 3 (apply well_typed_insert; [reflexivity|]).
  eapply for_tags_typed; [exact Hf|].
  do 2 (apply well_typed_insert; [reflexivity|]).
  intros k v Hk. apply lookup_singleton_Some in Hk as [<- <-]. reflexivity.
Qed.

Lemma scanned_typed fs (files : list string) r :
  r ∈ omap (λ f, (extract_exif fs f).1) files → well_typed r.
Proof.
  intros Hin. apply list_elem_of_omap in Hin as (f & _ & Hf).
  now apply (extract_exif_typed fs f).
Qed.

(** X10: every field of a record a scan returns holds a value of the
    field's kind: the names, the path, the lens and the orientation are
    texts, the file size and the coordinates floats, the ISO value and the
    dimensions integers, the flash field a truth value; only the focal
    length, the aperture, the shutter speed and the date may be set and
    hold no value. *)
Theorem scanned_records_well_typed fs folder_path recursive self out data r :
  (scan_folder fs folder_path recursive self out).1.1 = Ok data →
  r ∈ data → well_typed r.
Proof.
  intros Hs Hin. apply scan_folder_data in Hs as ->.
  apply list_elem_of_omap in Hin as (f & _ & Hf).
  now apply (extract_exif_typed fs f).
Qed.

End FieldKinds.

Lemma scanned_records_well_typed_witness :
  ∃ r, sample_photos !! 0%nat = Some r ∧ well_typed r.
Proof.
  assert (Hs : is_Some (sample_photos !! 0%nat)).
  { apply (bool_decide_unpack _). vm_compute. exact I. }
  destruct Hs as [r Hr]. exists r. split; [exact Hr|].
  apply (@scanned_records_well_typed bare_runtime sample_fs "/photos" true
           __init__ [] sample_photos r sample_scan).
  now apply list_elem_of_lookup_2 with 0%nat.
Defined.

(** * Orientation and flash *)

Lemma count_key_column {A} (read : fval → option A) (eqb : A → A → bool) c k photos :
  count_key eqb k (column read c photos) = photos_where (reads read eqb c k) photos.
Proof.
  unfold column, photos_where.
  induction photos as [|r photos IH]; [reflexivity|].
  cbn [omap list_omap List.filter]. unfold reads at 1.
  fold (omap (λ r, read (cell c r)) photos).
  destruct (read (cell c r)) as [x|]; [|exact IH].
  cbn [count_key]. rewrite IH. destruct (eqb x k); cbn [length]; lia.
Qed.

Lemma photos_where_split (p q s : record → bool) photos :
  (∀ r, r ∈ photos →
        s r = (p r || q r) ∧ (p r && q r) = false) →
  photos_where p photos + photos_where q photos = photos_where s photos.
Proof.
  unfold photos_where. induction photos as [|r photos IH]; intros Hr;
    [reflexivity|].
  cbn [List.filter].
  destruct (Hr r ltac:(now left)) as [Hs Hpq].
  specialize (IH (λ r' Hr', Hr r' ltac:(now right))).
  rewrite Hs. destruct (p r), (q r); cbn [orb andb length] in *;
    try discriminate; lia.
Qed.

Lemma photos_where_all (s : record → bool) photos :
  (∀ r, r ∈ photos → s r = true) →
  photos_where s photos = Z.of_nat (length photos).
Proof.
  unfold photos_where. induction photos as [|r photos IH]; intros Hr;
    [reflexivity|].
  cbn [List.filter]. rewrite (Hr r) by now left. cbn [length].
  specialize (IH (λ r' Hr', Hr r' ltac:(now right))). lia.
Qed.

Section Stats.
Context `{Runtime}.

Lemma extract_exif_orientation fs image_path r :
  (extract_exif fs image_path).1 = Some r →
  r !! "orientation"%string = Some (FStr "portrait")
  ∨ r !! "orientation"%string = Some (FStr "landscape").
Proof.
  intros Hr. apply extract_exif_record, extract_exif_body_record in Hr
    as (image & items & st_size & file_size & p & _ & _ & _ & _ & _ & ->).
  rewrite lookup_insert_eq. destruct (_ <? _); [now left|now right].
Qed.

(** X11: for the photos of a scan, the orientation statistics count the
    portrait and the landscape photos, and the two counts add up to the
    number of photos: every photo is one or the other.  Without photos the
    statistics are the empty mapping. *)
Theorem orientation_stats_partition fs folder_path recursive self out data :
  (scan_folder fs folder_path recursive self out).1.1 = Ok data →
  let stats := DataProcessor.get_orientation_stats (DataProcessor.__init__ data) in
  let portrait := photos_where (text_is "orientation" "portrait") data in
  let landscape := photos_where (text_is "orientation" "landscape") data in
  (data = [] → stats = [])
  ∧ (data ≠ [] →
     stats = [("portrait"%string, portrait); ("landscape"%string, landscape)])
  ∧ portrait + landscape = Z.of_nat (length data).
Proof.
  intros Hs. cbv zeta.
  assert (Ho : ∀ r, r ∈ data →
            r !! "orientation"%string = Some (FStr "portrait")
            ∨ r !! "orientation"%string = Some (FStr "landscape")).
  { apply scan_folder_data in Hs as ->. intros r Hin.
    apply list_elem_of_omap in Hin as (f & _ & Hf).
    now apply (extract_exif_orientation fs f). }
  split; [now intros ->|]. split.
  - intros Hne.
    unfold DataProcessor.get_orientation_stats, DataProcessor.__init__.
    cbn [DataProcessor.df].
    rewrite has_column_process_data, column_process_data
      by (apply (bool_decide_eq_false_1 _); reflexivity).
    assert (Hc : has_column "orientation" data = true).
    { destruct data as [|r data]; [congruence|].
      cbn [has_column existsb]. apply orb_true_iff. left.
      apply bool_decide_eq_true.
      destruct (Ho r ltac:(now left)) as [-> | ->]; eauto. }
    rewrite Hc. cbn [negb].
    rewrite !(get_count_value_counts String.eqb String.eqb_eq).
    now rewrite !count_key_column.
  - rewrite <- (photos_where_all (λ _, true) data) by reflexivity.
    apply photos_where_split. intros r Hr. unfold text_is, reads, cell.
    destruct (Ho r Hr) as [-> | ->]; split; reflexivity.
Qed.

Lemma typed_flash (r : record) v :
  well_typed r → r !! "flash_used"%string = Some v → ∃ b, v = FBool b.
Proof.
  intros Hr Hv. specialize (Hr _ _ Hv).
  destruct v; try (vm_compute in Hr; discriminate); eauto.
Qed.

(** X12: for the photos of a scan that met a Flash tag, the flash
    statistics count the photos whose flash fired and those whose flash
    did not, and the two counts add up to the number of photos that have
    the flash field, which photos without a Flash tag lack.  When no photo
    has the field the statistics are the empty mapping. *)
Theorem flash_stats_partition fs folder_path recursive self out data :
  (scan_folder fs folder_path recursive self out).1.1 = Ok data →
  let stats := DataProcessor.get_flash_usage_stats (DataProcessor.__init__ data) in
  let used := photos_where (flag_is "flash_used" true) data in
  let not_used := photos_where (flag_is "flash_used" false) data in
  (has_column "flash_used" data = false → stats = [])
  ∧ (has_column "flash_used" data = true →
     stats = [("used"%string, used); ("not_used"%string, not_used)])
  ∧ used + not_used = photos_where (has_field "flash_used") data.
Proof.
  intros Hs. cbv zeta.
  assert (Ht : ∀ r, r ∈ data → well_typed r).
  { apply scan_folder_data in Hs as ->. apply scanned_typed. }
  unfold DataProcessor.get_flash_usage_stats, DataProcessor.__init__.
  cbn [DataProcessor.df].
  rewrite has_column_process_data, column_process_data
    by (apply (bool_decide_eq_false_1 _); reflexivity).
  split; [now intros ->|]. split.
  - intros ->. cbn [negb].
    rewrite !(get_count_value_counts Bool.eqb Bool.eqb_true_iff).
    now rewrite !count_key_column.
  - apply photos_where_split. intros r Hr.
    unfold flag_is, reads, has_field, cell.
    destruct (r !! "flash_used"%string) as [v|] eqn:Hv; cbn [default].
    + destruct (typed_flash r v (Ht r Hr) Hv) as [[|] ->]; split; reflexivity.
    + split; reflexivity.
Qed.

End Stats.

Lemma orientation_stats_partition_witness :
  DataProcessor.get_orientation_stats (DataProcessor.__init__ sample_photos)
  = [("portrait"%string, 1); ("landscape"%string, 1)].
Proof.
  destruct (@orientation_stats_partition bare_runtime sample_fs "/photos" true
              __init__ [] sample_photos sample_scan) as (_ & Hstats & _).
  rewrite Hstats; [vm_compute; reflexivity|].
  intros E. apply (f_equal length) in E. vm_compute in E. discriminate.
Defined.

Lemma flash_stats_partition_witness :
  DataProcessor.get_flash_usage_stats (DataProcessor.__init__ sample_photos)
  = [("used"%string, 1); ("not_used"%string, 0)]
  ∧ photos_where (has_field "flash_used") sample_photos = 1.
Proof.
  destruct (@flash_stats_partition bare_runtime sample_fs "/photos" true
              __init__ [] sample_photos sample_scan) as (_ & Hstats & Hsum).
  split.
  - rewrite Hstats; vm_compute; reflexivity.
  - rewrite <- Hsum. vm_compute. reflexivity.
Defined.

(** * The GPS table *)

Lemma has_column_true c photos :
  has_column c photos = true ↔ ∃ r, r ∈ photos ∧ is_Some (r !! c).
Proof.
  unfold has_column. rewrite existsb_exists. split.
  - intros (r & Hr & Hc). exists r. split; [now apply list_elem_of_In|].
    now apply bool_decide_eq_true in Hc.
  - intros (r & Hr & Hc). exists r. split; [now apply list_elem_of_In|].
    now apply bool_decide_eq_true.
Qed.

Lemma filter_fmap {A B} (f : A → B) (p : B → bool) (l : list A) :
  List.filter p (f <$> l) = f <$> List.filter (λ x, p (f x)) l.
Proof.
  induction l as [|x l IH]; [reflexivity|].
  cbn [fmap list_fmap List.filter]. fold (fmap (M:=list) f l). rewrite IH.
  now destruct (p (f x)).
Qed.

Lemma fmap_filter_ext {A B} (f g : A → B) (p q : A → bool) (l : list A) :
  (∀ x, x ∈ l → f x = g x ∧ p x = q x) →
  f <$> List.filter p l = g <$> List.filter q l.
Proof.
  induction l as [|x l IH]; intros Hl; [reflexivity|].
  cbn [List.filter]. destruct (Hl x ltac:(now left)) as [Hf Hp].
  specialize (IH (λ y Hy, Hl y ltac:(now right))).
  rewrite Hp. destruct (q x); cbn [fmap list_fmap]; [f_equal; [exact Hf|]|];
    exact IH.
Qed.

Lemma typed_datetime (r : record) :
  well_typed r →
  cell "date" (DataProcessor.date_columns r) = cell "datetime" r.
Proof.
  intros Hr. unfold DataProcessor.date_columns, cell at 1.
  rewrite !lookup_insert_ne by discriminate. rewrite lookup_insert_eq.
  cbn [default]. unfold cell.
  destruct (r !! "datetime"%string) as [v|] eqn:Hv; [|reflexivity].
  specialize (Hr _ _ Hv). cbn [default].
  destruct v; try (vm_compute in Hr; discriminate); reflexivity.
Qed.

Lemma typed_filename (r : record) :
  well_typed r → is_Some (r !! "filename"%string) →
  is_na (cell "filename" r) = false.
Proof.
  intros Hr [v Hv]. unfold cell. rewrite Hv. specialize (Hr _ _ Hv).
  destruct v; try (vm_compute in Hr; discriminate); reflexivity.
Qed.

Section GpsTable.
Context `{Runtime}.

Lemma extract_exif_paired fs image_path r :
  (extract_exif fs image_path).1 = Some r → gps_paired r.
Proof.
  intros Hr. apply extract_exif_record, extract_exif_body_record in Hr
    as (image & items & st_size & file_size & p & _ & _ & _ & _ & Hf & ->).
  do 3 (apply gps_paired_insert; [discriminate..|]).
  eapply for_tags_paired; [exact Hf|].
  unfold gps_paired. split; intros [x Hx]; vm_compute in Hx; discriminate.
Qed.

Lemma scanned_longitude fs (files : list string) :
  has_column "latitude" (omap (λ f, (extract_exif fs f).1) files) = true →
  has_column "longitude" (omap (λ f, (extract_exif fs f).1) files) = true.
Proof.
  rewrite !has_column_true. intros (r & Hr & Hla). exists r. split; [exact Hr|].
  apply list_elem_of_omap in Hr as (f & _ & Hf).
  now apply (extract_exif_paired fs f r Hf).
Qed.

Lemma scanned_filename fs (files : list string) r :
  r ∈ omap (λ f, (extract_exif fs f).1) files →
  is_Some (r !! "filename"%string).
Proof.
  intros Hr. apply list_elem_of_omap in Hr as (f & _ & Hf).
  rewrite (extract_exif_filename fs f r Hf). eauto.
Qed.

(** X13: on the photos of a scan, the GPS table raises a key error exactly
    when some photo has coordinates and no photo has a date, the date
    column being made from the dates only; without coordinates the table
    is empty. *)
Theorem gps_photos_need_a_date fs folder_path recursive self out data :
  (scan_folder fs folder_path recursive self out).1.1 = Ok data →
  let table := DataProcessor.get_gps_photos (DataProcessor.__init__ data) in
  (has_column "latitude" data = false → table = Ok [])
  ∧ (has_column "latitude" data = true →
     has_column "datetime" data = false → table = Raise KeyError)
  ∧ ((∃ e, table = Raise e)
     ↔ has_column "latitude" data = true ∧ has_column "datetime" data = false).
Proof.
  intros Hs. cbv zeta. apply scan_folder_data in Hs. subst data.
  set (data := omap (λ f, (extract_exif fs f).1)
                 (image_files fs folder_path recursive)).
  unfold DataProcessor.get_gps_photos, DataProcessor.__init__.
  cbn [DataProcessor.df].
  rewrite !(has_column_process_data "latitude"),
    !(has_column_process_data "longitude"),
    !(has_column_process_data "filename")
    by (apply (bool_decide_eq_false_1 _); reflexivity).
  destruct (has_column "latitude" data) eqn:Hla; cbn [negb orb].
  - assert (Hlo : has_column "longitude" data = true)
      by exact (scanned_longitude fs (image_files fs folder_path recursive) Hla).
    rewrite Hlo. cbn [negb orb].
    assert (Hfn : has_column "filename" data = true).
    { apply has_column_true in Hla as (r & Hr & _).
      apply has_column_true. exists r. split; [exact Hr|].
      now apply (scanned_filename fs (image_files fs folder_path recursive)). }
    rewrite Hfn. cbn [negb orb].
    destruct (has_column "datetime" data) eqn:Hdt.
    + rewrite process_data_dated by assumption.
      rewrite has_column_fmap.
      * cbn [negb]. split; [discriminate|]. split; [discriminate|].
        split; [intros [e He]; discriminate|intros [_ Hf]; discriminate].
      * intros E. fold data in Hla. rewrite E in Hla. discriminate.
      * intros r. unfold DataProcessor.date_columns.
        rewrite !lookup_insert_ne by discriminate. rewrite lookup_insert_eq. eauto.
    + rewrite process_data_undated by assumption.
      assert (Hd : has_column "date" data = false).
      { apply scanned_records_columns.
        apply (bool_decide_eq_false_1 _). reflexivity. }
      rewrite Hd.
      cbn [negb]. split; [discriminate|]. split; [reflexivity|].
      split; [now intros _|eauto].
  - split; [reflexivity|]. split; [discriminate|].
    split; [intros [e He]; discriminate|intros [Hf _]; discriminate].
Qed.

(** X14: when some photo of a scan has coordinates and some photo has a
    date, the GPS table holds, in the order of the scan, one row for each
    photo that has usable coordinates and a date: the photo's file name,
    latitude, longitude and date; photos that lack any of these are left
    out. *)
Theorem gps_photos_rows fs folder_path recursive self out data :
  (scan_folder fs folder_path recursive self out).1.1 = Ok data →
  has_column "latitude" data = true →
  has_column "datetime" data = true →
  DataProcessor.get_gps_photos (DataProcessor.__init__ data)
  = Ok (gps_row <$> List.filter located_and_dated data).
Proof.
  intros Hs Hla Hdt. apply scan_folder_data in Hs. subst data.
  set (data := omap (λ f, (extract_exif fs f).1)
                 (image_files fs folder_path recursive)) in *.
  unfold DataProcessor.get_gps_photos, DataProcessor.__init__.
  cbn [DataProcessor.df].
  rewrite !(has_column_process_data "latitude"),
    !(has_column_process_data "longitude"),
    !(has_column_process_data "filename")
    by (apply (bool_decide_eq_false_1 _); reflexivity).
  assert (Hlo : has_column "longitude" data = true)
    by exact (scanned_longitude fs (image_files fs folder_path recursive) Hla).
  rewrite Hla, Hlo. cbn [negb orb].
  assert (Hfn : has_column "filename" data = true).
  { apply has_column_true in Hla as (r & Hr & _).
    apply has_column_true. exists r. split; [exact Hr|].
    now apply (scanned_filename fs (image_files fs folder_path recursive)). }
  rewrite Hfn. cbn [negb orb].
  rewrite process_data_dated by assumption.
  rewrite has_column_fmap.
  - cbn [negb]. f_equal. rewrite <- list_fmap_compose, filter_fmap.
    apply fmap_filter_ext. intros r Hr. unfold compose.
    pose proof (scanned_typed fs _ r Hr) as Ht.
    rewrite typed_datetime by assumption. unfold cell at 1 2 3 5 6 7.
    rewrite !lookup_date_columns
      by (apply (bool_decide_eq_false_1 _); reflexivity).
    fold (cell "filename" r) (cell "latitude" r) (cell "longitude" r).
    split; [reflexivity|]. unfold located_and_dated.
    rewrite typed_filename; [reflexivity|assumption|].
    now apply (scanned_filename fs (image_files fs folder_path recursive)).
  - intros E. rewrite E in Hla. discriminate.
  - intros r. unfold DataProcessor.date_columns.
    rewrite !lookup_insert_ne by discriminate. rewrite lookup_insert_eq. eauto.
Qed.

End GpsTable.

Lemma gps_photos_need_a_date_witness :
  DataProcessor.get_gps_photos (DataProcessor.__init__ sample_photos)
  = Raise KeyError.
Proof.
  destruct (@gps_photos_need_a_date bare_runtime sample_fs "/photos" true
              __init__ [] sample_photos sample_scan) as (_ & Hraise & _).
  apply Hraise; vm_compute; reflexivity.
Defined.

Lemma gps_photos_rows_witness :
  (λ row : fval * fval * fval * fval, (row.1.1.1, row.2))
    <$> default [] (match DataProcessor.get_gps_photos
                            (DataProcessor.__init__ tour_photos) with
                    | Ok rows => Some rows
                    | Raise _ => None
                    end)
  = [(FStr "1.jpg", FTime sample_time)].
Proof.
  rewrite (@gps_photos_rows clock_runtime tour_fs "/tour" true __init__ []
             tour_photos tour_scan);
    vm_compute; reflexivity.
Defined.

(** * The derived columns *)

Lemma cell_date_columns_datetime r :
  cell "datetime" (DataProcessor.date_columns r) = cell "datetime" r.
Proof.
  unfold cell. rewrite lookup_date_columns; [reflexivity|].
  apply (bool_decide_eq_false_1 _). reflexivity.
Qed.

Lemma date_columns_idemp r :
  DataProcessor.date_columns (DataProcessor.date_columns r)
  = DataProcessor.date_columns r.
Proof.
  unfold DataProcessor.date_columns at 1. rewrite cell_date_columns_datetime.
  unfold DataProcessor.date_columns.
  set (date := read_time (cell "datetime" r)).
  apply map_eq. intros k.
  repeat match goal with
    | |- context [<[?c := _]> _ !! k] =>
        destruct (decide (c = k)) as [<-|?];
        [now rewrite !lookup_insert_eq
        |rewrite !(lookup_insert_ne _ c k) by assumption]
    end.
  reflexivity.
Qed.

(** X15: processing the table a second time changes nothing: the derived
    columns are computed from [datetime] alone, which processing leaves as
    it is. *)
Theorem process_data_idempotent (photos : list record) :
  DataProcessor.process_data (DataProcessor.df (DataProcessor.__init__ photos))
  = DataProcessor.df (DataProcessor.__init__ photos).
Proof.
  unfold DataProcessor.__init__. cbn [DataProcessor.df].
  destruct (has_column "datetime" photos) eqn:Hc.
  - rewrite (process_data_dated photos Hc).
    rewrite process_data_dated.
    + rewrite <- list_fmap_compose. apply list_fmap_ext.
      intros i r _. apply date_columns_idemp.
    + rewrite <- (process_data_dated photos Hc), has_column_process_data;
        [exact Hc|apply (bool_decide_eq_false_1 _); reflexivity].
  - rewrite (process_data_undated photos Hc).
    now apply process_data_undated.
Qed.

Section OrderedTotals.
Context {K : Type} (eqb : K → K → bool).
Hypothesis eqb_eq : ∀ x y, eqb x y = true ↔ x = y.

Lemma sum_count_key_within (member : K → bool) u l :
  NoDup u → (∀ x, member x = true ↔ x ∈ u) →
  DataProcessor.sum ((λ k, count_key eqb k l) <$> u)
  = Z.of_nat (length (List.filter member l)).
Proof.
  intros Hu Hm. induction l as [|x l IH].
  - cbn [count_key List.filter length]. clear. induction u as [|k u IH];
      [reflexivity|].
    cbn [fmap list_fmap]. unfold DataProcessor.sum in *. cbn [foldr].
    change (foldr Z.add 0 ((λ _ : K, 0) <$> u) = 0) in IH. lia.
  - cbn [count_key List.filter].
    rewrite (sum_fmap_add (λ k, if eqb x k then 1 else 0)
               (λ k, count_key eqb k l) u), IH.
    destruct (member x) eqn:Hx.
    + rewrite (sum_indicator_present eqb eqb_eq x u Hu) by now apply Hm.
      cbn [length]. lia.
    + rewrite (sum_indicator_absent eqb eqb_eq x u).
      * lia.
      * intros Hin. apply Hm in Hin. congruence.
Qed.

End OrderedTotals.

Lemma categorize_in_order hour :
  DataProcessor._categorize_time_of_day (Some hour) ∈ DataProcessor.time_order.
Proof.
  unfold DataProcessor._categorize_time_of_day.
  repeat match goal with
    | |- context [if ?b then _ else _] => destruct b
    end; apply (bool_decide_unpack _); exact I.
Qed.

Lemma day_name_in_order t : day_name t ∈ day_order.
Proof.
  unfold day_name.
  set (d := days_from_civil (dt_year t) (dt_month t) (dt_day t) + 3).
  pose proof (Z.mod_pos_bound d 7 ltac:(lia)) as Hd.
  assert (Hn : (Z.to_nat (d mod 7) < 7)%nat) by lia.
  generalize dependent (Z.to_nat (d mod 7)). intros n Hn.
  do 7 (destruct n as [|n]; [apply (bool_decide_unpack _); exact I|]). lia.
Qed.

Lemma time_of_day_of_cases r :
  (∃ t, read_time (cell "datetime" r) = Some t
        ∧ time_of_day_of r ∈ DataProcessor.time_order)
  ∨ (read_time (cell "datetime" r) = None
     ∧ time_of_day_of r ∉ DataProcessor.time_order).
Proof.
  unfold time_of_day_of.
  destruct (read_time (cell "datetime" r)) as [t|]; [left|right].
  - exists t. split; [reflexivity|]. apply categorize_in_order.
  - split; [reflexivity|]. apply (bool_decide_eq_false_1 _). reflexivity.
Qed.

Lemma time_of_day_dated photos :
  length (List.filter (λ s, bool_decide (s ∈ DataProcessor.time_order))
            (time_of_day_of <$> photos))
  = length (column read_time "datetime" photos).
Proof.
  unfold column. induction photos as [|r photos IH]; [reflexivity|].
  cbn [fmap list_fmap List.filter omap list_omap].
  fold (omap (λ r, read_time (cell "datetime" r)) photos).
  fold (fmap (M:=list) time_of_day_of photos).
  destruct (time_of_day_of_cases r) as [(t & -> & Hin)|[-> Hout]].
  - rewrite bool_decide_eq_true_2 by assumption. cbn [length]. now rewrite IH.
  - rewrite bool_decide_eq_false_2 by assumption. exact IH.
Qed.

Lemma day_of_dated photos :
  length (List.filter (λ s, bool_decide (s ∈ day_order)) (omap day_of photos))
  = length (column read_time "datetime" photos).
Proof.
  unfold column. induction photos as [|r photos IH]; [reflexivity|].
  cbn [List.filter omap list_omap]. unfold day_of at 1.
  fold (omap (λ r, read_time (cell "datetime" r)) photos).
  fold (omap day_of photos).
  destruct (read_time (cell "datetime" r)) as [t|]; cbn [fmap option_fmap option_map].
  - cbn [List.filter]. rewrite bool_decide_eq_true_2 by apply day_name_in_order.
    cbn [length]. now rewrite IH.
  - exact IH.
Qed.

Lemma time_of_day_rows photos :
  has_column "datetime" photos = true →
  DataProcessor.get_time_of_day_distribution (DataProcessor.__init__ photos)
  = (λ label, (label, count_key String.eqb label (time_of_day_of <$> photos)))
      <$> DataProcessor.time_order.
Proof.
  intros Hc. assert (Hne : photos ≠ []) by (intros ->; discriminate).
  unfold DataProcessor.get_time_of_day_distribution, DataProcessor.__init__.
  cbn [DataProcessor.df]. rewrite process_data_dated by assumption.
  rewrite has_column_fmap; [|assumption|].
  2:{ intros r. unfold DataProcessor.date_columns.
      rewrite lookup_insert_eq. eauto. }
  cbn [negb]. rewrite time_of_day_column.
  apply reindex_value_counts, String.eqb_eq.
Qed.

Lemma day_of_week_rows photos :
  has_column "datetime" photos = true →
  DataProcessor.get_day_of_week_distribution (DataProcessor.__init__ photos)
  = (λ day, (day, count_key String.eqb day (omap day_of photos))) <$> day_order.
Proof.
  intros Hc. assert (Hne : photos ≠ []) by (intros ->; discriminate).
  unfold DataProcessor.get_day_of_week_distribution, DataProcessor.__init__.
  cbn [DataProcessor.df]. rewrite process_data_dated by assumption.
  rewrite has_column_fmap; [|assumption|].
  2:{ intros r. unfold DataProcessor.date_columns.
      rewrite lookup_insert_ne, lookup_insert_ne, lookup_insert_eq by discriminate.
      eauto. }
  cbn [negb]. rewrite day_of_week_column.
  apply reindex_value_counts, String.eqb_eq.
Qed.

(** X16: when the photos have a date column, the counts of the time-of-day
    distribution and those of the day-of-week distribution each add up to
    the number of photos that have a date: a dated photo falls into exactly
    one period and one day, and an undated photo is counted in neither
    table. *)
Theorem dated_photos_counted_once (photos : list record) :
  has_column "datetime" photos = true →
  let self := DataProcessor.__init__ photos in
  let dated := Z.of_nat (length (column read_time "datetime" photos)) in
  DataProcessor.sum (DataProcessor.get_time_of_day_distribution self).*2 = dated
  ∧ DataProcessor.sum (DataProcessor.get_day_of_week_distribution self).*2 = dated.
Proof.
  intros Hc. cbv zeta.
  rewrite time_of_day_rows, day_of_week_rows by assumption.
  rewrite <- !list_fmap_compose. unfold compose. cbn [snd].
  split.
  - rewrite (sum_count_key_within String.eqb String.eqb_eq
               (λ s, bool_decide (s ∈ DataProcessor.time_order))).
    + now rewrite time_of_day_dated.
    + apply (bool_decide_unpack _). exact I.
    + intros s. apply bool_decide_eq_true.
  - rewrite (sum_count_key_within String.eqb String.eqb_eq
               (λ s, bool_decide (s ∈ day_order))).
    + now rewrite day_of_dated.
    + apply (bool_decide_unpack _). exact I.
    + intros s. apply bool_decide_eq_true.
Qed.

Lemma dated_photos_counted_once_witness :
  DataProcessor.sum (DataProcessor.get_time_of_day_distribution
                       (DataProcessor.__init__ tour_photos)).*2 = 2
  ∧ DataProcessor.sum (DataProcessor.get_day_of_week_distribution
                         (DataProcessor.__init__ tour_photos)).*2 = 2
  ∧ length tour_photos = 3%nat.
Proof.
  destruct (dated_photos_counted_once tour_photos ltac:(vm_compute; reflexivity))
    as [Htod Hdow].
  split; [rewrite Htod; vm_compute; reflexivity|].
  split; [rewrite Hdow; vm_compute; reflexivity|vm_compute; reflexivity].
Defined.

(** * Statistics of the summary report *)

Section Extremes.
Context {K : Type} (leb : K → K → bool) (le : K → K → Prop) (ok : K → Prop).
Hypothesis leb_le : ∀ x y, ok x → ok y → leb x y = true → le x y.
Hypothesis leb_total : ∀ x y, ok x → ok y → leb x y = false → le y x.
Hypothesis le_refl : ∀ x, ok x → le x x.
Hypothesis le_trans : ∀ x y z, ok x → ok y → ok z → le x y → le y z → le x z.

Lemma sorted_lookup_le (s : list K) :
  Forall ok s → StronglySorted le s →
  ∀ i j x y, s !! i = Some x → s !! j = Some y → (i ≤ j)%nat → le x y.
Proof.
  intros Hok Hs. induction Hs as [|z s Hs IH Hz]; intros i j x y Hi Hj Hij.
  - discriminate.
  - apply Forall_cons in Hok as [Hoz Hok].
    destruct i as [|i], j as [|j]; cbn in Hi, Hj.
    + injection Hi as <-. injection Hj as <-. now apply le_refl.
    + injection Hi as <-. rewrite Forall_forall in Hz. apply Hz.
      now apply list_elem_of_lookup_2 with j.
    + lia.
    + apply (IH Hok i j); [assumption..|lia].
Qed.

Lemma minimum_spec (l : list K) :
  l ≠ [] → Forall ok l →
  ∃ m, minimum leb l = Some m ∧ sorted leb l !! 0%nat = Some m
       ∧ m ∈ l ∧ ∀ x, x ∈ l → le m x.
Proof.
  intros Hl Hok. unfold minimum.
  pose proof (sorted_perm leb l) as Hp.
  pose proof (sorted_sorted leb le ok leb_le leb_total le_trans l Hok) as Hs.
  assert (Hok' : Forall ok (sorted leb l)) by now rewrite Hp.
  destruct (sorted leb l) as [|m s] eqn:E.
  - apply Permutation_nil_l in Hp. congruence.
  - exists m. split; [reflexivity|]. split; [reflexivity|]. split.
    + rewrite <- Hp. now left.
    + intros x Hx. rewrite <- Hp in Hx.
      apply list_elem_of_lookup_1 in Hx as [j Hj].
      apply (sorted_lookup_le _ Hok' Hs 0%nat j); [reflexivity|assumption|lia].
Qed.

Lemma maximum_spec (l : list K) :
  l ≠ [] → Forall ok l →
  ∃ m, maximum leb l = Some m
       ∧ sorted leb l !! (length l - 1)%nat = Some m
       ∧ m ∈ l ∧ ∀ x, x ∈ l → le x m.
Proof.
  intros Hl Hok. unfold maximum.
  pose proof (sorted_perm leb l) as Hp.
  pose proof (sorted_sorted leb le ok leb_le leb_total le_trans l Hok) as Hs.
  assert (Hok' : Forall ok (sorted leb l)) by now rewrite Hp.
  assert (Hlen : length (sorted leb l) = length l) by now rewrite Hp.
  rewrite last_lookup, Hlen.
  replace (Nat.pred (length l)) with (length l - 1)%nat by lia.
  destruct (sorted leb l !! (length l - 1)%nat) as [m|] eqn:E.
  - exists m. split; [reflexivity|]. split; [reflexivity|]. split.
    + rewrite <- Hp. now apply list_elem_of_lookup_2 with (length l - 1)%nat.
    + intros x Hx. rewrite <- Hp in Hx.
      apply list_elem_of_lookup_1 in Hx as [j Hj].
      apply (sorted_lookup_le _ Hok' Hs j (length l - 1)%nat); [assumption..|].
      apply lookup_lt_Some in Hj. lia.
  - apply lookup_ge_None in E. destruct l; [congruence|]. cbn in *. lia.
Qed.

End Extremes.

Lemma sum_bounds (a b : Z) (l : list Z) :
  (∀ x, x ∈ l → a <= x <= b) →
  a * Z.of_nat (length l) <= DataProcessor.sum l <= b * Z.of_nat (length l).
Proof.
  induction l as [|x l IH]; intros Hl.
  - cbn. lia.
  - specialize (IH (λ y Hy, Hl y ltac:(now right))).
    pose proof (Hl x ltac:(now left)).
    unfold DataProcessor.sum in *. cbn [foldr length]. lia.
Qed.

Lemma int_div_trunc a b :
  0 <= a < 2 ^ 52 → 0 < b < 2 ^ 52 →
  (q ← int_truediv a b; int_of_float q) = Ok (a / b).
Proof.
  intros Ha Hb.
  assert (Ha' : Z.abs a < 2 ^ 1000).
  { rewrite Z.abs_eq by lia. apply Z.lt_trans with (2 ^ 52); [lia|reflexivity]. }
  rewrite int_truediv_ok by (assumption || lia).
  cbn [mbind result_bind].
  rewrite int_of_float_finite by (apply div_Z_finite; [lia|assumption]).
  rewrite trunc_div_Z by (rewrite ?Z.abs_eq; lia).
  now rewrite Z.quot_div_nonneg by lia.
Qed.

Lemma sorted_Z (l : list Z) : StronglySorted Z.le (sorted Z.leb l).
Proof.
  apply (sorted_sorted Z.leb Z.le (λ _, True)).
  - intros x y _ _. apply Z.leb_le.
  - intros x y _ _ Hxy. apply Z.leb_gt in Hxy. lia.
  - intros x y z _ _ _. apply Z.le_trans.
  - now apply Forall_forall.
Qed.

Lemma extremes_Z (l : list Z) :
  l ≠ [] →
  ∃ mn mx, minimum Z.leb l = Some mn ∧ maximum Z.leb l = Some mx
           ∧ mn ∈ l ∧ mx ∈ l ∧ ∀ x, x ∈ l → mn <= x <= mx.
Proof.
  intros Hne.
  destruct (minimum_spec Z.leb Z.le (λ _, True)) with (l := l)
    as (mn & Hmin & _ & Hmn & Hlow); try assumption.
  { intros x y _ _. apply Z.leb_le. }
  { intros x y _ _ Hxy. apply Z.leb_gt in Hxy. lia. }
  { intros x _. apply Z.le_refl. }
  { intros x y z _ _ _. apply Z.le_trans. }
  { now apply Forall_forall. }
  destruct (maximum_spec Z.leb Z.le (λ _, True)) with (l := l)
    as (mx & Hmax & _ & Hmx & Hhigh); try assumption.
  { intros x y _ _. apply Z.leb_le. }
  { intros x y _ _ Hxy. apply Z.leb_gt in Hxy. lia. }
  { intros x _. apply Z.le_refl. }
  { intros x y z _ _ _. apply Z.le_trans. }
  { now apply Forall_forall. }
  exists mn, mx. do 4 (split; [assumption|]).
  intros x Hx. split; [now apply Hlow|now apply Hhigh].
Qed.

Lemma int_mean_spec (l : list Z) :
  l ≠ [] → (∀ x, x ∈ l → 0 <= x < 2 ^ 32) → Z.of_nat (length l) < 2 ^ 20 →
  DataProcessor.int_mean l = Ok (DataProcessor.sum l / Z.of_nat (length l)).
Proof.
  intros Hne Hr Hlen.
  pose proof (sum_bounds 0 (2 ^ 32 - 1) l
                ltac:(intros x Hx; specialize (Hr x Hx); lia)) as Hsum.
  unfold DataProcessor.int_mean. destruct l as [|x l']; [congruence|].
  apply int_div_trunc; cbn [length] in *; lia.
Qed.

Lemma int_median_spec (l : list Z) (mn mx : Z) :
  l ≠ [] → (∀ x, x ∈ l → 0 <= x < 2 ^ 32) → (∀ x, x ∈ l → mn <= x <= mx) →
  let n := length l in
  let s := sorted Z.leb l in
  let median :=
    if Nat.even n then (nth (n / 2 - 1) s 0 + nth (n / 2) s 0) / 2
    else nth (n / 2) s 0 in
  DataProcessor.int_median l = Ok median ∧ mn <= median <= mx.
Proof.
  intros Hne Hr Hbound. cbv zeta.
  pose proof (sorted_perm Z.leb l) as Hp.
  assert (Hn : (0 < length l)%nat) by (destruct l; [congruence|cbn; lia]).
  assert (Hslen : length (sorted Z.leb l) = length l) by now rewrite Hp.
  assert (Hsr : ∀ i, (i < length l)%nat →
            ∃ x, sorted Z.leb l !! i = Some x ∧ nth i (sorted Z.leb l) 0 = x
                 ∧ mn <= x <= mx ∧ 0 <= x < 2 ^ 32).
  { intros i Hi. destruct (lookup_lt_is_Some_2 (sorted Z.leb l) i) as [x Hx];
      [lia|].
    exists x. split; [exact Hx|]. split.
    - now apply nth_lookup_Some with (d := 0) in Hx.
    - assert (Hin : x ∈ l)
        by (rewrite <- Hp; now apply list_elem_of_lookup_2 with i).
      split; [now apply Hbound|now apply Hr]. }
  unfold DataProcessor.int_median. rewrite Hslen.
  pose proof (Nat.div_lt (length l) 2 Hn ltac:(lia)) as Hhalf.
  destruct (Hsr (length l / 2)%nat Hhalf) as (b & Hb & Hnb & Hbb & Hbr).
  rewrite Hb, Hnb.
  destruct (Nat.even (length l)) eqn:He.
  - destruct (Hsr (length l / 2 - 1)%nat ltac:(lia)) as (a & Ha & Hna & Hab & Har).
    rewrite Ha, Hna, int_div_trunc by lia.
    split; [reflexivity|]. split.
    + apply Z.div_le_lower_bound; lia.
    + apply Z.div_le_upper_bound; lia.
  - split; [reflexivity|lia].
Qed.

Lemma iso_stats_returns (l : list Z) :
  l ≠ [] → (∀ x, x ∈ l → 0 <= x < 2 ^ 32) → Z.of_nat (length l) < 2 ^ 20 →
  ∃ stats, DataProcessor.iso_stats l = Ok stats.
Proof.
  intros Hne Hr Hlen.
  destruct (extremes_Z l Hne) as (mn & mx & Hmin & Hmax & _ & _ & Hbound).
  destruct (int_median_spec l mn mx Hne Hr Hbound) as [Hmedian _].
  unfold DataProcessor.iso_stats.
  rewrite Hmin, Hmax, (int_mean_spec l Hne Hr Hlen), Hmedian. cbn. eauto.
Qed.

(** X17: for a column of at least one and fewer than 2^20 ISO values, each
    from 0 to below 2^32, the ISO statistics are computed without error:
    the minimum and the maximum are values of the column that bound all
    others, the mean is the sum divided by the number of values, rounded
    down, the median is the middle value of the values in ascending order,
    or the mean of the two middle values, rounded down, and both lie
    between the minimum and the maximum. *)
Theorem iso_stats_in_range (l : list Z) :
  l ≠ [] → (∀ x, x ∈ l → 0 <= x < 2 ^ 32) → Z.of_nat (length l) < 2 ^ 20 →
  let n := length l in
  let s := sorted Z.leb l in
  let mean := DataProcessor.sum l / Z.of_nat n in
  let median :=
    if Nat.even n then (nth (n / 2 - 1) s 0 + nth (n / 2) s 0) / 2
    else nth (n / 2) s 0 in
  s ≡ₚ l ∧ StronglySorted Z.le s
  ∧ ∃ mn mx,
      DataProcessor.iso_stats l
      = Ok (RDict [("min", RInt mn); ("max", RInt mx);
                   ("mean", RInt mean); ("median", RInt median)]%string)
      ∧ mn ∈ l ∧ mx ∈ l ∧ (∀ x, x ∈ l → mn <= x <= mx)
      ∧ mn <= mean <= mx ∧ mn <= median <= mx.
Proof.
  intros Hne Hr Hlen. cbv zeta.
  split; [apply sorted_perm|]. split; [apply sorted_Z|].
  destruct (extremes_Z l Hne) as (mn & mx & Hmin & Hmax & Hmn & Hmx & Hbound).
  destruct (int_median_spec l mn mx Hne Hr Hbound) as [Hmedian Hmb].
  exists mn, mx.
  assert (Hn : (0 < length l)%nat) by (destruct l; [congruence|cbn; lia]).
  pose proof (sum_bounds mn mx l Hbound) as Hsum.
  split; [|split; [exact Hmn|split; [exact Hmx|split;
    [exact Hbound|split; [|exact Hmb]]]]].
  - unfold DataProcessor.iso_stats.
    rewrite Hmin, Hmax, (int_mean_spec l Hne Hr Hlen), Hmedian. reflexivity.
  - split.
    + apply Z.div_le_lower_bound; lia.
    + apply Z.div_le_upper_bound; lia.
Qed.

Lemma iso_stats_in_range_witness :
  ∃ mn mx,
    DataProcessor.iso_stats [400; 100; 200; 800]
    = Ok (RDict [("min", RInt mn); ("max", RInt mx);
                 ("mean", RInt 375); ("median", RInt 300)]%string)
    ∧ mn <= 375 <= mx ∧ mn <= 300 <= mx.
Proof.
  destruct (iso_stats_in_range [400; 100; 200; 800])
    as (_ & _ & mn & mx & Hstats & _ & _ & _ & Hmean & Hmedian);
    [discriminate| |reflexivity|].
  - intros x Hx. apply list_elem_of_In in Hx. cbn in Hx.
    destruct Hx as [<-|[<-|[<-|[<-|[]]]]]; lia.
  - exists mn, mx. split; [exact Hstats|]. split; [exact Hmean|exact Hmedian].
Defined.

(** X18: for a date column with at least one date, the date range of the
    summary report names an earliest and a latest date of the column, no
    date of the column lying before the one or after the other, and the
    span is the number of whole days between the two, which is not
    negative. *)
Theorem date_range_ordered (dates : list datetime) :
  dates ≠ [] →
  ∃ earliest latest,
    DataProcessor.date_range dates
    = RDict [("earliest", RTime (Some earliest));
             ("latest", RTime (Some latest));
             ("span_days",
               RInt ((epoch_seconds latest - epoch_seconds earliest) / 86400))]%string
    ∧ earliest ∈ dates ∧ latest ∈ dates
    ∧ (∀ t, t ∈ dates →
            epoch_seconds earliest <= epoch_seconds t <= epoch_seconds latest)
    ∧ 0 <= (epoch_seconds latest - epoch_seconds earliest) / 86400.
Proof.
  intros Hne.
  destruct (minimum_spec DataProcessor.time_leb
              (λ a b, epoch_seconds a <= epoch_seconds b) (λ _, True))
    with (l := dates) as (a & Hmin & _ & Ha & Hlow); try assumption.
  { intros x y _ _. apply Z.leb_le. }
  { intros x y _ _ Hxy. apply Z.leb_gt in Hxy. lia. }
  { intros x _. apply Z.le_refl. }
  { intros x y z _ _ _. apply Z.le_trans. }
  { now apply Forall_forall. }
  destruct (maximum_spec DataProcessor.time_leb
              (λ a b, epoch_seconds a <= epoch_seconds b) (λ _, True))
    with (l := dates) as (b & Hmax & _ & Hb & Hhigh); try assumption.
  { intros x y _ _. apply Z.leb_le. }
  { intros x y _ _ Hxy. apply Z.leb_gt in Hxy. lia. }
  { intros x _. apply Z.le_refl. }
  { intros x y z _ _ _. apply Z.le_trans. }
  { now apply Forall_forall. }
  exists a, b. unfold DataProcessor.date_range. rewrite Hmin, Hmax.
  split; [reflexivity|]. split; [exact Ha|]. split; [exact Hb|]. split.
  - intros t Ht. split; [now apply Hlow|now apply Hhigh].
  - apply Z.div_pos; [|lia]. specialize (Hlow b Hb). cbn in Hlow. lia.
Qed.

Lemma date_range_ordered_witness :
  ∃ earliest latest,
    DataProcessor.date_range [later_time; sample_time]
    = RDict [("earliest", RTime (Some earliest));
             ("latest", RTime (Some latest));
             ("span_days",
               RInt ((epoch_seconds latest - epoch_seconds earliest) / 86400))]%string
    ∧ earliest ∈ [later_time; sample_time]
    ∧ latest ∈ [later_time; sample_time]
    ∧ (∀ t, t ∈ [later_time; sample_time] →
            epoch_seconds earliest <= epoch_seconds t <= epoch_seconds latest)
    ∧ 0 <= (epoch_seconds latest - epoch_seconds earliest) / 86400.
Proof. apply date_range_ordered. discriminate. Defined.

Lemma length_uniques {K} (eqb : K → K → bool) (l : list K) :
  (length (uniques eqb l) ≤ length l)%nat.
Proof.
  induction l as [|x l IH]; cbn [uniques length]; [lia|].
  pose proof (List.filter_length_le (λ y, negb (eqb x y)) (uniques eqb l)). lia.
Qed.

Lemma typed_iso (r : record) v :
  well_typed r → r !! "iso"%string = Some v → ∃ z, v = FInt z.
Proof.
  intros Hr Hv. specialize (Hr _ _ Hv).
  destruct v; try (vm_compute in Hr; discriminate); eauto.
Qed.

Lemma column_not_empty {A} (read : fval → option A) c photos r x :
  r ∈ photos → read (cell c r) = Some x → column read c photos ≠ [].
Proof.
  intros Hr Hx E.
  assert (Hin : x ∈ column read c photos).
  { unfold column. apply list_elem_of_omap. eauto. }
  rewrite E in Hin. now apply not_elem_of_nil in Hin.
Qed.

Section Summary.
Context `{Runtime} `{Pandas}.

Lemma scanned_date_column fs (files : list string) :
  let data := omap (λ f, (extract_exif fs f).1) files in
  has_column "date" (DataProcessor.process_data data)
  = has_column "datetime" data.
Proof.
  cbv zeta. set (data := omap (λ f, (extract_exif fs f).1) files).
  destruct (has_column "datetime" data) eqn:Hdt.
  - rewrite process_data_dated by assumption. apply has_column_fmap.
    + intros E. rewrite E in Hdt. discriminate.
    + intros r. unfold DataProcessor.date_columns.
      rewrite !lookup_insert_ne by discriminate. rewrite lookup_insert_eq. eauto.
  - rewrite process_data_undated by assumption.
    apply scanned_records_columns.
    apply (bool_decide_eq_false_1 _). reflexivity.
Qed.

(** X19: for the photos of a scan, fewer than 2^20 of them and with ISO
    values from 0 to below 2^32, the summary report is computed without
    error.  It starts with the number of photos, of distinct camera
    models, of distinct lenses and of photos with coordinates, none of
    which exceeds the number of photos, and goes on with one entry for
    each of the date, ISO, aperture and focal-length columns that some
    photo has, in this order. *)
Theorem summary_report_of_scan fs folder_path recursive self out data :
  (scan_folder fs folder_path recursive self out).1.1 = Ok data →
  (∀ iso, iso ∈ column read_int "iso" data → 0 <= iso < 2 ^ 32) →
  Z.of_nat (length data) < 2 ^ 20 →
  ∃ cameras lenses located rest,
    DataProcessor.get_summary_report (DataProcessor.__init__ data)
    = Ok ([("total_photos", RInt (Z.of_nat (length data)));
           ("unique_cameras", RInt cameras);
           ("unique_lenses", RInt lenses);
           ("photos_with_gps", RInt located)]%string ++ rest)
    ∧ 0 <= cameras <= Z.of_nat (length data)
    ∧ 0 <= lenses <= Z.of_nat (length data)
    ∧ 0 <= located <= Z.of_nat (length data)
    ∧ rest.*1
      = (if has_column "datetime" data then ["date_range"] else [])
        ++ (if has_column "iso" data then ["iso_stats"] else [])
        ++ (if has_column "aperture" data then ["aperture_stats"] else [])
        ++ (if has_column "focal_length" data
            then ["focal_length_stats"] else [])%string.
Proof.
  intros Hs Hrange Hlen. apply scan_folder_data in Hs.
  assert (Htyped : ∀ r, r ∈ data → well_typed r)
    by (subst data; apply scanned_typed).
  assert (Hiso : has_column "iso" data = true →
            ∃ stats, DataProcessor.iso_stats (column read_int "iso" data)
                     = Ok stats).
  { intros Hc. apply has_column_true in Hc as (r & Hr & [v Hv]).
    pose proof (Htyped r Hr) as Ht.
    destruct (typed_iso r v Ht Hv) as [z ->].
    apply iso_stats_returns.
    - apply (column_not_empty read_int "iso" data r z Hr).
      unfold cell. now rewrite Hv.
    - exact Hrange.
    - pose proof (length_column read_int "iso" data). lia. }
  assert (Hdate : has_column "date" (DataProcessor.process_data data)
                  = has_column "datetime" data).
  { subst data. apply scanned_date_column. }
  exists (nunique String.eqb (column read_str "camera_model" data)),
    (nunique String.eqb (column read_str "lens" data)),
    (Z.of_nat (length (column read_float "latitude" data))).
  unfold DataProcessor.get_summary_report, DataProcessor.len,
    DataProcessor.__init__.
  cbn [DataProcessor.df]. rewrite Hdate, length_process_data.
  rewrite !(has_column_process_data "camera_model"),
    !(has_column_process_data "lens"), !(has_column_process_data "latitude"),
    !(has_column_process_data "iso"), !(has_column_process_data "aperture"),
    !(has_column_process_data "focal_length"),
    !(column_process_data _ "camera_model"), !(column_process_data _ "lens"),
    !(column_process_data _ "latitude"), !(column_process_data _ "iso"),
    !(column_process_data _ "aperture"), !(column_process_data _ "focal_length")
    by (apply (bool_decide_eq_false_1 _); reflexivity).
  assert (Hcam : (if has_column "camera_model" data
                  then nunique String.eqb (column read_str "camera_model" data)
                  else 0)
                 = nunique String.eqb (column read_str "camera_model" data)).
  { destruct (has_column "camera_model" data) eqn:E; [reflexivity|].
    now rewrite column_absent. }
  assert (Hlens : (if has_column "lens" data
                   then nunique String.eqb (column read_str "lens" data)
                   else 0)
                  = nunique String.eqb (column read_str "lens" data)).
  { destruct (has_column "lens" data) eqn:E; [reflexivity|].
    now rewrite column_absent. }
  assert (Hgps : (if has_column "latitude" data
                  then Z.of_nat (length (column read_float "latitude" data))
                  else 0)
                 = Z.of_nat (length (column read_float "latitude" data))).
  { destruct (has_column "latitude" data) eqn:E; [reflexivity|].
    now rewrite column_absent. }
  rewrite Hcam, Hlens, Hgps. clear Hcam Hlens Hgps Hdate.
  pose proof (length_uniques String.eqb (column read_str "camera_model" data)).
  pose proof (length_uniques String.eqb (column read_str "lens" data)).
  pose proof (length_column read_str "camera_model" data).
  pose proof (length_column read_str "lens" data).
  pose proof (length_column read_float "latitude" data).
  unfold nunique.
  destruct (has_column "iso" data) eqn:Ei.
  - destruct (Hiso eq_refl) as [stats ->]. cbn [mbind result_bind].
    destruct (has_column "datetime" data), (has_column "aperture" data),
      (has_column "focal_length" data);
      (eexists; split;
       [cbn [app]; reflexivity
       |split; [lia|split; [lia|split; [lia|reflexivity]]]]).
  - destruct (has_column "datetime" data), (has_column "aperture" data),
      (has_column "focal_length" data);
      (eexists; split;
       [cbn [app]; reflexivity
       |split; [lia|split; [lia|split; [lia|reflexivity]]]]).
Qed.

End Summary.

Lemma summary_report_of_scan_witness :
  ∃ cameras lenses located rest,
    DataProcessor.get_summary_report (DataProcessor.__init__ tour_photos)
    = Ok ([("total_photos", RInt (Z.of_nat (length tour_photos)));
           ("unique_cameras", RInt cameras);
           ("unique_lenses", RInt lenses);
           ("photos_with_gps", RInt located)]%string ++ rest)
    ∧ 0 <= located <= Z.of_nat (length tour_photos)
    ∧ rest.*1 = ["date_range"; "iso_stats"; "aperture_stats"]%string.
Proof.
  destruct (@summary_report_of_scan clock_runtime tour_fs "/tour" true
              __init__ [] tour_photos tour_scan)
    as (cameras & lenses & located & rest & Hreport & _ & _ & Hlocated & Hkeys).
  - intros iso Hiso. vm_compute in Hiso. apply list_elem_of_In in Hiso.
    cbn in Hiso. destruct Hiso as [<-|[<-|[<-|[]]]]; lia.
  - vm_compute. reflexivity.
  - exists cameras, lenses, located, rest.
    split; [exact Hreport|]. split; [exact Hlocated|].
    rewrite Hkeys. vm_compute. reflexivity.
Defined.

(** * Tags that are read, names and flash *)

Lemma rstrip_idemp s : rstrip (rstrip s) = rstrip s.
Proof.
  induction s as [|c s IH]; [reflexivity|]. cbn [rstrip].
  destruct (rstrip s) as [|c' t] eqn:E.
  - destruct (is_space c) eqn:Hc; [reflexivity|]. cbn [rstrip]. now rewrite Hc.
  - change (rstrip (String c (String c' t)))
      with (match rstrip (String c' t) with
            | EmptyString => if is_space c then EmptyString else String c EmptyString
            | t0 => String c t0
            end).
    now rewrite IH.
Qed.

Lemma lstrip_idemp s : lstrip (lstrip s) = lstrip s.
Proof.
  induction s as [|c s IH]; [reflexivity|]. cbn [lstrip].
  destruct (is_space c) eqn:Hc; [exact IH|]. cbn [lstrip]. now rewrite Hc.
Qed.

Lemma rstrip_lstrip t : rstrip t = t → rstrip (lstrip t) = lstrip t.
Proof.
  induction t as [|c t IH]; [reflexivity|]. intros Ht. cbn [lstrip].
  destruct (is_space c) eqn:Hc; [|exact Ht].
  apply IH. cbn [rstrip] in Ht. destruct (rstrip t) as [|c' t'] eqn:E.
  - rewrite Hc in Ht. discriminate.
  - now injection Ht.
Qed.

Lemma strip_idemp s : strip (strip s) = strip s.
Proof.
  unfold strip. rewrite rstrip_lstrip by apply rstrip_idemp.
  apply lstrip_idemp.
Qed.

Section ReadTags.
Context `{Runtime}.

Lemma handle_tag_unread parsed_data tag_id value :
  tag_id ∉ read_tags → handle_tag parsed_data tag_id value = Ok parsed_data.
Proof.
  intros Hid. unfold handle_tag, get_name, TAGS, table_get.
  repeat match goal with
    | |- context [(?k =? tag_id)%Z] =>
        destruct (Z.eqb_spec k tag_id) as [<-|_];
        [exfalso; apply Hid; apply (bool_decide_unpack _); exact I|]
    end.
  reflexivity.
Qed.

(** X20: the tag loop reads eleven tags and ignores every other: the
    record it builds is the one it builds from the read tags alone, and it
    fails on the one exactly when it fails on the other. *)
Theorem unread_tags_ignored items parsed_data :
  for_tags items parsed_data = for_tags (List.filter is_read items) parsed_data.
Proof.
  revert parsed_data. induction items as [|[tag_id value] items IH]; intros p;
    [reflexivity|].
  cbn [List.filter]. unfold is_read at 1. cbn [fst].
  destruct (bool_decide (tag_id ∈ read_tags)) eqn:Hid.
  - cbn [for_tags]. destruct (handle_tag p tag_id value); [|reflexivity].
    cbn [mbind result_bind]. apply IH.
  - apply bool_decide_eq_false in Hid. cbn [for_tags].
    rewrite handle_tag_unread by assumption. cbn [mbind result_bind]. apply IH.
Qed.

Lemma trimmed_insert_other k x (r : record) :
  k ∉ name_fields → trimmed r → trimmed (<[k := x]> r).
Proof.
  intros Hk Hr k' s Hk' Hs. apply (Hr k' s Hk').
  rewrite lookup_insert_ne in Hs; [exact Hs|]. intros ->. contradiction.
Qed.

Lemma trimmed_insert_name k x (r : record) :
  trimmed r → trimmed (<[k := FStr (strip x)]> r).
Proof.
  intros Hr k' s Hk' Hs. destruct (decide (k = k')) as [<-|Hne].
  - rewrite lookup_insert_eq in Hs. injection Hs as <-. apply strip_idemp.
  - rewrite lookup_insert_ne in Hs by assumption. now apply (Hr k' s).
Qed.

Lemma handle_tag_trimmed parsed_data tag_id value parsed_data' :
  handle_tag parsed_data tag_id value = Ok parsed_data' →
  trimmed parsed_data → trimmed parsed_data'.
Proof.
  unfold handle_tag. intros Hh Hp. revert Hh.
  repeat match goal with
    | |- context [if ?b || ?c then _ else _] => destruct (b || c) eqn:?
    | |- context [if is_name ?k ?n then _ else _] => destruct (is_name k n) eqn:?
    end;
    try (intros [= <-]; first [assumption | now apply trimmed_insert_name]);
    lazymatch goal with
    | |- (_parse_gps value ≫= _) = _ → _ =>
        destruct (_parse_gps value) as [[g|]|] eqn:Hg; cbn [mbind result_bind];
        [|intros [= <-]; assumption|discriminate];
        destruct (decide (g = ∅)); intros [= <-]; [assumption|];
        apply parse_gps_shape in Hg as (lat & lon & ->);
        intros k s Hk Hs; apply lookup_union_Some_raw in Hs as [Hs|[_ Hs]];
        [|now apply (Hp k s)];
        destruct (decide (k = "latitude"%string)) as [->|Hla];
        [rewrite lookup_insert_eq in Hs; discriminate|];
        rewrite lookup_insert_ne in Hs by congruence;
        apply lookup_singleton_Some in Hs as [_ Hs]; discriminate
    | |- (?c ≫= _) = _ → _ =>
        destruct c as [r|]; cbn [mbind result_bind]; [|discriminate];
        intros [= <-]; apply trimmed_insert_other; [|assumption];
        apply (bool_decide_eq_false_1 _); reflexivity
    end.
Qed.

Lemma for_tags_trimmed items : ∀ parsed_data parsed_data',
  for_tags items parsed_data = Ok parsed_data' →
  trimmed parsed_data → trimmed parsed_data'.
Proof.
  induction items as [|[tag_id value] items IH]; intros p p' Hf Hp.
  - now injection Hf as <-.
  - cbn [for_tags] in Hf.
    destruct (handle_tag p tag_id value) as [q|] eqn:Hq; [|discriminate].
    cbn [mbind result_bind] in Hf.
    eapply IH; [exact Hf|]. now apply handle_tag_trimmed with p tag_id value.
Qed.

(** X21: the camera make, the camera model and the lens of an extracted
    record carry no leading and no trailing whitespace: stripping them
    again changes nothing. *)
Theorem names_are_trimmed fs image_path r k s :
  (extract_exif fs image_path).1 = Some r →
  k ∈ name_fields → r !! k = Some (FStr s) → strip s = s.
Proof.
  intros Hr. revert k s. change (trimmed r).
  apply extract_exif_record, extract_exif_body_record in Hr
    as (image & items & st_size & file_size & p & _ & _ & _ & _ & Hf & ->).
  do 3 (apply trimmed_insert_other;
        [apply (bool_decide_eq_false_1 _); reflexivity|]).
  eapply for_tags_trimmed; [exact Hf|].
  do 2 (apply trimmed_insert_other;
        [apply (bool_decide_eq_false_1 _); reflexivity|]).
  intros k s Hk Hs. apply lookup_singleton_Some in Hs as [<- _].
  apply (bool_decide_pack _) in Hk. vm_compute in Hk. contradiction.
Qed.

(** X22: an integer Flash value sets the flash field to whether the value
    is odd: of the flags the value packs, only the lowest bit, which says
    whether the flash fired, is read. *)
Theorem flash_is_lowest_bit parsed_data n :
  handle_tag parsed_data 37385 (Plain (VInt n))
  = Ok (<["flash_used"%string := FBool (Z.odd n)]> parsed_data).
Proof.
  cbn. do 3 f_equal.
  change 1 with (Z.ones 1). rewrite Z.land_ones by lia.
  change (2 ^ 1) with 2. rewrite Zmod_odd.
  now destruct (Z.odd n).
Qed.

End ReadTags.

Lemma names_are_trimmed_witness :
  ∃ r, (@extract_exif bare_runtime sample_fs "/photos/a.jpg").1 = Some r
       ∧ r !! "camera_make"%string = Some (FStr "Canon")
       ∧ strip "Canon" = "Canon"%string.
Proof.
  assert (Hs : is_Some (@extract_exif bare_runtime sample_fs "/photos/a.jpg").1).
  { apply (bool_decide_unpack _). vm_compute. exact I. }
  destruct Hs as [r Hr]. exists r. split; [exact Hr|].
  assert (Hm : r !! "camera_make"%string = Some (FStr "Canon")).
  { assert (Hm : (@extract_exif bare_runtime sample_fs "/photos/a.jpg").1
                 ≫= (λ r : record, r !! "camera_make"%string)
                 = Some (FStr "Canon")) by (vm_compute; reflexivity).
    now rewrite Hr in Hm. }
  split; [exact Hm|].
  apply (@names_are_trimmed bare_runtime sample_fs "/photos/a.jpg" r
           "camera_make" "Canon" Hr); [|exact Hm].
  apply (bool_decide_unpack _). exact I.
Defined.

(** * Distributions and statistics of the float columns *)

Lemma float_eqb_eq x y : float_eqb x y = true ↔ x = y.
Proof.
  destruct x as [s|s| |s m e], y as [s'|s'| |s' m' e']; cbn [float_eqb];
    try (split; [discriminate|congruence]).
  - rewrite Bool.eqb_true_iff. split; congruence.
  - rewrite Bool.eqb_true_iff. split; congruence.
  - split; reflexivity.
  - rewrite !andb_true_iff, Bool.eqb_true_iff, Pos.eqb_eq, Z.eqb_eq.
    split; [intros [[-> ->] ->]; reflexivity|intros [= -> -> ->]; auto].
Qed.

Lemma compare_nonnegative x y :
  nonnegative x = true → nonnegative y = true →
  ∃ c, SFcompare x y = Some c
       ∧ (c = Eq ↔ x = y)
       ∧ (c = Gt ↔ ¬ rank_le (rank x) (rank y))
       ∧ (c = Lt → x ≠ y ∧ rank_le (rank x) (rank y)).
Proof.
  destruct x as [[]|[]| |[] m e], y as [[]|[]| |[] m' e']; try discriminate;
    intros _ _; cbn [SFcompare rank]; unfold rank_le; cbn [fst snd];
    try change (Pos.compare_cont Eq m m') with (Pos.compare m m');
    try destruct (Z.compare_spec e e'); try destruct (Pos.compare_spec m m');
    (eexists; split; [reflexivity|]);
    repeat (split || intro);
    repeat match goal with
      | E : S754_finite _ _ _ = S754_finite _ _ _ |- _ => injection E as ? ?
      end;
    subst; try reflexivity; try discriminate; try congruence; try lia.
Qed.

Lemma SFeqb_nonnegative x y :
  nonnegative x = true → nonnegative y = true → SFeqb x y = float_eqb x y.
Proof.
  intros Hx Hy. destruct (compare_nonnegative x y Hx Hy) as (c & Hc & He & _).
  unfold SFeqb. rewrite Hc. destruct (float_eqb x y) eqn:E.
  - apply float_eqb_eq, He in E. now subst c.
  - destruct c; try reflexivity. destruct He as [He _].
    rewrite (proj2 (float_eqb_eq x y) (He eq_refl)) in E. discriminate.
Qed.

Lemma SFleb_nonnegative x y :
  nonnegative x = true → nonnegative y = true →
  SFleb x y = true ↔ rank_le (rank x) (rank y).
Proof.
  intros Hx Hy.
  destruct (compare_nonnegative x y Hx Hy) as (c & Hc & He & Hg & Hl).
  unfold SFleb. rewrite Hc. destruct c.
  - destruct He as [He _]. rewrite (He eq_refl). split; [|reflexivity].
    intros _. unfold rank_le. lia.
  - split; [|reflexivity]. intros _. now apply Hl.
  - split; [discriminate|]. intros Hr. destruct Hg as [Hg _].
    now destruct (Hg eq_refl).
Qed.

Lemma rank_le_total a b : ¬ rank_le a b → rank_le b a.
Proof. unfold rank_le. lia. Qed.

Lemma rank_le_trans a b c : rank_le a b → rank_le b c → rank_le a c.
Proof. unfold rank_le. lia. Qed.

Lemma SFltb_nonnegative x y :
  nonnegative x = true → nonnegative y = true →
  SFleb x y = true → x ≠ y → SFltb x y = true.
Proof.
  intros Hx Hy.
  destruct (compare_nonnegative x y Hx Hy) as (c & Hc & He & _).
  unfold SFleb, SFltb. rewrite Hc. destruct c; try discriminate; [|reflexivity].
  intros _ Hne. destruct He as [He _]. now destruct (Hne (He eq_refl)).
Qed.

Section Agreement.
Context {K : Type} (eqb eqb' : K → K → bool).

Lemma uniques_subset x l : x ∈ uniques eqb l → x ∈ l.
Proof.
  revert x. induction l as [|y l IH]; intros x; cbn [uniques]; [easy|].
  rewrite !elem_of_cons. intros [->|Hx]; [now left|right].
  apply IH. apply list_elem_of_In in Hx. apply List.filter_In in Hx as [Hx _].
  now apply list_elem_of_In.
Qed.

Lemma count_key_agree k l :
  (∀ x, x ∈ l → eqb x k = eqb' x k) → count_key eqb k l = count_key eqb' k l.
Proof.
  induction l as [|y l IH]; intros Hl; [reflexivity|]. cbn [count_key].
  rewrite (Hl y) by now left. rewrite IH; [reflexivity|].
  intros x Hx. apply Hl. now right.
Qed.

Lemma uniques_agree l :
  (∀ x y, x ∈ l → y ∈ l → eqb x y = eqb' x y) → uniques eqb l = uniques eqb' l.
Proof.
  induction l as [|z l IH]; intros Hl; [reflexivity|]. cbn [uniques].
  rewrite <- IH by (intros x y Hx Hy; apply Hl; now right). f_equal.
  apply List.filter_ext_in. intros y Hy. f_equal. apply Hl; [now left|right].
  apply uniques_subset. now apply list_elem_of_In.
Qed.

Lemma value_counts_agree l :
  (∀ x y, x ∈ l → y ∈ l → eqb x y = eqb' x y) →
  value_counts eqb l = value_counts eqb' l.
Proof.
  intros Hl. unfold value_counts, counts. f_equal.
  rewrite <- (uniques_agree l Hl).
  apply list_eq. intros i. rewrite !list_lookup_fmap.
  destruct (uniques eqb l !! i) as [k|] eqn:Hk; [|reflexivity].
  cbn. do 2 f_equal. apply count_key_agree. intros x Hx. apply Hl; [exact Hx|].
  apply uniques_subset. now apply list_elem_of_lookup_2 with i.
Qed.

End Agreement.

Lemma float_values_agree (l : list float) :
  (∀ x, x ∈ l → nonnegative x = true) →
  ∀ x y, x ∈ l → y ∈ l → SFeqb x y = float_eqb x y.
Proof. intros Hl x y Hx Hy. apply SFeqb_nonnegative; now apply Hl. Qed.

Lemma ascending_floats_strict (t : list (float * Z)) :
  Forall (λ a : float * Z, nonnegative a.1 = true) t →
  StronglySorted (λ a b : float * Z, SFleb a.1 b.1 = true) t → NoDup t.*1 →
  StronglySorted (λ a b : float * Z, SFltb a.1 b.1 = true) t.
Proof.
  intros Hok Hs. induction Hs as [|x t Ht IH Hx]; cbn [fmap list_fmap];
    intros Hnd; [constructor|].
  apply Forall_cons in Hok as [Hox Hok].
  apply NoDup_cons in Hnd as [Hnx Hnd].
  constructor; [now apply IH|].
  apply Forall_forall. intros y Hy.
  rewrite Forall_forall in Hx, Hok.
  apply SFltb_nonnegative; [assumption|now apply Hok|now apply Hx|].
  intros E. apply Hnx. rewrite E. apply list_elem_of_fmap. now exists y.
Qed.

Lemma float_rows c photos :
  c ∉ derived_names →
  DataProcessor.float_distribution c (DataProcessor.__init__ photos)
  = sort_index SFleb (value_counts SFeqb (column read_float c photos)).
Proof.
  intros Hc. unfold DataProcessor.float_distribution, DataProcessor.__init__.
  cbn [DataProcessor.df].
  rewrite has_column_process_data, column_process_data by assumption.
  destruct (has_column c photos) eqn:Hh; [reflexivity|].
  now rewrite column_absent.
Qed.

(** X23: when the apertures (or the focal lengths) of the photos are not
    negative, the aperture (or focal-length) distribution lists the
    distinct values in strictly ascending order, each with the number of
    photos that have it, which is at least one; the counts add up to the
    number of photos that have a value. *)
Theorem float_distribution_ascending (c : string) (photos : list record) :
  c ∈ ["aperture"; "focal_length"]%string →
  (∀ x, x ∈ column read_float c photos → nonnegative x = true) →
  let rows := DataProcessor.float_distribution c (DataProcessor.__init__ photos) in
  let values := column read_float c photos in
  StronglySorted (λ a b : float * Z, SFltb a.1 b.1 = true) rows
  ∧ (∀ x, x ∈ rows.*1 ↔ x ∈ values)
  ∧ (∀ x n, (x, n) ∈ rows → n = count_key SFeqb x values ∧ 1 <= n)
  ∧ DataProcessor.sum rows.*2 = Z.of_nat (length values).
Proof.
  intros Hc Hok. cbv zeta.
  assert (Hd : c ∉ derived_names).
  { apply list_elem_of_In in Hc. cbn in Hc.
    destruct Hc as [<-|[<-|[]]]; apply (bool_decide_eq_false_1 _); reflexivity. }
  rewrite (float_rows c photos Hd).
  set (values := column read_float c photos) in *.
  rewrite (value_counts_agree SFeqb float_eqb values
             (float_values_agree values Hok)).
  pose proof (sort_index_perm SFleb (value_counts float_eqb values)) as Hp.
  assert (Hkeys : ∀ x, x ∈ (value_counts float_eqb values).*1 ↔ x ∈ values)
    by (intros x; apply value_counts_key, float_eqb_eq).
  assert (Hrows : Forall (λ a : float * Z, nonnegative a.1 = true)
                    (value_counts float_eqb values)).
  { apply Forall_forall. intros [x n] Hx. apply Hok, Hkeys.
    apply list_elem_of_fmap. now exists (x, n). }
  split; [|split; [|split]].
  - apply ascending_floats_strict.
    + now rewrite Hp.
    + apply (sort_index_sorted SFleb (λ x y, SFleb x y = true)
               (λ x, nonnegative x = true)); [auto| | |exact Hrows].
      * intros x y Hx Hy Hxy. apply SFleb_nonnegative; [assumption..|].
        apply rank_le_total. intros Hr.
        apply (SFleb_nonnegative x y Hx Hy) in Hr. congruence.
      * intros x y z Hx Hy Hz Hxy Hyz.
        apply SFleb_nonnegative; [assumption..|].
        apply rank_le_trans with (rank y); now apply SFleb_nonnegative.
    + rewrite Hp. apply value_counts_NoDup, float_eqb_eq.
  - intros x. rewrite Hp. apply Hkeys.
  - intros x n Hin. rewrite Hp in Hin.
    pose proof Hin as Hx.
    apply (value_counts_row float_eqb float_eqb_eq) in Hin as [Hn Hb].
    split; [|lia]. rewrite Hn. symmetry. apply count_key_agree.
    intros y Hy. apply SFeqb_nonnegative; [now apply Hok|].
    apply Hok, Hkeys. apply list_elem_of_fmap. now exists (x, n).
  - rewrite (sum_perm _ (value_counts float_eqb values).*2) by now rewrite Hp.
    apply sum_value_counts, float_eqb_eq.
Qed.

Lemma float_distribution_ascending_witness :
  (DataProcessor.get_aperture_distribution (DataProcessor.__init__ sample_photos)).*2
  = [1; 1]
  ∧ StronglySorted (λ a b : float * Z, SFltb a.1 b.1 = true)
      (DataProcessor.get_aperture_distribution (DataProcessor.__init__ sample_photos)).
Proof.
  split; [vm_compute; reflexivity|].
  refine (proj1 (float_distribution_ascending "aperture" sample_photos _ _)).
  - apply (bool_decide_unpack _). exact I.
  - intros x Hx. vm_compute in Hx. apply list_elem_of_In in Hx. cbn in Hx.
    destruct Hx as [<-|[<-|[]]]; reflexivity.
Defined.

Lemma value_counts_has {K} (eqb : K → K → bool) x l :
  (∀ x y, eqb x y = true ↔ x = y) →
  x ∈ l → (x, count_key eqb x l) ∈ value_counts eqb l.
Proof.
  intros Heq Hx. apply (value_counts_key eqb Heq) in Hx.
  apply list_elem_of_fmap in Hx as ([k n] & -> & Hin). cbn [fst].
  pose proof Hin as Hn. apply (elem_of_value_counts eqb) in Hn; try exact Heq.
  now subst n.
Qed.

Lemma SFleb_refl x : nonnegative x = true → SFleb x x = true.
Proof.
  intros Hx. apply SFleb_nonnegative; [assumption..|]. unfold rank_le. lia.
Qed.

Lemma extremes_float (l : list float) :
  l ≠ [] → (∀ x, x ∈ l → nonnegative x = true) →
  ∃ mn mx, minimum SFleb l = Some mn ∧ maximum SFleb l = Some mx
           ∧ mn ∈ l ∧ mx ∈ l
           ∧ ∀ x, x ∈ l → SFleb mn x = true ∧ SFleb x mx = true.
Proof.
  intros Hne Hok. apply Forall_forall in Hok.
  destruct (minimum_spec SFleb (λ x y, SFleb x y = true)
              (λ x, nonnegative x = true)) with (l := l)
    as (mn & Hmin & _ & Hmn & Hlow); try assumption.
  { auto. }
  { intros x y Hx Hy Hxy. apply SFleb_nonnegative; [assumption..|].
    apply rank_le_total. intros Hr.
    apply (SFleb_nonnegative x y Hx Hy) in Hr. congruence. }
  { apply SFleb_refl. }
  { intros x y z Hx Hy Hz Hxy Hyz. apply SFleb_nonnegative; [assumption..|].
    apply rank_le_trans with (rank y); now apply SFleb_nonnegative. }
  destruct (maximum_spec SFleb (λ x y, SFleb x y = true)
              (λ x, nonnegative x = true)) with (l := l)
    as (mx & Hmax & _ & Hmx & Hhigh); try assumption.
  { auto. }
  { intros x y Hx Hy Hxy. apply SFleb_nonnegative; [assumption..|].
    apply rank_le_total. intros Hr.
    apply (SFleb_nonnegative x y Hx Hy) in Hr. congruence. }
  { apply SFleb_refl. }
  { intros x y z Hx Hy Hz Hxy Hyz. apply SFleb_nonnegative; [assumption..|].
    apply rank_le_trans with (rank y); now apply SFleb_nonnegative. }
  exists mn, mx. do 4 (split; [assumption|]).
  intros x Hx. split; [now apply Hlow|now apply Hhigh].
Qed.

Lemma mode_float (l : list float) :
  l ≠ [] → (∀ x, x ∈ l → nonnegative x = true) →
  ∃ m rest, mode SFeqb SFleb l = m :: rest ∧ m ∈ l
    ∧ (∀ x, x ∈ l → count_key SFeqb x l <= count_key SFeqb m l)
    ∧ (∀ x, x ∈ l → count_key SFeqb x l = count_key SFeqb m l →
            SFleb m x = true).
Proof.
  intros Hne Hok.
  assert (Hcount : ∀ x, x ∈ l → count_key SFeqb x l = count_key float_eqb x l).
  { intros x Hx. apply count_key_agree. intros y Hy.
    apply SFeqb_nonnegative; now apply Hok. }
  unfold mode.
  rewrite (value_counts_agree SFeqb float_eqb l (float_values_agree l Hok)).
  pose proof (sort_desc_sorted (counts float_eqb l)) as Hsorted.
  fold (value_counts float_eqb l) in Hsorted.
  assert (Hhas : ∀ x, x ∈ l →
            (x, count_key float_eqb x l) ∈ value_counts float_eqb l)
    by (intros x; apply value_counts_has, float_eqb_eq).
  assert (Hrow : ∀ x n, (x, n) ∈ value_counts float_eqb l →
            x ∈ l ∧ n = count_key float_eqb x l).
  { intros x n Hin. split.
    - apply (value_counts_key float_eqb float_eqb_eq).
      apply list_elem_of_fmap. now exists (x, n).
    - now apply (value_counts_row float_eqb float_eqb_eq) in Hin as [-> _]. }
  destruct (value_counts float_eqb l) as [|[k0 top] rest] eqn:Hvc.
  { destruct l as [|x l']; [congruence|].
    specialize (Hhas x ltac:(now left)). now apply not_elem_of_nil in Hhas. }
  set (ks := (λ kn : float * Z, kn.1)
               <$> List.filter (λ kn : float * Z, kn.2 =? top)
                     ((k0, top) :: rest)).
  assert (Hks : ∀ x, x ∈ ks ↔ x ∈ l ∧ count_key float_eqb x l = top).
  { intros x. unfold ks. rewrite list_elem_of_fmap. split.
    - intros ([k n] & -> & Hin). apply list_elem_of_In in Hin.
      apply List.filter_In in Hin as [Hin Hn]. apply list_elem_of_In in Hin.
      cbn [fst snd] in *. apply Z.eqb_eq in Hn. subst n.
      destruct (Hrow k top Hin) as [Hk Hc]. now split.
    - intros [Hx Hc]. exists (x, top). split; [reflexivity|].
      apply list_elem_of_In, List.filter_In. split.
      + apply list_elem_of_In. pose proof (Hhas x Hx) as Hin.
        now rewrite Hc in Hin.
      + apply Z.eqb_refl. }
  assert (Htop : ∀ x, x ∈ l → count_key float_eqb x l <= top).
  { intros x Hx. specialize (Hhas x Hx).
    apply StronglySorted_inv in Hsorted as [_ Hall].
    apply elem_of_cons in Hhas as [[= _ ->]|Hin]; [lia|].
    rewrite Forall_forall in Hall. exact (Hall _ Hin). }
  assert (Hk0 : k0 ∈ ks).
  { apply Hks. destruct (Hrow k0 top ltac:(now left)) as [Hk Hc]. now split. }
  destruct (minimum_spec SFleb (λ x y, SFleb x y = true)
              (λ x, nonnegative x = true)) with (l := ks)
    as (m & Hmin & _ & Hm & Hlow).
  { auto. }
  { intros x y Hx Hy Hxy. apply SFleb_nonnegative; [assumption..|].
    apply rank_le_total. intros Hr.
    apply (SFleb_nonnegative x y Hx Hy) in Hr. congruence. }
  { apply SFleb_refl. }
  { intros x y z Hx Hy Hz Hxy Hyz. apply SFleb_nonnegative; [assumption..|].
    apply rank_le_trans with (rank y); now apply SFleb_nonnegative. }
  { intros E. rewrite E in Hk0. now apply not_elem_of_nil in Hk0. }
  { apply Forall_forall. intros x Hx. apply Hok. now apply Hks. }
  unfold minimum in Hmin. fold ks.
  destruct (sorted SFleb ks) as [|m' others] eqn:Hs; [discriminate|].
  injection Hmin as ->. exists m, others.
  apply Hks in Hm as [Hml Hmc].
  split; [reflexivity|]. split; [exact Hml|]. split.
  - intros x Hx. rewrite !Hcount by assumption. rewrite Hmc. now apply Htop.
  - intros x Hx Hc. apply Hlow. apply Hks. split; [exact Hx|].
    rewrite !Hcount in Hc by assumption. congruence.
Qed.

(** X24: for a column of at least one aperture (or focal length), none
    negative, the statistics of the summary report give a minimum and a
    maximum that are values of the column and bound all others, and as
    the most common value one that no other value of the column occurs
    more often than, the smallest of these when several occur equally
    often. *)
Theorem float_stats_of_values (l : list float) :
  l ≠ [] → (∀ x, x ∈ l → nonnegative x = true) →
  ∃ mn mx m,
    DataProcessor.float_stats l
    = RDict [("min", RFloat mn); ("max", RFloat mx);
             ("most_common", RFloat m)]%string
    ∧ mn ∈ l ∧ mx ∈ l
    ∧ (∀ x, x ∈ l → SFleb mn x = true ∧ SFleb x mx = true)
    ∧ m ∈ l
    ∧ (∀ x, x ∈ l → count_key SFeqb x l <= count_key SFeqb m l)
    ∧ (∀ x, x ∈ l → count_key SFeqb x l = count_key SFeqb m l →
            SFleb m x = true).
Proof.
  intros Hne Hok.
  destruct (extremes_float l Hne Hok)
    as (mn & mx & Hmin & Hmax & Hmn & Hmx & Hbound).
  destruct (mode_float l Hne Hok) as (m & rest & Hmode & Hm & Hmost & Hleast).
  exists mn, mx, m. unfold DataProcessor.float_stats.
  rewrite Hmin, Hmax, Hmode. cbn [default].
  split; [reflexivity|]. split; [exact Hmn|]. split; [exact Hmx|].
  split; [exact Hbound|]. split; [exact Hm|]. split; [exact Hmost|exact Hleast].
Qed.

Lemma float_stats_of_values_witness :
  ∃ mn mx m,
    DataProcessor.float_stats [F64.of_Z 4; F64.of_Z 2; F64.of_Z 4]
    = RDict [("min", RFloat mn); ("max", RFloat mx);
             ("most_common", RFloat m)]%string
    ∧ count_key SFeqb (F64.of_Z 2) [F64.of_Z 4; F64.of_Z 2; F64.of_Z 4]
      <= count_key SFeqb m [F64.of_Z 4; F64.of_Z 2; F64.of_Z 4].
Proof.
  destruct (float_stats_of_values [F64.of_Z 4; F64.of_Z 2; F64.of_Z 4])
    as (mn & mx & m & Hstats & _ & _ & _ & _ & Hmost & _).
  - discriminate.
  - intros x Hx. apply list_elem_of_In in Hx. cbn [In] in Hx.
    destruct Hx as [<-|[<-|[<-|[]]]]; reflexivity.
  - exists mn, mx, m. split; [exact Hstats|]. apply Hmost.
    apply elem_of_cons; right. apply elem_of_cons; now left.
Defined.
